(** * StarUtils: custom star-rating controls over a survey page

    A shallow embedding of [src/StarUtils.js].  The page is a store of DOM
    nodes addressed by node identifiers; the closures created by
    [_buildCustomStarsForContainer] (the [stars] array and the
    [selectedValue] variable) live in a second store, so that the listeners
    attached to different icons share them exactly as in the source. *)

From Stdlib Require Import ZArith String Ascii Bool Lia.
From Stdlib Require Import DecimalString DecimalPos DecimalN DecimalZ DecimalFacts.
From stdpp Require Import base option list strings gmap.

Local Open Scope string_scope.
Local Open Scope list_scope.
Local Open Scope Z_scope.
Local Open Scope stdpp_scope.

(** ** JavaScript numbers and strings

    Configuration values, icon indices and field values are integers; they
    are modelled as [Z].  A string is a sequence of 8-bit code units.
    [None] stands for [NaN] where a number is expected. *)

Module Js.

(** [String(z)] for an integer [z]: decimal digits with a leading minus
    sign for negative values (the form JavaScript uses below 10^21). *)
Definition toString (z : Z) : string :=
  NilZero.string_of_int (Z.to_int z).

(** White space and line terminators skipped by [parseInt]
    (TAB, LF, VT, FF, CR, SP, NBSP). *)
Definition isWhiteSpace (c : ascii) : bool :=
  let n := N_of_ascii c in
  ((9 <=? n) && (n <=? 13) || (n =? 32) || (n =? 160))%N.

Fixpoint trimStart (s : string) : string :=
  match s with
  | String c r => if isWhiteSpace c then trimStart r else s
  | EmptyString => s
  end.

Definition digitValue (c : ascii) : option Z :=
  let n := Z.of_N (N_of_ascii c) in
  if ((48 <=? n) && (n <=? 57))%Z then Some (n - 48)%Z else None.

(** The longest prefix of decimal digits, read most significant first. *)
Fixpoint parseDigits (s : string) (acc : Z) : Z :=
  match s with
  | String c r =>
      match digitValue c with
      | Some v => parseDigits r (10 * acc + v)%Z
      | None => acc
      end
  | EmptyString => acc
  end.

Definition startsWithDigit (s : string) : bool :=
  match s with
  | String c _ => bool_decide (is_Some (digitValue c))
  | EmptyString => false
  end.

(** [parseInt(s, 10)]: skip white space, read an optional sign, then the
    longest run of decimal digits; [NaN] when that run is empty.  The
    result is the integer that the digits denote, which is what JavaScript
    returns when that integer is a safe one (see [safeInteger] below). *)
Definition parseInt (s : string) : option Z :=
  let t := trimStart s in
  let '(sign, u) :=
    match t with
    | String "-" r => ((-1)%Z, r)
    | String "+" r => (1%Z, r)
    | _ => (1%Z, t)
    end in
  if startsWithDigit u then Some (sign * parseDigits u 0)%Z else None.

(** [a || b] on strings: the empty string is the only falsy string. *)
Definition orElse (a b : string) : string :=
  if bool_decide (a = EmptyString) then b else a.

(** [v < m] where [v] may be [NaN]: every comparison with [NaN] is false. *)
Definition lt (v : option Z) (m : Z) : bool :=
  match v with
  | Some x => (x <? m)%Z
  | None => false
  end.

(** [Number.isSafeInteger(z)]: the integers that a JavaScript number holds
    exactly.  On these [toString], [parseInt] and the comparison above are
    those of JavaScript; above 2^53 JavaScript rounds what [parseInt]
    reads, and from 10^21 on [String] prints an exponent. *)
Definition safeInteger (z : Z) : Prop :=
  (- (2 ^ 53 - 1) ≤ z ≤ 2 ^ 53 - 1)%Z.

End Js.

(** ** The page: a store of DOM nodes *)

Abbreviation nid := nat.   (* node identifier: index in the store *)
Abbreviation cid := nat.   (* identifier of a control's closure environment *)

(** Listeners are the four closures the source registers; each records the
    variables it captures. *)
Inductive listener :=
| OnMouseEnter (k : cid) (i : Z)                  (* () => updateVisual(i) *)
| OnMouseLeave (k : cid)                          (* () => updateVisual(selectedValue) *)
| OnClick (k : cid) (container : nid) (i : Z)     (* the click listener of icon i *)
| OnEnforce (input : nid) (minValue : Z).         (* enforce, of enforceMinStar *)

Record event := Event { ev_type : string; ev_bubbles : bool }.

(** An element.  [tagName] holds the lower-case local name.  [props] holds
    the reflected properties the source writes ([value], [src], [alt],
    [innerText]); [dispatched] logs the events handed to [dispatchEvent]. *)
Record node := Node {
  tagName : string;
  classList : list string;
  attrs : gmap string string;
  props : gmap string string;
  style : gmap string string;
  parentNode : option nid;
  childNodes : list nid;
  listeners : list (string * listener);
  dispatched : list event
}.

Definition set_classList (v : list string) (n : node) : node :=
  Node (tagName n) v (attrs n) (props n) (style n) (parentNode n)
       (childNodes n) (listeners n) (dispatched n).
Definition set_attrs (v : gmap string string) (n : node) : node :=
  Node (tagName n) (classList n) v (props n) (style n) (parentNode n)
       (childNodes n) (listeners n) (dispatched n).
Definition set_props (v : gmap string string) (n : node) : node :=
  Node (tagName n) (classList n) (attrs n) v (style n) (parentNode n)
       (childNodes n) (listeners n) (dispatched n).
Definition set_style (v : gmap string string) (n : node) : node :=
  Node (tagName n) (classList n) (attrs n) (props n) v (parentNode n)
       (childNodes n) (listeners n) (dispatched n).
Definition set_parentNode (v : option nid) (n : node) : node :=
  Node (tagName n) (classList n) (attrs n) (props n) (style n) v
       (childNodes n) (listeners n) (dispatched n).
Definition set_childNodes (v : list nid) (n : node) : node :=
  Node (tagName n) (classList n) (attrs n) (props n) (style n) (parentNode n)
       v (listeners n) (dispatched n).
Definition set_listeners (v : list (string * listener)) (n : node) : node :=
  Node (tagName n) (classList n) (attrs n) (props n) (style n) (parentNode n)
       (childNodes n) v (dispatched n).
Definition set_dispatched (v : list event) (n : node) : node :=
  Node (tagName n) (classList n) (attrs n) (props n) (style n) (parentNode n)
       (childNodes n) (listeners n) v.

Abbreviation dom := (list node).

Module Dom.

(** [document.createElement(tag)]: a fresh, detached element. *)
Definition blank (tag : string) : node :=
  Node tag [] ∅ ∅ ∅ None [] [] [].
Definition createElement (tag : string) (d : dom) : dom * nid :=
  (d ++ [blank tag], length d).

Definition getAttribute (d : dom) (n : nid) (k : string) : option string :=
  d !! n ≫= λ nd, attrs nd !! k.
Definition setAttribute (n : nid) (k v : string) (d : dom) : dom :=
  alter (λ nd, set_attrs (<[k:=v]> (attrs nd)) nd) n d.

Definition getProp (d : dom) (n : nid) (k : string) : option string :=
  d !! n ≫= λ nd, props nd !! k.
Definition setProp (n : nid) (k v : string) (d : dom) : dom :=
  alter (λ nd, set_props (<[k:=v]> (props nd)) nd) n d.

(** [el.style.k = v] and [el.style.k]: the style holds, for each property
    the script has assigned, the text of the last assignment.  For the
    texts that a browser keeps as they are written (module [Css] below
    names the kinds met here) this is what it gives back; an absent
    property, like an empty text, reads as the empty string. *)
Definition getStyle (d : dom) (n : nid) (k : string) : option string :=
  d !! n ≫= λ nd, style nd !! k.
Definition setStyle (n : nid) (k v : string) (d : dom) : dom :=
  alter (λ nd, set_style (<[k:=v]> (style nd)) nd) n d.

(** [el.className = c] for a single class name. *)
Definition setClassName (n : nid) (c : string) (d : dom) : dom :=
  alter (set_classList [c]) n d.
(** [el.classList.contains(c)]. *)
Definition hasClass (d : dom) (n : nid) (c : string) : bool :=
  match d !! n with
  | Some nd => bool_decide (c ∈ classList nd)
  | None => false
  end.

Definition addEventListener (n : nid) (type : string) (l : listener) (d : dom) : dom :=
  alter (λ nd, set_listeners (listeners nd ++ [(type, l)]) nd) n d.
Definition dispatchEvent (n : nid) (e : event) (d : dom) : dom :=
  alter (λ nd, set_dispatched (dispatched nd ++ [e]) nd) n d.

Definition parentOf (d : dom) (n : nid) : option nid :=
  d !! n ≫= parentNode.
Definition childrenOf (d : dom) (n : nid) : list nid :=
  default [] (childNodes <$> d !! n).

Definition without (c : nid) (l : list nid) : list nid :=
  filter (λ x, x ≠ c) l.

(** Unlink [c] from its parent, if it has one. *)
Definition detach (c : nid) (d : dom) : dom :=
  match parentOf d c with
  | Some p =>
      alter (set_parentNode None) c
        (alter (λ nd, set_childNodes (without c (childNodes nd)) nd) p d)
  | None => d
  end.

(** [p.removeChild(c)]. *)
Definition removeChild (p c : nid) (d : dom) : dom :=
  alter (set_parentNode None) c
    (alter (λ nd, set_childNodes (without c (childNodes nd)) nd) p d).

(** [p.appendChild(c)]: [c] leaves its former parent and becomes the last
    child of [p]. *)
Definition appendChild (p c : nid) (d : dom) : dom :=
  alter (set_parentNode (Some p)) c
    (alter (λ nd, set_childNodes (childNodes nd ++ [c]) nd) p (detach c d)).

Fixpoint putBefore (ref new : nid) (l : list nid) : list nid :=
  match l with
  | [] => [new]
  | x :: r => if decide (x = ref) then new :: x :: r else x :: putBefore ref new r
  end.

(** [p.insertBefore(new, ref)], [ref] being a child of [p]. *)
Definition insertBefore (p new ref : nid) (d : dom) : dom :=
  alter (set_parentNode (Some p)) new
    (alter (λ nd, set_childNodes (putBefore ref new (childNodes nd)) nd) p
       (detach new d)).

(** [el.innerHTML = '']: every child is unlinked. *)
Definition clearChildren (n : nid) (d : dom) : dom :=
  alter (set_childNodes []) n
    (foldr (λ c acc, alter (set_parentNode None) c acc) d (childrenOf d n)).

(** Selectors used by the source: [.c], [t] and [t.c]. *)
Inductive selector :=
| ByClass (c : string)
| ByTag (t : string)
| ByTagClass (t c : string).

Definition matchesNode (sel : selector) (nd : node) : bool :=
  match sel with
  | ByClass c => bool_decide (c ∈ classList nd)
  | ByTag t => bool_decide (tagName nd = t)
  | ByTagClass t c => bool_decide (tagName nd = t) && bool_decide (c ∈ classList nd)
  end.
Definition matches (d : dom) (sel : selector) (n : nid) : bool :=
  match d !! n with
  | Some nd => matchesNode sel nd
  | None => false
  end.

(** The proper descendants of [n] in document order, down to [depth]
    levels. *)
Fixpoint descendants (depth : nat) (d : dom) (n : nid) : list nid :=
  match depth with
  | O => []
  | S k => childrenOf d n ≫= λ c, c :: descendants k d c
  end.

Definition querySelectorAll (depth : nat) (d : dom) (n : nid) (sel : selector)
  : list nid :=
  filter (λ x, matches d sel x) (descendants depth d n).
Definition querySelector (depth : nat) (d : dom) (n : nid) (sel : selector)
  : option nid :=
  head (querySelectorAll depth d n sel).

(** [el.closest(tag)]: the nearest inclusive ancestor with that tag. *)
Fixpoint closest (depth : nat) (d : dom) (n : nid) (tag : string) : option nid :=
  match depth with
  | O => None
  | S k =>
      if matches d (ByTag tag) n then Some n
      else match parentOf d n with
           | Some p => closest k d p tag
           | None => None
           end
  end.

(** [document.getElementById(s)]: the first element of the document, in
    tree order, whose [id] is [s]; [root] is the root element of the
    document ([document.documentElement]), itself the first in that order. *)
Definition getElementById (depth : nat) (d : dom) (root : nid) (s : string)
  : option nid :=
  head (filter (λ x, getAttribute d x "id" = Some s)
          (root :: descendants depth d root)).

(** The proper ancestors of [n], nearest first.  The walk is bounded by the
    number of nodes of the page, which no chain of parents exceeds in a
    tree. *)
Fixpoint ancestorsUpTo (fuel : nat) (d : dom) (n : nid) : list nid :=
  match fuel with
  | O => []
  | S k =>
      match parentOf d n with
      | Some p => p :: ancestorsUpTo k d p
      | None => []
      end
  end.
Definition ancestors (d : dom) (n : nid) : list nid :=
  ancestorsUpTo (length d) d n.

(** The listeners registered on [n] for the events of one type, in the
    order of their registration. *)
Definition listenersOf (d : dom) (n : nid) (type : string) : list listener :=
  snd <$> filter (λ tl, fst tl = type) (default [] (listeners <$> d !! n)).

End Dom.

(** ** Closures, arguments and the state of the script *)

(** The variables shared by the listeners of one control:
    [var stars = []; var selectedValue = 0;]. *)
Record control := Control { stars : list nid; selectedValue : Z }.

(** What [_getQuestionContainer] returns when it is not [null]: an element,
    or some other value with a truthy [nodeType] (it has no
    [querySelectorAll]). *)
Inductive qref := QElem (n : nid) | QNodeLike.

(** The [questionIdOrElem] argument, by the branches of
    [_getQuestionContainer]. *)
Inductive rootRef :=
| RefFalsy                   (* undefined, null, 0, NaN, false *)
| RefString (s : string)
| RefElement (n : nid)
| RefNodeLike                (* truthy nodeType, not an element *)
| RefOther.                  (* any other truthy value *)

(** The [options] argument: [undefined], [null], or a value whose
    properties can be read. *)
Inductive arg (A : Type) := ArgUndefined | ArgNull | ArgObject (a : A).
Arguments ArgUndefined {A}.
Arguments ArgNull {A}.
Arguments ArgObject {A} a.

(** Properties of the option objects; [None] is a property that is absent,
    [undefined] or [null] (for the label texts: not a string). *)
Record spacingOptions := SpacingOptions {
  opt_spacing : option Z; opt_starSize : option Z; opt_numStars : option Z }.
Record colorOptions := ColorOptions { opt_colors : option (list string) }.
Record labelOptions := LabelOptions {
  opt_leftText : option string; opt_rightText : option string }.

Record buildOpts := BuildOpts {
  spacing : Z; starSize : Z; numStars : Z; starIcon : option string }.

(** The callbacks handed to [setTimeout], with the variables they capture. *)
Inductive task :=
| SpacingTask (q : qref) (spacing starSize numStars : Z)
| ColorTask (q : qref) (colors : list string)
| LabelsTask (q : qref) (leftText rightText : string)
| EnforceTask (q : qref) (minValue : Z).

(** The state of the page and of the script: the nodes, the closure
    environments of the controls, the default icon, the root element of the
    document (the element tagged [html]) and the timers that were set and
    have not fired, in the order in which they were set, each with its
    delay in milliseconds. *)
Record world := World {
  page : dom;
  ctrls : list control;
  defaultStarIcon : string;
  documentElement : nid;
  timers : list (Z * task)
}.

Definition set_page (d : dom) (w : world) : world :=
  World d (ctrls w) (defaultStarIcon w) (documentElement w) (timers w).
Definition set_ctrls (c : list control) (w : world) : world :=
  World (page w) c (defaultStarIcon w) (documentElement w) (timers w).
Definition set_defaultStarIcon (s : string) (w : world) : world :=
  World (page w) (ctrls w) s (documentElement w) (timers w).
Definition setTimeout (t : task) (delay : Z) (w : world) : world :=
  World (page w) (ctrls w) (defaultStarIcon w) (documentElement w)
        (timers w ++ [(delay, t)]).
Definition set_timers (ts : list (Z * task)) (w : world) : world :=
  World (page w) (ctrls w) (defaultStarIcon w) (documentElement w) ts.

(** How a call ends: it returns, or a [TypeError] propagates to the caller. *)
Inductive completion (A : Type) := Normal (a : A) | TypeError.
Arguments Normal {A} a.
Arguments TypeError {A}.

(** What [_buildCustomStarsForContainer] returns. *)
Inductive built :=
| BuiltNull
| BuiltAlready (container : nid)
| BuiltControl (wrapper : nid) (k : cid).

Definition px (z : Z) : string := Js.toString z +:+ "px".

(** Values that the [style] object of an element keeps exactly as the
    script writes them.  Other texts it may drop (a negative padding or
    width, a text that is no colour, [undefined]) or rewrite (a hexadecimal
    colour is given back as [rgb(...)], a large length with an exponent);
    the page stores the text written, so that what is said of a value read
    back is said for values of these kinds. *)
Module Css.

(** Colour keywords, in lower case. *)
Definition colorKeywords : list string :=
  ["black"; "silver"; "gray"; "white"; "maroon"; "red"; "purple"; "fuchsia";
   "green"; "lime"; "olive"; "yellow"; "navy"; "blue"; "teal"; "aqua";
   "orange"; "gold"].
Definition color (c : string) : Prop := c ∈ colorKeywords.

(** A length in whole pixels that is not negative and has at most six
    digits. *)
Definition pixels (z : Z) : Prop := 0 ≤ z < 1000000.

End Css.

Definition twemojiStar : string :=
  "https://cdn.jsdelivr.net/gh/twitter/twemoji@14.0.2/assets/svg/2b50.svg".
Definition defaultColors : list string :=
  ["#ff6666"; "#ff9a4d"; "#ffd166"; "#8be28b"; "#66c2ff"].

(** ** The functions of StarUtils.js *)

Section StarUtils.

(** Bound on the depth of tree traversals ([querySelectorAll], [closest]);
    every result below holds for every bound. *)
Variable depth : nat.

Definition _getQuestionContainer (w : world) (r : rootRef) : option qref :=
  match r with
  | RefFalsy => None
  | RefString s =>
      if bool_decide (s = EmptyString) then None
      else QElem <$> Dom.getElementById depth (page w) (documentElement w) s
  | RefElement n => Some (QElem n)
  | RefNodeLike => Some QNodeLike
  | RefOther => None
  end.

(** [_qsAll]: a lookup that throws yields no matches. *)
Definition _qsAll (d : dom) (q : qref) (sel : Dom.selector) : list nid :=
  match q with
  | QElem n => Dom.querySelectorAll depth d n sel
  | QNodeLike => []
  end.

Definition refOf (q : qref) : rootRef :=
  match q with
  | QElem n => RefElement n
  | QNodeLike => RefNodeLike
  end.

(** *** removeNativeStars *)

Definition nativeParts : list Dom.selector :=
  [Dom.ByClass "StarTrack"; Dom.ByClass "Filled";
   Dom.ByClass "StarsEventWatcher"; Dom.ByClass "handle"].

Definition removeNativePart (c : nid) (d : dom) (sel : Dom.selector) : dom :=
  match Dom.querySelector depth d c sel with
  | Some el =>
      match Dom.parentOf d el with
      | Some p => Dom.removeChild p el d
      | None => d
      end
  | None => d
  end.

Definition stripContainer (d : dom) (c : nid) : dom :=
  let d := foldl (removeNativePart c) d nativeParts in
  let d := Dom.clearChildren c d in
  Dom.setStyle c "background" "none" d.

Definition removeNativeStars (r : rootRef) (w : world) : world :=
  match _getQuestionContainer w r with
  | None => w
  | Some q =>
      let containers := _qsAll (page w) q (Dom.ByClass "StarsContainer") in
      set_page (foldl stripContainer (page w) containers) w
  end.

(** *** _buildCustomStarsForContainer *)

(** [stars.forEach((s, idx) => s.style.opacity = (idx < v) ? '1' : '0.35')] *)
Fixpoint paint (ss : list nid) (idx : nat) (v : Z) (d : dom) : dom :=
  match ss with
  | [] => d
  | s :: r =>
      paint r (S idx) v
        (Dom.setStyle s "opacity" (if Z.of_nat idx <? v then "1" else "0.35") d)
  end.

Definition updateVisual (k : cid) (v : Z) (w : world) : world :=
  match ctrls w !! k with
  | Some c => set_page (paint (stars c) O v (page w)) w
  | None => w
  end.

Definition selectedOf (w : world) (k : cid) : Z :=
  default 0 (selectedValue <$> ctrls w !! k).
Definition setSelectedValue (k : cid) (v : Z) (w : world) : world :=
  set_ctrls (alter (λ c, Control (stars c) v) k (ctrls w)) w.
Definition pushStar (k : cid) (img : nid) (w : world) : world :=
  set_ctrls (alter (λ c, Control (stars c ++ [img]) (selectedValue c)) k (ctrls w)) w.

(** One turn of the loop [for (let i = 1; i <= numStars; i++)]. *)
Definition buildStar (k : cid) (wrapper container : nid) (icon : string)
    (size : Z) (i : Z) (w : world) : world :=
  let '(d, img) := Dom.createElement "img" (page w) in
  let d := Dom.setProp img "src" icon d in
  let d := Dom.setProp img "alt" (Js.toString i +:+ " estrellas") d in
  let d := Dom.setClassName img "starutils-star" d in
  let d := Dom.setStyle img "width" (px size) d in
  let d := Dom.setStyle img "height" (px size) d in
  let d := Dom.setStyle img "cursor" "pointer" d in
  let d := Dom.setStyle img "opacity" "0.35" d in
  let d := Dom.setStyle img "transition" "opacity 0.15s ease" d in
  let d := Dom.setAttribute img "data-value" (Js.toString i) d in
  let d := Dom.addEventListener img "mouseenter" (OnMouseEnter k i) d in
  let d := Dom.addEventListener img "mouseleave" (OnMouseLeave k) d in
  let d := Dom.addEventListener img "click" (OnClick k container i) d in
  let d := Dom.appendChild wrapper img d in
  pushStar k img (set_page d w).

Fixpoint buildStars (turns : nat) (k : cid) (wrapper container : nid)
    (icon : string) (size : Z) (i : Z) (w : world) : world :=
  match turns with
  | O => w
  | S t =>
      buildStars t k wrapper container icon size (i + 1)
        (buildStar k wrapper container icon size i w)
  end.

Definition _buildCustomStarsForContainer (container : option nid)
    (opts : buildOpts) (w : world) : world * built :=
  let icon :=
    match starIcon opts with
    | Some u => Js.orElse u (defaultStarIcon w)
    | None => defaultStarIcon w
    end in
  match container with
  | None => (w, BuiltNull)
  | Some c =>
      if bool_decide (Dom.getAttribute (page w) c "data-starutils-built" = Some "1")
      then (w, BuiltAlready c)
      else
        let d := Dom.setAttribute c "data-starutils-built" "1" (page w) in
        let '(d, wrapper) := Dom.createElement "div" d in
        let d := Dom.setClassName wrapper "starutils-wrapper" d in
        let d := Dom.setStyle wrapper "display" "inline-flex" d in
        let d := Dom.setStyle wrapper "alignItems" "center" d in
        let d := Dom.setStyle wrapper "justifyContent" "flex-start" d in
        let d := Dom.setStyle wrapper "gap" (px (spacing opts)) d in
        let d := Dom.setStyle wrapper "height" (px (starSize opts)) d in
        let d := Dom.setStyle wrapper "pointerEvents" "auto" d in
        let k := length (ctrls w) in
        let w := set_ctrls (ctrls w ++ [Control [] 0]) (set_page d w) in
        let w := buildStars (Z.to_nat (numStars opts)) k wrapper c icon
                   (starSize opts) 1 w in
        let w := set_page (Dom.appendChild c wrapper (page w)) w in
        (w, BuiltControl wrapper k)
  end.

(** *** The listeners *)

Definition onClick (k : cid) (container : nid) (i : Z) (w : world) : world :=
  let w := setSelectedValue k i w in
  let w :=
    match Dom.closest depth (page w) container "tr" with
    | Some tr =>
        match Dom.querySelector depth (page w) tr (Dom.ByClass "ResultsInput") with
        | Some input =>
            let d := Dom.setProp input "value" (Js.toString (selectedOf w k)) (page w) in
            let d := Dom.dispatchEvent input (Event "input" true) d in
            let d := Dom.dispatchEvent input (Event "change" true) d in
            set_page d w
        | None => w
        end
    | None => w
    end in
  updateVisual k (selectedOf w k) w.

(** [enforce], the closure of [enforceMinStar]. *)
Definition enforce (input : nid) (minValue : Z) (w : world) : world :=
  let value := default EmptyString (Dom.getProp (page w) input "value") in
  let v := Js.parseInt (Js.orElse value "0") in
  if Js.lt v minValue
  then set_page (Dom.setProp input "value" (Js.toString minValue) (page w)) w
  else w.

Definition fire (l : listener) (w : world) : world :=
  match l with
  | OnMouseEnter k i => updateVisual k i w
  | OnMouseLeave k => updateVisual k (selectedOf w k) w
  | OnClick k container i => onClick k container i w
  | OnEnforce input m => enforce input m w
  end.

(** A user's click on [target], and any other bubbling event of the given
    type: the browser fixes the path, the target followed by its ancestors,
    and on each node of the path in turn runs the listeners that the node
    then has for the type, in the order of their registration.  The script
    registers no capturing listener and never stops the propagation. *)
Definition runListeners (type : string) (w : world) (n : nid) : world :=
  foldl (λ w l, fire l w) w (Dom.listenersOf (page w) n type).
Definition dispatchBubbling (type : string) (target : nid) (w : world) : world :=
  foldl (runListeners type) w (target :: Dom.ancestors (page w) target).
Definition click (target : nid) (w : world) : world :=
  dispatchBubbling "click" target w.

(** [setSelected], returned with the control. *)
Definition setSelected (k : cid) (v : Z) (w : world) : world :=
  updateVisual k v (setSelectedValue k v w).

(** *** applySpacing *)

Definition spaceContainer (spacing starSize numStars : Z) (w : world) (c : nid)
  : world :=
  let d := Dom.clearChildren c (page w) in
  let d := Dom.setStyle c "display" "inline-block" d in
  let d := Dom.setStyle c "verticalAlign" "middle" d in
  let w := fst (_buildCustomStarsForContainer (Some c)
                  (BuildOpts spacing starSize numStars None) (set_page d w)) in
  let totalWidth := numStars * starSize + (numStars - 1) * spacing in
  match Dom.closest depth (page w) c "tr" with
  | Some tr =>
      let d := page w in
      let d :=
        match Dom.querySelector depth d tr (Dom.ByTagClass "td" "value") with
        | Some resultTd => Dom.setStyle resultTd "paddingLeft" (px (totalWidth - 60)) d
        | None => d
        end in
      let controlTd :=
        match Dom.querySelector depth d tr (Dom.ByTagClass "td" "control") with
        | Some td => Some td
        | None => Dom.querySelector depth d tr (Dom.ByTagClass "td" "BarOuter")
        end in
      match controlTd with
      | Some td =>
          let d := Dom.setStyle td "minWidth" (px totalWidth) d in
          set_page (Dom.setStyle td "whiteSpace" "nowrap" d) w
      | None => set_page d w
      end
  | None => w
  end.

Definition spacingCallback (q : qref) (spacing starSize numStars : Z) (w : world)
  : world :=
  let w := removeNativeStars (refOf q) w in
  let containers := _qsAll (page w) q (Dom.ByClass "StarsContainer") in
  foldl (spaceContainer spacing starSize numStars) w containers.

Definition applySpacing (r : rootRef) (options : arg spacingOptions) (w : world)
  : completion world :=
  match options with
  | ArgUndefined | ArgNull => TypeError        (* options.spacing *)
  | ArgObject o =>
      let spacing := default 20 (opt_spacing o) in
      let starSize := default 30 (opt_starSize o) in
      let numStars := default 5 (opt_numStars o) in
      match _getQuestionContainer w r with
      | None => Normal w
      | Some q => Normal (setTimeout (SpacingTask q spacing starSize numStars) 300 w)
      end
  end.

(** *** applyColorGradient *)

(** [a[i]] for an integer [i]: [undefined] outside the array. *)
Definition jsIndex (a : list string) (i : Z) : option string :=
  if i <? 0 then None else a !! Z.to_nat i.

(** [colors[idx] || colors[colors.length - 1]]; [None] is [undefined]. *)
Definition pickColor (colors : list string) (idx : nat) : option string :=
  match jsIndex colors (Z.of_nat idx) with
  | Some c =>
      if bool_decide (c = EmptyString) then jsIndex colors (Z.of_nat (length colors) - 1)
      else Some c
  | None => jsIndex colors (Z.of_nat (length colors) - 1)
  end.

(** The string a template literal or a style setter makes of the color. *)
Definition colorText (c : option string) : string := default "undefined" c.

Fixpoint colorImgs (colors : list string) (imgs : list nid) (idx : nat) (d : dom)
  : dom :=
  match imgs with
  | [] => d
  | img :: r =>
      let color := colorText (pickColor colors idx) in
      let d := Dom.setStyle img "backgroundColor" color d in
      let d := Dom.setStyle img "boxShadow" ("0 0 0 2px " +:+ color +:+ " inset") d in
      colorImgs colors r (S idx) d
  end.

Definition colorCallback (q : qref) (colors : list string) (w : world) : world :=
  match q with
  | QElem n =>
      let imgs := Dom.querySelectorAll depth (page w) n
                    (Dom.ByTagClass "img" "starutils-star") in
      set_page (colorImgs colors imgs O (page w)) w
  | QNodeLike => w          (* q.querySelectorAll is not a function *)
  end.

Definition applyColorGradient (r : rootRef) (options : arg colorOptions) (w : world)
  : completion world :=
  match options with
  | ArgUndefined | ArgNull => TypeError        (* options.colors *)
  | ArgObject o =>
      let colors := default defaultColors (opt_colors o) in
      match _getQuestionContainer w r with
      | None => Normal w
      | Some q => Normal (setTimeout (ColorTask q colors) 200 w)
      end
  end.

(** *** addLabels *)

(** The body of the loop for one [starsWrapper] whose parent is [parent]. *)
Definition wrapWithLabels (leftText rightText : string) (parent starsWrapper : nid)
    (d : dom) : dom :=
  let '(d, flexWrap) := Dom.createElement "div" d in
  let d := Dom.setClassName flexWrap "star-flex-wrapper" d in
  let d := Dom.setStyle flexWrap "display" "flex" d in
  let d := Dom.setStyle flexWrap "alignItems" "center" d in
  let d := Dom.setStyle flexWrap "justifyContent" "center" d in
  let d := Dom.setStyle flexWrap "gap" "20px" d in
  let d := Dom.setStyle flexWrap "width" "100%" d in
  let d := Dom.setStyle flexWrap "margin" "8px 0" d in
  let '(d, leftLabel) := Dom.createElement "span" d in
  let d := Dom.setClassName leftLabel "star-label-left" d in
  let d := Dom.setStyle leftLabel "width" "120px" d in
  let d := Dom.setStyle leftLabel "textAlign" "right" d in
  let d := Dom.setStyle leftLabel "whiteSpace" "nowrap" d in
  let d := Dom.setProp leftLabel "innerText" leftText d in
  let '(d, rightLabel) := Dom.createElement "span" d in
  let d := Dom.setClassName rightLabel "star-label-right" d in
  let d := Dom.setStyle rightLabel "width" "120px" d in
  let d := Dom.setStyle rightLabel "textAlign" "left" d in
  let d := Dom.setStyle rightLabel "whiteSpace" "nowrap" d in
  let d := Dom.setProp rightLabel "innerText" rightText d in
  let d := Dom.insertBefore parent flexWrap starsWrapper d in
  let d := Dom.appendChild flexWrap leftLabel d in
  let d := Dom.appendChild flexWrap starsWrapper d in
  Dom.appendChild flexWrap rightLabel d.

(** [for (var i = 0; i < wrappers.length; i++)].  A wrapper without a
    parent makes [starsWrapper.parentNode.classList] throw, which ends the
    callback. *)
Fixpoint labelWrappers (leftText rightText : string) (wrappers : list nid)
    (d : dom) : dom :=
  match wrappers with
  | [] => d
  | starsWrapper :: rest =>
      match Dom.parentOf d starsWrapper with
      | None => d
      | Some parent =>
          if Dom.hasClass d parent "star-flex-wrapper"
          then labelWrappers leftText rightText rest d
          else labelWrappers leftText rightText rest
                 (wrapWithLabels leftText rightText parent starsWrapper d)
      end
  end.

Definition labelsCallback (q : qref) (leftText rightText : string) (w : world)
  : world :=
  let wrappers := _qsAll (page w) q (Dom.ByClass "starutils-wrapper") in
  set_page (labelWrappers leftText rightText wrappers (page w)) w.

Definition addLabels (r : rootRef) (options : arg labelOptions) (w : world)
  : completion world :=
  let opts :=
    match options with
    | ArgObject o => o
    | ArgUndefined | ArgNull => LabelOptions None None    (* options || {} *)
    end in
  let leftText := default "Muy insatisfecho" (opt_leftText opts) in
  let rightText := default "Muy satisfecho" (opt_rightText opts) in
  match _getQuestionContainer w r with
  | None => Normal w
  | Some q => Normal (setTimeout (LabelsTask q leftText rightText) 300 w)
  end.

(** *** enforceMinStar *)

Definition watchRow (minValue : Z) (d : dom) (tr : nid) : dom :=
  match Dom.querySelector depth d tr (Dom.ByClass "ResultsInput") with
  | None => d
  | Some input =>
      let d := Dom.addEventListener input "blur" (OnEnforce input minValue) d in
      match Dom.querySelector depth d tr (Dom.ByClass "StarsContainer") with
      | Some c => Dom.addEventListener c "click" (OnEnforce input minValue) d
      | None => d
      end
  end.

Definition enforceCallback (q : qref) (minValue : Z) (w : world) : world :=
  let rows := _qsAll (page w) q (Dom.ByTag "tr") in
  set_page (foldl (watchRow minValue) (page w) rows) w.

Definition enforceMinStar (r : rootRef) (minValue : option Z) (w : world)
  : completion world :=
  let minValue := default 1 minValue in
  match _getQuestionContainer w r with
  | None => Normal w
  | Some q => Normal (setTimeout (EnforceTask q minValue) 300 w)
  end.

(** *** setStarIcon; [None] is [undefined] or [null]. *)
Definition setStarIcon (url : option string) (w : world) : world :=
  match url with
  | Some u => if bool_decide (u = EmptyString) then w else set_defaultStarIcon u w
  | None => w
  end.

(** Running a callback when its timer fires. *)
Definition runTask (t : task) (w : world) : world :=
  match t with
  | SpacingTask q spacing starSize numStars =>
      spacingCallback q spacing starSize numStars w
  | ColorTask q colors => colorCallback q colors w
  | LabelsTask q leftText rightText => labelsCallback q leftText rightText w
  | EnforceTask q minValue => enforceCallback q minValue w
  end.

(** The timers set in one turn of the page's script fire by increasing
    delay and, for equal delays, in the order in which they were set:
    [insertTimer] puts a timer behind those that fire no later. *)
Fixpoint insertTimer (t : Z * task) (queue : list (Z * task)) : list (Z * task) :=
  match queue with
  | [] => [t]
  | x :: r => if fst t <? fst x then t :: x :: r else x :: insertTimer t r
  end.
Definition firingOrder (ts : list (Z * task)) : list (Z * task) :=
  foldl (λ queue t, insertTimer t queue) [] ts.

(** Letting every pending timer fire.  No callback of the script sets a
    timer, so the timers pending at the start are all there is to run. *)
Definition runTimers (w : world) : world :=
  foldl (λ w t, runTask (snd t) w) (set_timers [] w) (firingOrder (timers w)).

End StarUtils.

(** ** Vocabulary of the statements *)

(** The icon created by turn [i] of the loop, once appended to [wrapper]. *)
Definition starNode (k : cid) (wrapper container : nid) (icon : string)
    (size : Z) (i : Z) : node :=
  Node "img" ["starutils-star"]
    (<["data-value" := Js.toString i]> ∅)
    (<["alt" := Js.toString i +:+ " estrellas"]> (<["src" := icon]> ∅))
    (<["transition" := "opacity 0.15s ease"]>
       (<["opacity" := "0.35"]>
          (<["cursor" := "pointer"]>
             (<["height" := px size]> (<["width" := px size]> ∅)))))
    (Some wrapper) []
    [("mouseenter", OnMouseEnter k i); ("mouseleave", OnMouseLeave k);
     ("click", OnClick k container i)]
    [].

Fixpoint starNodes (turns : nat) (k : cid) (wrapper container : nid)
    (icon : string) (size : Z) (i : Z) : list node :=
  match turns with
  | O => []
  | S t => starNode k wrapper container icon size i
           :: starNodes t k wrapper container icon size (i + 1)
  end.

(** The wrapper of a control, once filled and appended to [container]. *)
Definition wrapperNode (container : nid) (opts : buildOpts) (icons : list nid) : node :=
  Node "div" ["starutils-wrapper"] ∅ ∅
    (<["pointerEvents" := "auto"]>
       (<["height" := px (starSize opts)]>
          (<["gap" := px (spacing opts)]>
             (<["justifyContent" := "flex-start"]>
                (<["alignItems" := "center"]>
                   (<["display" := "inline-flex"]> ∅))))))
    (Some container) icons [] [].

Definition iconOf (opts : buildOpts) (w : world) : string :=
  match starIcon opts with
  | Some u => Js.orElse u (defaultStarIcon w)
  | None => defaultStarIcon w
  end.

(** The visual state of the icon at 0-based position [idx] when the value
    shown is [v]: active (opaque) or dimmed. *)
Definition opacityAt (v : Z) (idx : nat) : string :=
  if Z.of_nat idx <? v then "1" else "0.35".

(** A control whose icons are distinct nodes of the page. *)
Definition controlOk (w : world) (k : cid) (icons : list nid) : Prop :=
  stars <$> ctrls w !! k = Some icons
  ∧ NoDup icons
  ∧ Forall (λ s, (s < length (page w))%nat) icons.





(** The tree shape the browser maintains: child lists and parent links
    agree, and no node is its own parent. *)
Definition wellFormed (d : dom) : Prop :=
  ∀ p c, (c ∈ Dom.childrenOf d p ↔ Dom.parentOf d c = Some p)
         ∧ (Dom.parentOf d c = Some p → p ≠ c).

(** A page with one question [QID1] holding one row: a rating region with
    the native track, and the native value field. *)
Definition el (tag : string) (cls : list string) (at_ : list (string * string))
    (par : option nid) (ch : list nid) : node :=
  Node tag cls (list_to_map at_) ∅ ∅ par ch [] [].

Definition samplePage : dom :=
  [ el "html" [] [] None [1%nat];
    el "div" [] [("id", "QID1")] (Some 0%nat) [2%nat];
    el "tr" [] [] (Some 1%nat) [3%nat; 6%nat];
    el "td" ["control"] [] (Some 2%nat) [4%nat];
    el "div" ["StarsContainer"] [] (Some 3%nat) [5%nat];
    el "div" ["StarTrack"] [] (Some 4%nat) [];
    el "td" ["value"] [] (Some 2%nat) [7%nat];
    el "input" ["ResultsInput"] [] (Some 6%nat) [] ].

Definition sampleWorld : world := World samplePage [] twemojiStar 0%nat [].

(** The sample page with [s] typed into the native value field. *)
Definition typed (s : string) : world :=
  set_page (Dom.setProp 7%nat "value" s samplePage) sampleWorld.

(** The sample page once the callback of [applySpacing] has run. *)
Definition builtWorld : world :=
  runTask 8 (SpacingTask (QElem 1%nat) 20 30 5) sampleWorld.

(** Updates of a node and of a control that the loop of
    [_buildCustomStarsForContainer] amounts to. *)
Definition addChildren (cs : list nid) (nd : node) : node :=
  set_childNodes (childNodes nd ++ cs) nd.
Definition pushIcons (cs : list nid) (c : control) : control :=
  Control (stars c ++ cs) (selectedValue c).

(** The state between the write-back and the repaint of [onClick]. *)
Definition writeBack (depth : nat) (k : cid) (container : nid) (w : world) : world :=
  match Dom.closest depth (page w) container "tr" with
  | Some tr =>
      match Dom.querySelector depth (page w) tr (Dom.ByClass "ResultsInput") with
      | Some input =>
          let d := Dom.setProp input "value" (Js.toString (selectedOf w k)) (page w) in
          let d := Dom.dispatchEvent input (Event "input" true) d in
          let d := Dom.dispatchEvent input (Event "change" true) d in
          set_page d w
      | None => w
      end
  | None => w
  end.

(** The number [parseInt] reads in the field [input]; [None] is [NaN]. *)
Definition fieldNumber (w : world) (input : nid) : option Z :=
  Js.parseInt (default EmptyString (Dom.getProp (page w) input "value")).

(** [v >= m] where [v] may be [NaN]. *)
Definition atLeast (v : option Z) (m : Z) : bool :=
  match v with
  | Some x => m <=? x
  | None => false
  end.

(** A node of the page that satisfies [P]. *)
Definition nodeSat (P : node → Prop) (d : dom) (c : nid) : Prop :=
  ∃ nd, d !! c = Some nd ∧ P nd.

(** A container that carries the marker of a finished construction, and one
    that moreover has no child. *)
Definition isMarked (nd : node) : Prop :=
  attrs nd !! "data-starutils-built" = Some "1".
Definition isSealed (nd : node) : Prop :=
  isMarked nd ∧ childNodes nd = [].

(** The nodes [wrapWithLabels] creates, as they are when it ends. *)
Definition flexNode (parent : nid) (kids : list nid) : node :=
  Node "div" ["star-flex-wrapper"] ∅ ∅
    (<["margin" := "8px 0"]>
       (<["width" := "100%"]>
          (<["gap" := "20px"]>
             (<["justifyContent" := "center"]>
                (<["alignItems" := "center"]> (<["display" := "flex"]> ∅))))))
    (Some parent) kids [] [].

Definition labelNode (cls align text : string) (flexWrap : nid) : node :=
  Node "span" [cls] ∅ (<["innerText" := text]> ∅)
    (<["whiteSpace" := "nowrap"]>
       (<["textAlign" := align]> (<["width" := "120px"]> ∅)))
    (Some flexWrap) [] [] [].

(** The children of the parent of a wrapper once the flex wrapper [new] has
    taken the place of the wrapper [old]. *)
Definition replaced (old new : nid) (l : list nid) : list nid :=
  Dom.without old (Dom.putBefore old new l).



(** A check of [wellFormed] on the nodes of the page. *)
Definition wellFormedb (d : dom) : bool :=
  forallb (λ p,
    forallb (λ c, bool_decide (c < length d)%nat) (Dom.childrenOf d p)
    && match Dom.parentOf d p with
       | Some q => bool_decide (q < length d)%nat && bool_decide (q ≠ p)
       | None => true
       end
    && forallb (λ c,
         bool_decide (bool_decide (c ∈ Dom.childrenOf d p)
                      = bool_decide (Dom.parentOf d c = Some p)))
         (seq 0 (length d)))
    (seq 0 (length d)).

(** ** Tactics *)

(** Compute a node built by successive setters. *)
Ltac node_norm :=
  unfold set_classList, set_attrs, set_props, set_style, set_parentNode,
    set_childNodes, set_listeners, set_dispatched, Dom.blank;
  cbn [tagName classList attrs props style parentNode childNodes listeners
       dispatched].

(** Settle a closed goal by evaluation. *)
Ltac by_eval :=
  first [ vm_compute; reflexivity
        | apply (bool_decide_unpack _); vm_compute; exact I
        | lia ].

(** ** Vocabulary of the further properties *)

(** [nd'] is [nd] but for its properties, its style, its listeners. *)
Definition sameButProps (nd nd' : node) : Prop := nd' = set_props (props nd') nd.
Definition sameButStyle (nd nd' : node) : Prop := nd' = set_style (style nd') nd.
Definition sameButListeners (nd nd' : node) : Prop :=
  nd' = set_listeners (listeners nd') nd.

(** [nd'] has the tag, classes, attributes, parent and children of [nd]:
    everything a selector, [closest] or [getElementById] looks at. *)
Definition sameShape (nd nd' : node) : Prop :=
  tagName nd' = tagName nd ∧ classList nd' = classList nd ∧ attrs nd' = attrs nd
  ∧ parentNode nd' = parentNode nd ∧ childNodes nd' = childNodes nd.

(** [nd'] is [nd] with listeners registered after those it had. *)
Definition listenersGrow (nd nd' : node) : Prop :=
  sameButListeners nd nd' ∧ listeners nd `prefix_of` listeners nd'.


(** [nd'] has the tag, classes, attributes, properties, listeners and
    dispatched events of [nd]; its place in the tree and its style may
    differ. *)
Definition sameContent (nd nd' : node) : Prop :=
  tagName nd' = tagName nd ∧ classList nd' = classList nd ∧ attrs nd' = attrs nd
  ∧ props nd' = props nd ∧ listeners nd' = listeners nd
  ∧ dispatched nd' = dispatched nd.

(** A container as [removeNativeStars] leaves it. *)
Definition isEmptied (nd : node) : Prop :=
  childNodes nd = [] ∧ style nd !! "background" = Some "none".

(** The state of [spaceContainer] between the construction and the
    reservation of the width. *)
Definition rebuilt (spacing starSize numStars : Z) (w : world) (c : nid) : world :=
  fst (_buildCustomStarsForContainer (Some c)
         (BuildOpts spacing starSize numStars None)
         (set_page
            (Dom.setStyle c "verticalAlign" "middle"
               (Dom.setStyle c "display" "inline-block"
                  (Dom.clearChildren c (page w)))) w)).

(** [numStars * starSize + (numStars - 1) * spacing] *)
Definition totalWidth (spacing starSize numStars : Z) : Z :=
  numStars * starSize + (numStars - 1) * spacing.

(** What the turn of the loop of [applySpacing] for another container
    leaves of a node: all but its parent link and its layout style. *)
Definition keptByOthers (nd nd' : node) : Prop :=
  sameContent nd nd' ∧ childNodes nd' = childNodes nd
  ∧ style nd' !! "opacity" = style nd !! "opacity".

(** The container [c] holds a constructed control: it carries the marker,
    its only child is the wrapper, the children of the wrapper are the
    icons of the control [k], all dimmed, and nothing is selected. *)
Definition builtAt (w : world) (c wrapper : nid) (k : cid) (icons : list nid) : Prop :=
  Dom.getAttribute (page w) c "data-starutils-built" = Some "1"
  ∧ Dom.childrenOf (page w) c = [wrapper]
  ∧ Dom.matches (page w) (Dom.ByTagClass "div" "starutils-wrapper") wrapper = true
  ∧ Dom.childrenOf (page w) wrapper = icons
  ∧ controlOk w k icons
  ∧ selectedOf w k = 0
  ∧ ∀ s, s ∈ icons →
         Dom.matches (page w) (Dom.ByTagClass "img" "starutils-star") s = true
         ∧ Dom.getStyle (page w) s "opacity" = Some "0.35".

(** What a call of an operation leaves behind: nothing, or one more timer
    of the given delay. *)
Definition schedules (delay : Z) (w w' : world) : Prop :=
  w' = w ∨ ∃ t, w' = setTimeout t delay w.

(** [x] is a proper descendant of [n], at any depth. *)
Definition below (d : dom) (n x : nid) : Prop :=
  ∃ k, x ∈ Dom.descendants k d n.

(** Every child link of [d] is a child link of [d0]. *)
Definition fewerLinks (d0 d : dom) : Prop :=
  ∀ p y, y ∈ Dom.childrenOf d p → y ∈ Dom.childrenOf d0 p.


(** A page with one question [QID1] of two rows, each with a rating region
    and a native value field, and that page once the callback of
    [applySpacing] has built three icons in each row (wrapper 12 with the
    icons 13 to 15, wrapper 16 with the icons 17 to 19). *)
Definition twoRowPage : dom :=
  [ el "html" [] [] None [1%nat];
    el "div" [] [("id", "QID1")] (Some 0%nat) [2%nat; 7%nat];
    el "tr" [] [] (Some 1%nat) [3%nat; 5%nat];
    el "td" ["control"] [] (Some 2%nat) [4%nat];
    el "div" ["StarsContainer"] [] (Some 3%nat) [];
    el "td" ["value"] [] (Some 2%nat) [6%nat];
    el "input" ["ResultsInput"] [] (Some 5%nat) [];
    el "tr" [] [] (Some 1%nat) [8%nat; 10%nat];
    el "td" ["control"] [] (Some 7%nat) [9%nat];
    el "div" ["StarsContainer"] [] (Some 8%nat) [];
    el "td" ["value"] [] (Some 7%nat) [11%nat];
    el "input" ["ResultsInput"] [] (Some 10%nat) [] ].
Definition twoRowWorld : world :=
  runTask 8 (SpacingTask (QElem 1%nat) 20 30 3) (World twoRowPage [] twemojiStar 0%nat []).

(** * Properties *)

(** ** Numbers and strings *)

Lemma parseDigits_uint (d : Decimal.uint) (acc : Z) :
  Js.parseDigits (NilEmpty.string_of_uint d) acc
  = Z.of_N (DecimalPos.Unsigned.of_lu (Decimal.rev d)) + acc * 10 ^ Z.of_N (DecimalPos.Unsigned.usize d).
Proof.
  revert acc.
  induction d as [|d IH|d IH|d IH|d IH|d IH|d IH|d IH|d IH|d IH|d IH]; intros acc;
    [ simpl; lia | .. ];
    cbn [NilEmpty.string_of_uint Js.parseDigits];
    change (Js.digitValue _) with (Some 0) || change (Js.digitValue _) with (Some 1)
    || change (Js.digitValue _) with (Some 2) || change (Js.digitValue _) with (Some 3)
    || change (Js.digitValue _) with (Some 4) || change (Js.digitValue _) with (Some 5)
    || change (Js.digitValue _) with (Some 6) || change (Js.digitValue _) with (Some 7)
    || change (Js.digitValue _) with (Some 8) || change (Js.digitValue _) with (Some 9);
    cbv iota; rewrite IH; unfold Decimal.rev; cbn [Decimal.revapp DecimalPos.Unsigned.usize];
    match goal with
    | |- context [Decimal.revapp d (?c Decimal.Nil)] =>
        rewrite (DecimalPos.Unsigned.of_lu_revapp d (c Decimal.Nil))
    end;
    rewrite N2Z.inj_add, N2Z.inj_mul, N2Z.inj_pow, N2Z.inj_succ, Z.pow_succ_r
      by apply N2Z.is_nonneg;
    unfold Decimal.rev; simpl DecimalPos.Unsigned.of_lu; simpl Z.of_N; lia.
Qed.


Lemma parseInt_digits (c : ascii) (r : string) :
  is_Some (Js.digitValue c) →
  Js.parseInt (String c r) = Some (Js.parseDigits (String c r) 0)
  ∧ Js.parseInt (String "-" (String c r)) = Some (- Js.parseDigits (String c r) 0).
Proof.
  intros Hc.
  assert (Js.isWhiteSpace c = false ∧ c ≠ "-"%char ∧ c ≠ "+"%char) as (Hws & Hm & Hp).
  { destruct c as [[] [] [] [] [] [] [] []]; vm_compute in Hc;
      try (destruct Hc as [? Hc]; discriminate Hc); vm_compute; repeat split; congruence. }
  assert (Js.startsWithDigit (String c r) = true) as Hsd.
  { unfold Js.startsWithDigit. by apply bool_decide_eq_true. }
  split.
  - unfold Js.parseInt. cbn [Js.trimStart]. rewrite Hws.
    destruct c as [[] [] [] [] [] [] [] []]; try congruence.
    all: cbv beta iota zeta; rewrite Hsd; f_equal; lia.
  - unfold Js.parseInt. cbn [Js.trimStart].
    change (Js.isWhiteSpace "-") with false. cbv beta iota zeta.
    rewrite Hsd. f_equal; lia.
Qed.

Lemma string_of_uint_digit (d : Decimal.uint) :
  d ≠ Decimal.Nil →
  ∃ c r, NilEmpty.string_of_uint d = String c r ∧ is_Some (Js.digitValue c).
Proof.
  destruct d; [done | ..]; intros _; eexists _, _; (split; [reflexivity |]);
    vm_compute; eauto.
Qed.

(** [parseInt(String(z), 10)] is [z]. *)
Lemma parseInt_toString (z : Z) : Js.parseInt (Js.toString z) = Some z.
Proof.
  unfold Js.toString. destruct z as [|p|p]; [reflexivity | ..];
    cbn [Z.to_int NilZero.string_of_int].
  - pose proof (DecimalPos.Unsigned.of_to p) as Hp.
    assert (Pos.to_uint p ≠ Decimal.Nil) as Hn.
    { intros E. rewrite E in Hp. discriminate Hp. }
    destruct (string_of_uint_digit _ Hn) as (c & r & Hs & Hc).
    unfold NilZero.string_of_uint.
    destruct (Pos.to_uint p) eqn:E; [done | ..]; rewrite <- E in *;
      rewrite Hs, (proj1 (parseInt_digits c r Hc)), <- Hs, parseDigits_uint,
        <- DecimalPos.Unsigned.of_uint_alt, Hp; f_equal; lia.
  - pose proof (DecimalPos.Unsigned.of_to p) as Hp.
    assert (Pos.to_uint p ≠ Decimal.Nil) as Hn.
    { intros E. rewrite E in Hp. discriminate Hp. }
    destruct (string_of_uint_digit _ Hn) as (c & r & Hs & Hc).
    unfold NilZero.string_of_uint.
    destruct (Pos.to_uint p) eqn:E; [done | ..]; rewrite <- E in *;
      rewrite Hs; cbn [String.append];
      rewrite (proj2 (parseInt_digits c r Hc)), <- Hs, parseDigits_uint,
        <- DecimalPos.Unsigned.of_uint_alt, Hp; f_equal; lia.
Qed.

(** ** The store of nodes *)

Lemma alter_new {A} (f : A → A) (l : list A) (x : A) :
  alter f (length l) (l ++ [x]) = l ++ [f x].
Proof.
  rewrite <- (Nat.add_0_r (length l)) at 1. by rewrite alter_app_r.
Qed.

Lemma alter_old {A} (f : A → A) (l r : list A) (i : nat) :
  (i < length l)%nat → alter f i (l ++ r) = alter f i l ++ r.
Proof. apply alter_app_l. Qed.

Lemma lookup_alter_Some {A} (f : A → A) (l : list A) (i : nat) (x : A) :
  l !! i = Some x → alter f i l !! i = Some (f x).
Proof. intros H. by rewrite list_lookup_alter_eq, H. Qed.

Lemma parentOf_new (d : dom) (nd : node) :
  Dom.parentOf (d ++ [nd]) (length d) = parentNode nd.
Proof.
  unfold Dom.parentOf. rewrite lookup_app_r by lia.
  by rewrite Nat.sub_diag.
Qed.

Lemma detach_orphan (d : dom) (c : nid) :
  Dom.parentOf d c = None → Dom.detach c d = d.
Proof. unfold Dom.detach. by intros ->. Qed.

(** *** updateVisual *)

Lemma paint_length (ss : list nid) (idx : nat) (v : Z) (d : dom) :
  length (paint ss idx v d) = length d.
Proof.
  revert idx d. induction ss as [|s r IH]; intros idx d; [done|].
  cbn [paint]. rewrite IH. unfold Dom.setStyle. by rewrite length_alter.
Qed.

Lemma paint_other (ss : list nid) (idx : nat) (v : Z) (d : dom) (x : nid) :
  x ∉ ss → paint ss idx v d !! x = d !! x.
Proof.
  revert idx d. induction ss as [|s r IH]; intros idx d Hx; [done|].
  apply not_elem_of_cons in Hx as [Hxs Hxr].
  cbn [paint]. rewrite IH by done. unfold Dom.setStyle.
  by rewrite list_lookup_alter_ne.
Qed.

(** Painting touches nothing but the style of a node. *)
Lemma paint_field {A} (f : node → A) (ss : list nid) (idx : nat) (v : Z)
    (d : dom) (x : nid) :
  (∀ sty nd, f (set_style sty nd) = f nd) →
  f <$> paint ss idx v d !! x = f <$> d !! x.
Proof.
  intros Hf. revert idx d. induction ss as [|s r IH]; intros idx d; [done|].
  cbn [paint]. rewrite IH. unfold Dom.setStyle.
  destruct (decide (s = x)) as [->|Hne].
  - rewrite list_lookup_alter_eq. destruct (d !! x) as [nd|]; simpl; [|done].
    by rewrite Hf.
  - by rewrite list_lookup_alter_ne.
Qed.

Lemma paint_opacity (ss : list nid) (idx : nat) (v : Z) (d : dom) (j : nat) (s : nid) :
  NoDup ss → ss !! j = Some s → (s < length d)%nat →
  Dom.getStyle (paint ss idx v d) s "opacity" = Some (opacityAt v (idx + j)).
Proof.
  revert idx d j. induction ss as [|s0 r IH]; intros idx d j Hnd Hj Hs; [done|].
  apply NoDup_cons in Hnd as [Hs0 Hnd]. cbn [paint].
  destruct j as [|j]; cbn in Hj.
  - injection Hj as ->. unfold Dom.getStyle.
    rewrite paint_other by done. unfold Dom.setStyle.
    destruct (lookup_lt_is_Some_2 d s Hs) as [nd Hnd'].
    rewrite (lookup_alter_Some _ _ _ _ Hnd'). cbn.
    rewrite lookup_insert_eq. unfold opacityAt. by rewrite Nat.add_0_r.
  - replace (idx + S j)%nat with (S idx + j)%nat by lia.
    apply IH; [done | done |]. unfold Dom.setStyle. by rewrite length_alter.
Qed.


Lemma buildStar_page k wrapper container icon size i w :
  (wrapper < length (page w))%nat →
  page (buildStar k wrapper container icon size i w)
  = alter (addChildren [length (page w)]) wrapper (page w)
      ++ [starNode k wrapper container icon size i].
Proof.
  intros Hw. unfold buildStar, Dom.createElement. cbn [page pushStar set_ctrls set_page].
  unfold Dom.setProp, Dom.setClassName, Dom.setStyle, Dom.setAttribute,
    Dom.addEventListener.
  repeat (rewrite alter_new; node_norm). unfold Dom.appendChild.
  rewrite detach_orphan by (by rewrite parentOf_new).
  rewrite alter_old by done.
  rewrite <- (length_alter (addChildren [length (page w)]) (page w) wrapper) at 1.
  by rewrite alter_new.
Qed.

Lemma buildStar_ctrls k wrapper container icon size i w :
  ctrls (buildStar k wrapper container icon size i w)
  = alter (pushIcons [length (page w)]) k (ctrls w).
Proof. reflexivity. Qed.

Lemma buildStar_rest k wrapper container icon size i w :
  defaultStarIcon (buildStar k wrapper container icon size i w) = defaultStarIcon w
  ∧ documentElement (buildStar k wrapper container icon size i w) = documentElement w
  ∧ timers (buildStar k wrapper container icon size i w) = timers w.
Proof. done. Qed.

Lemma list_alter_ext {A} (f g : A → A) (i : nat) (l : list A) :
  (∀ x, f x = g x) → alter f i l = alter g i l.
Proof.
  intros Hfg. apply list_eq. intros j. rewrite !list_lookup_alter.
  case_decide; [|done]. destruct (l !! i); [|done]. cbn. by rewrite Hfg.
Qed.

Lemma alter_addChildren (a b : list nid) (n : nid) (d : dom) :
  alter (addChildren b) n (alter (addChildren a) n d) = alter (addChildren (a ++ b)) n d.
Proof.
  rewrite list_alter_alter_eq. apply list_alter_ext.
  intros nd. unfold addChildren. destruct nd; cbn. by rewrite <- (assoc_L (++)).
Qed.

Lemma alter_pushIcons (a b : list nid) (k : cid) (cs : list control) :
  alter (pushIcons b) k (alter (pushIcons a) k cs) = alter (pushIcons (a ++ b)) k cs.
Proof.
  rewrite list_alter_alter_eq. apply list_alter_ext.
  intros c. unfold pushIcons. cbn. by rewrite <- (assoc_L (++)).
Qed.

Lemma buildStars_page turns k wrapper container icon size i w :
  (wrapper < length (page w))%nat →
  page (buildStars turns k wrapper container icon size i w)
  = alter (addChildren (seq (length (page w)) turns)) wrapper (page w)
      ++ starNodes turns k wrapper container icon size i.
Proof.
  revert i w. induction turns as [|t IH]; intros i w Hw.
  - cbn [buildStars starNodes seq]. rewrite app_nil_r.
    symmetry. apply list_alter_id. intros nd. unfold addChildren.
    rewrite app_nil_r. by destruct nd.
  - cbn [buildStars starNodes seq].
    assert (length (page (buildStar k wrapper container icon size i w))
            = S (length (page w))) as Hlen.
    { rewrite buildStar_page by done. rewrite length_app, length_alter. cbn. lia. }
    rewrite IH by (rewrite Hlen; lia).
    rewrite Hlen, buildStar_page by done.
    rewrite alter_old by (by rewrite length_alter).
    rewrite alter_addChildren. by rewrite <- (assoc_L (++)).
Qed.

Lemma buildStars_ctrls turns k wrapper container icon size i w :
  (wrapper < length (page w))%nat →
  ctrls (buildStars turns k wrapper container icon size i w)
  = alter (pushIcons (seq (length (page w)) turns)) k (ctrls w).
Proof.
  revert i w. induction turns as [|t IH]; intros i w Hw.
  - cbn [buildStars seq]. symmetry. apply list_alter_id. intros c.
    unfold pushIcons. rewrite app_nil_r. by destruct c.
  - cbn [buildStars seq].
    assert (length (page (buildStar k wrapper container icon size i w))
            = S (length (page w))) as Hlen.
    { rewrite buildStar_page by done. rewrite length_app, length_alter. cbn. lia. }
    rewrite IH by (rewrite Hlen; lia).
    by rewrite Hlen, buildStar_ctrls, alter_pushIcons.
Qed.

Lemma buildStars_rest turns k wrapper container icon size i w :
  defaultStarIcon (buildStars turns k wrapper container icon size i w) = defaultStarIcon w
  ∧ documentElement (buildStars turns k wrapper container icon size i w) = documentElement w
  ∧ timers (buildStars turns k wrapper container icon size i w) = timers w.
Proof.
  revert i w. induction turns as [|t IH]; intros i w; [done|].
  cbn [buildStars]. destruct (IH (i + 1) (buildStar k wrapper container icon size i w))
    as (-> & -> & ->). done.
Qed.

Lemma alter_new_at {A} (f : A → A) (l : list A) (x : A) (n : nat) :
  length l = n → alter f n (l ++ [x]) = l ++ [f x].
Proof. intros <-. apply alter_new. Qed.


Lemma world_eta (w : world) :
  w = World (page w) (ctrls w) (defaultStarIcon w) (documentElement w) (timers w).
Proof. by destruct w. Qed.

(** The state a fresh construction leaves, in closed form. *)
Lemma build_fresh (c : nid) (opts : buildOpts) (w : world) :
  (c < length (page w))%nat →
  Dom.getAttribute (page w) c "data-starutils-built" ≠ Some "1" →
  let L := length (page w) in
  let t := Z.to_nat (numStars opts) in
  let k := length (ctrls w) in
  _buildCustomStarsForContainer (Some c) opts w
  = (World
       (alter (addChildren [L]) c (Dom.setAttribute c "data-starutils-built" "1" (page w))
          ++ wrapperNode c opts (seq (S L) t)
          :: starNodes t k L c (iconOf opts w) (starSize opts) 1)
       (ctrls w ++ [Control (seq (S L) t) 0])
       (defaultStarIcon w) (documentElement w) (timers w),
     BuiltControl L k).
Proof.
  intros Hc Hfresh L t k. unfold _buildCustomStarsForContainer.
  rewrite bool_decide_eq_false_2 by done.
  unfold Dom.createElement.
  set (d0 := Dom.setAttribute c "data-starutils-built" "1" (page w)).
  assert (length d0 = L) as Hd0 by (unfold d0, Dom.setAttribute; by rewrite length_alter).
  rewrite Hd0. fold (iconOf opts w). fold t k.
  unfold Dom.setClassName, Dom.setStyle.
  repeat (rewrite (alter_new_at _ d0 _ L Hd0); node_norm).
  match goal with
  | |- context [buildStars t k L c ?icon ?size 1 ?w0] => set (w1 := w0)
  end.
  assert (L < length (page w1))%nat as HL.
  { unfold w1. cbn [page set_ctrls set_page]. rewrite length_app, Hd0. cbn. lia. }
  assert (length (page w1) = S L) as Hlen1.
  { unfold w1. cbn [page set_ctrls set_page]. rewrite length_app, Hd0. cbn. lia. }
  pose proof (buildStars_page t k L c (iconOf opts w) (starSize opts) 1 w1 HL) as Hp.
  pose proof (buildStars_ctrls t k L c (iconOf opts w) (starSize opts) 1 w1 HL) as Hk.
  destruct (buildStars_rest t k L c (iconOf opts w) (starSize opts) 1 w1) as (Hi & Hdoc & Ht).
  f_equal.
  rewrite (world_eta (set_page _ _)). cbn [page ctrls defaultStarIcon documentElement timers set_page].
  rewrite Hk, Hi, Hdoc, Ht, Hp, Hlen1. unfold w1 at 2 3 4 5.
  cbn [page ctrls defaultStarIcon documentElement timers set_page set_ctrls].
  f_equal.
  - unfold w1. cbn [page set_ctrls set_page].
    rewrite (alter_new_at _ d0 _ L Hd0). node_norm.
    unfold Dom.appendChild.
    rewrite detach_orphan.
    2:{ unfold Dom.parentOf. rewrite lookup_app_l by (rewrite length_app, Hd0; cbn; lia).
        rewrite lookup_app_r by lia. by rewrite Hd0, Nat.sub_diag. }
    rewrite <- (assoc_L (++)). cbn [app].
    rewrite alter_old by lia.
    change (?a ++ ?x :: ?r) with (a ++ [x] ++ r). rewrite (assoc_L (++)).
    rewrite alter_old by (rewrite length_app, length_alter, Hd0; cbn; lia).
    rewrite (alter_new_at _ _ _ L (eq_trans (length_alter _ _ _) Hd0)).
    rewrite <- (assoc_L (++)). reflexivity.
  - rewrite (alter_new_at _ _ _ k eq_refl). reflexivity.
Qed.

Lemma starNodes_length turns k wrapper container icon size i :
  length (starNodes turns k wrapper container icon size i) = turns.
Proof.
  revert i. induction turns as [|t IH]; intros i; [done|].
  cbn [starNodes length]. by rewrite IH.
Qed.

Lemma starNodes_lookup turns k wrapper container icon size i (j : nat) :
  (j < turns)%nat →
  starNodes turns k wrapper container icon size i !! j
  = Some (starNode k wrapper container icon size (i + Z.of_nat j)).
Proof.
  revert i j. induction turns as [|t IH]; intros i j Hj; [lia|].
  destruct j as [|j]; cbn [starNodes].
  - cbn. by rewrite Z.add_0_r.
  - cbn [lookup list_lookup]. rewrite IH by lia. do 2 f_equal. lia.
Qed.

(** The nodes of the page after a fresh construction. *)
Lemma build_fresh_nodes (c : nid) (opts : buildOpts) (w : world) :
  (c < length (page w))%nat →
  Dom.getAttribute (page w) c "data-starutils-built" ≠ Some "1" →
  let L := length (page w) in
  let t := Z.to_nat (numStars opts) in
  let k := length (ctrls w) in
  let w' := fst (_buildCustomStarsForContainer (Some c) opts w) in
  length (page w') = (S L + t)%nat
  ∧ page w' !! L = Some (wrapperNode c opts (seq (S L) t))
  ∧ (∀ j, (j < t)%nat →
          page w' !! (S L + j)%nat
          = Some (starNode k L c (iconOf opts w) (starSize opts) (1 + Z.of_nat j)))
  ∧ (∀ x, (x < L)%nat → x ≠ c → page w' !! x = page w !! x)
  ∧ page w' !! c
    = (λ nd, addChildren [L]
               (set_attrs (<["data-starutils-built" := "1"]> (attrs nd)) nd))
      <$> page w !! c.
Proof.
  intros Hc Hfresh L t k w'. unfold w'. rewrite build_fresh by done.
  fold L t k. cbn [fst page].
  set (d1 := alter (addChildren [L]) c (Dom.setAttribute c _ _ (page w))).
  assert (length d1 = L) as Hd1.
  { unfold d1, Dom.setAttribute. by rewrite !length_alter. }
  repeat split.
  - rewrite length_app. cbn [length]. rewrite starNodes_length. lia.
  - rewrite lookup_app_r by lia. by rewrite Hd1, Nat.sub_diag.
  - intros j Hj. rewrite lookup_app_r by lia.
    replace (S L + j - length d1)%nat with (S j) by lia.
    cbn [lookup list_lookup]. by apply starNodes_lookup.
  - intros x Hx Hne. rewrite lookup_app_l by lia.
    unfold d1, Dom.setAttribute. by rewrite !list_lookup_alter_ne.
  - rewrite lookup_app_l by lia. unfold d1, Dom.setAttribute.
    rewrite !list_lookup_alter_eq. by destruct (page w !! c).
Qed.

Lemma build_controlOk (c : nid) (opts : buildOpts) (w : world) :
  (c < length (page w))%nat →
  Dom.getAttribute (page w) c "data-starutils-built" ≠ Some "1" →
  let w' := fst (_buildCustomStarsForContainer (Some c) opts w) in
  ctrls w' !! length (ctrls w)
  = Some (Control (seq (S (length (page w))) (Z.to_nat (numStars opts))) 0)
  ∧ controlOk w' (length (ctrls w))
      (seq (S (length (page w))) (Z.to_nat (numStars opts))).
Proof.
  intros Hc Hfresh w'.
  destruct (build_fresh_nodes c opts w Hc Hfresh) as (Hlen & _).
  fold w' in Hlen.
  assert (ctrls w' !! length (ctrls w)
          = Some (Control (seq (S (length (page w))) (Z.to_nat (numStars opts))) 0)) as Hk.
  { unfold w'. rewrite build_fresh by done. cbn [fst ctrls].
    rewrite lookup_app_r by lia. by rewrite Nat.sub_diag. }
  split; [done|]. split; [by rewrite Hk|]. split; [apply NoDup_seq|].
  apply Forall_forall. intros s Hs. apply elem_of_seq in Hs. lia.
Qed.

(** The three listeners of a constructed icon are those of its 1-based
    value, and they share the closure of the control. *)
Lemma constructed_icon_listeners (c : nid) (opts : buildOpts) (w : world) (j : nat) :
  (c < length (page w))%nat →
  Dom.getAttribute (page w) c "data-starutils-built" ≠ Some "1" →
  (j < Z.to_nat (numStars opts))%nat →
  let w' := fst (_buildCustomStarsForContainer (Some c) opts w) in
  let k := length (ctrls w) in
  let i := 1 + Z.of_nat j in
  listeners <$> page w' !! (S (length (page w)) + j)%nat
  = Some [("mouseenter", OnMouseEnter k i); ("mouseleave", OnMouseLeave k);
          ("click", OnClick k c i)].
Proof.
  intros Hc Hfresh Hj w' k i.
  destruct (build_fresh_nodes c opts w Hc Hfresh) as (_ & _ & Hst & _).
  unfold w'. by rewrite Hst.
Qed.

(** C4. Constructing a control on a container that was not built yet, with
    a count of at least one, creates exactly [count] icons: they are the
    children of the new wrapper in ascending order of their 1-based value,
    each is dimmed, and the selected value is 0. *)
Theorem construction_yields_count_dimmed_icons (c : nid) (opts : buildOpts) (w : world) :
  (c < length (page w))%nat →
  Dom.getAttribute (page w) c "data-starutils-built" ≠ Some "1" →
  1 ≤ numStars opts →
  ∃ wrapper k icons w',
    _buildCustomStarsForContainer (Some c) opts w = (w', BuiltControl wrapper k)
    ∧ ctrls w' !! k = Some (Control icons 0)
    ∧ Z.of_nat (length icons) = numStars opts
    ∧ NoDup icons
    ∧ Dom.childrenOf (page w') wrapper = icons
    ∧ Dom.childrenOf (page w') c = Dom.childrenOf (page w) c ++ [wrapper]
    ∧ ∀ idx s, icons !! idx = Some s →
        Dom.matches (page w') (Dom.ByTagClass "img" "starutils-star") s = true
        ∧ Dom.parentOf (page w') s = Some wrapper
        ∧ Dom.getAttribute (page w') s "data-value" = Some (Js.toString (Z.of_nat idx + 1))
        ∧ Dom.getStyle (page w') s "opacity" = Some "0.35".
Proof.
  intros Hc Hfresh Hcount.
  set (L := length (page w)). set (t := Z.to_nat (numStars opts)).
  destruct (build_fresh_nodes c opts w Hc Hfresh) as (Hlen & Hwr & Hst & _ & Hcn).
  destruct (build_controlOk c opts w Hc Hfresh) as (Hk & _ & Hnd & _).
  pose proof (build_fresh c opts w Hc Hfresh) as Hb. cbv zeta in Hb.
  rewrite Hb in *. cbn [fst] in *. fold L t in Hlen, Hwr, Hst, Hcn, Hk, Hnd |- *.
  eexists L, (length (ctrls w)), (seq (S L) t), _. split; [reflexivity|].
  split; [exact Hk|]. split; [rewrite length_seq; unfold t; lia|].
  split; [exact Hnd|]. split; [|split].
  - unfold Dom.childrenOf. by rewrite Hwr.
  - unfold Dom.childrenOf. rewrite Hcn.
    destruct (lookup_lt_is_Some_2 (page w) c Hc) as [nd ->]. done.
  - intros idx s Hs. apply lookup_seq in Hs as [-> Hidx].
    specialize (Hst idx Hidx).
    unfold Dom.matches, Dom.parentOf, Dom.getAttribute, Dom.getStyle.
    rewrite Hst. cbn.
    split; [reflexivity|]. split; [reflexivity|]. split; [|reflexivity].
    rewrite lookup_insert_eq. do 2 f_equal. lia.
Qed.

(** C5. Constructing a second time on the same container changes nothing:
    the marker attribute written by the first call makes the second call
    return the container at once, whatever the options. *)
Theorem construction_is_idempotent (c : nid) (opts opts' : buildOpts) (w : world) :
  (c < length (page w))%nat →
  let w1 := fst (_buildCustomStarsForContainer (Some c) opts w) in
  _buildCustomStarsForContainer (Some c) opts' w1 = (w1, BuiltAlready c).
Proof.
  intros Hc w1.
  assert (Dom.getAttribute (page w1) c "data-starutils-built" = Some "1") as Hm.
  { destruct (decide (Dom.getAttribute (page w) c "data-starutils-built" = Some "1"))
      as [Hb|Hfresh].
    - unfold w1, _buildCustomStarsForContainer. by rewrite bool_decide_eq_true_2.
    - destruct (build_fresh_nodes c opts w Hc Hfresh) as (_ & _ & _ & _ & Hcn).
      fold w1 in Hcn. unfold Dom.getAttribute. rewrite Hcn.
      destruct (lookup_lt_is_Some_2 (page w) c Hc) as [nd ->]. cbn.
      by rewrite lookup_insert_eq. }
  unfold _buildCustomStarsForContainer. by rewrite bool_decide_eq_true_2.
Qed.

(** *** The listeners *)

Lemma controlOk_inv (w : world) (k : cid) (icons : list nid) :
  controlOk w k icons →
  (∃ v, ctrls w !! k = Some (Control icons v))
  ∧ NoDup icons
  ∧ ∀ s, s ∈ icons → (s < length (page w))%nat.
Proof.
  intros (Hk & Hnd & Hin). split; [|split; [done|]].
  - destruct (ctrls w !! k) as [[ss v]|]; [|done]. cbn in Hk.
    injection Hk as ->. eauto.
  - by apply Forall_forall.
Qed.

Lemma updateVisual_ctrls k v w : ctrls (updateVisual k v w) = ctrls w.
Proof. unfold updateVisual. by destruct (ctrls w !! k). Qed.

Lemma updateVisual_length k v w : length (page (updateVisual k v w)) = length (page w).
Proof.
  unfold updateVisual. destruct (ctrls w !! k); [|done].
  cbn [page set_page]. apply paint_length.
Qed.

Lemma updateVisual_field {A} (f : node → A) k v w (x : nid) :
  (∀ sty nd, f (set_style sty nd) = f nd) →
  f <$> page (updateVisual k v w) !! x = f <$> page w !! x.
Proof.
  intros Hf. unfold updateVisual. destruct (ctrls w !! k); [|done].
  cbn [page set_page]. by apply paint_field.
Qed.

Lemma updateVisual_opacity k v w icons (idx : nat) (s : nid) :
  controlOk w k icons → icons !! idx = Some s →
  Dom.getStyle (page (updateVisual k v w)) s "opacity" = Some (opacityAt v idx).
Proof.
  intros Hok Hs. apply controlOk_inv in Hok as ([v0 Hk] & Hnd & Hin).
  unfold updateVisual. rewrite Hk.
  cbn [page set_page stars].
  apply (paint_opacity icons O v (page w) idx s Hnd Hs).
  apply Hin. by eapply list_elem_of_lookup_2.
Qed.

Lemma setSelectedValue_selectedOf k v w (c : control) :
  ctrls w !! k = Some c → selectedOf (setSelectedValue k v w) k = v.
Proof.
  intros Hk. unfold selectedOf, setSelectedValue. cbn [ctrls set_ctrls].
  by rewrite (lookup_alter_Some _ _ _ _ Hk).
Qed.

Lemma setSelectedValue_controlOk k k' v w icons :
  controlOk w k icons → controlOk (setSelectedValue k' v w) k icons.
Proof.
  intros (Hk & Hnd & Hin). split; [|done].
  unfold setSelectedValue. cbn [ctrls set_ctrls].
  rewrite list_lookup_alter. case_decide as E; [|done].
  subst k'. by destruct (ctrls w !! k).
Qed.



Lemma onClick_unfold depth k container i w :
  onClick depth k container i w
  = let w1 := writeBack depth k container (setSelectedValue k i w) in
    updateVisual k (selectedOf w1 k) w1.
Proof. reflexivity. Qed.

Lemma writeBack_ctrls depth k container w :
  ctrls (writeBack depth k container w) = ctrls w.
Proof.
  unfold writeBack. destruct (Dom.closest _ _ _ _); [|done].
  by destruct (Dom.querySelector _ _ _ _).
Qed.

Lemma writeBack_length depth k container w :
  length (page (writeBack depth k container w)) = length (page w).
Proof.
  unfold writeBack. destruct (Dom.closest _ _ _ _); [|done].
  destruct (Dom.querySelector _ _ _ _); [|done].
  cbn [page set_page]. unfold Dom.dispatchEvent, Dom.setProp.
  by rewrite !length_alter.
Qed.

Lemma writeBack_controlOk depth k k' container w icons :
  controlOk w k icons → controlOk (writeBack depth k' container w) k icons.
Proof.
  intros (Hk & Hnd & Hin). unfold controlOk.
  by rewrite writeBack_ctrls, writeBack_length.
Qed.

Lemma enforce_ctrls input m w : ctrls (enforce input m w) = ctrls w.
Proof. unfold enforce. by destruct (Js.lt _ _). Qed.



Lemma onClick_selectedOf depth k container i w icons :
  controlOk w k icons → selectedOf (onClick depth k container i w) k = i.
Proof.
  intros Hok. apply controlOk_inv in Hok as ([v0 Hk] & _).
  rewrite onClick_unfold. cbv zeta.
  unfold selectedOf at 1. rewrite updateVisual_ctrls, writeBack_ctrls.
  by apply (setSelectedValue_selectedOf k i w _ Hk).
Qed.

Lemma hover_selectedOf k j w : selectedOf (updateVisual k j w) k = selectedOf w k.
Proof. unfold selectedOf. by rewrite updateVisual_ctrls. Qed.



Lemma querySelector_matches depth (d : dom) (n x : nid) (sel : Dom.selector) :
  Dom.querySelector depth d n sel = Some x → Dom.matches d sel x = true.
Proof.
  unfold Dom.querySelector, Dom.querySelectorAll. intros H.
  apply head_Some_elem_of in H. apply list_elem_of_filter in H as [H _].
  by apply Is_true_true.
Qed.

Lemma matches_is_Some (d : dom) (sel : Dom.selector) (x : nid) :
  Dom.matches d sel x = true → is_Some (d !! x).
Proof. unfold Dom.matches. destruct (d !! x); [eauto|done]. Qed.

(** The click listener of the icon of 1-based index [i], run in a row that
    has a native value field: exactly the icons of index at most [i] become
    active and the others dimmed, the field holds [i] (the text that parses
    back to [i]), and an [input] then a [change] event, both bubbling, are
    dispatched on the field. *)
Lemma onClick_shows_and_stores (depth : nat) (w : world) (k : cid)
    (icons : list nid) (container tr input : nid) (i : Z) :
  controlOk w k icons →
  1 ≤ i ≤ Z.of_nat (length icons) →
  Dom.closest depth (page w) container "tr" = Some tr →
  Dom.querySelector depth (page w) tr (Dom.ByClass "ResultsInput") = Some input →
  let w' := fire depth (OnClick k container i) w in
  selectedOf w' k = i
  ∧ (∀ idx s, icons !! idx = Some s →
       Dom.getStyle (page w') s "opacity"
       = Some (if Z.of_nat idx + 1 <=? i then "1" else "0.35"))
  ∧ Dom.getProp (page w') input "value" = Some (Js.toString i)
  ∧ Js.parseInt (Js.toString i) = Some i
  ∧ dispatched <$> page w' !! input
    = (λ nd, dispatched nd ++ [Event "input" true; Event "change" true])
      <$> page w !! input.
Proof.
  intros Hok _ Htr Hin w'. unfold w'. cbn [fire].
  pose proof (onClick_selectedOf depth k container i w icons Hok) as Hsel.
  split; [exact Hsel|].
  rewrite onClick_unfold in *. cbv zeta in *.
  set (w0 := setSelectedValue k i w) in *.
  set (w1 := writeBack depth k container w0) in *.
  assert (selectedOf w1 k = i) as Hsel1.
  { rewrite <- Hsel. unfold selectedOf. by rewrite updateVisual_ctrls. }
  assert (controlOk w1 k icons) as Hok1.
  { apply writeBack_controlOk. by apply setSelectedValue_controlOk. }
  rewrite Hsel1. split; [|split; [|split]].
  - intros idx s Hs. rewrite (updateVisual_opacity k i w1 icons idx s Hok1 Hs).
    unfold opacityAt. f_equal.
    destruct (Z.ltb_spec (Z.of_nat idx) i), (Z.leb_spec (Z.of_nat idx + 1) i);
      (done || lia).
  - destruct (matches_is_Some _ _ _ (querySelector_matches _ _ _ _ _ Hin)) as [nd Hnd].
    assert (selectedOf w0 k = i) as Hsel0.
    { rewrite <- Hsel1. unfold selectedOf, w1. by rewrite writeBack_ctrls. }
    unfold Dom.getProp.
    pose proof (updateVisual_field props k i w1 input (λ _ _, eq_refl)) as Hf.
    destruct (page (updateVisual k i w1) !! input) as [nd'|] eqn:E';
      unfold w1, writeBack in Hf; cbn [page w0 setSelectedValue set_ctrls] in Hf;
      rewrite Htr, Hin in Hf; cbn [page set_page] in Hf; rewrite Hsel0 in Hf;
      unfold Dom.dispatchEvent, Dom.setProp in Hf;
      rewrite !list_lookup_alter_eq, Hnd in Hf; cbn in Hf; [|done].
    injection Hf as Hf. cbn. rewrite Hf. by rewrite lookup_insert_eq.
  - apply parseInt_toString.
  - destruct (matches_is_Some _ _ _ (querySelector_matches _ _ _ _ _ Hin)) as [nd Hnd].
    rewrite (updateVisual_field dispatched k i w1 input (λ _ _, eq_refl)).
    unfold w1, writeBack. cbn [page w0 setSelectedValue set_ctrls].
    rewrite Htr, Hin. cbn [page set_page].
    unfold Dom.dispatchEvent, Dom.setProp.
    rewrite !list_lookup_alter_eq, Hnd. cbn. by rewrite <- (assoc_L (++)).
Qed.



(** ** Minimum-value enforcement *)

(** A field whose content parses to a number below the minimum is rewritten
    to the minimum, and then reads back as exactly the minimum. *)
Lemma enforce_below (input : nid) (m v : Z) (s : string) (w : world) :
  Dom.getProp (page w) input "value" = Some s →
  Js.parseInt (Js.orElse s "0") = Some v →
  v < m →
  Dom.getProp (page (enforce input m w)) input "value" = Some (Js.toString m)
  ∧ Js.parseInt (Js.toString m) = Some m.
Proof.
  intros Hs Hv Hlt. split; [|apply parseInt_toString].
  unfold enforce. rewrite Hs. cbn [default from_option id]. rewrite Hv. cbn [Js.lt].
  rewrite (proj2 (Z.ltb_lt v m) Hlt). cbn [page set_page].
  unfold Dom.getProp, Dom.setProp in *. rewrite list_lookup_alter_eq.
  destruct (page w !! input) as [nd|]; [|done]. cbn.
  by rewrite lookup_insert_eq.
Qed.

(** A field whose content parses to a number at least the minimum is left
    alone. *)
Lemma enforce_at_least (input : nid) (m v : Z) (s : string) (w : world) :
  Dom.getProp (page w) input "value" = Some s →
  Js.parseInt (Js.orElse s "0") = Some v →
  m ≤ v →
  enforce input m w = w.
Proof.
  intros Hs Hv Hle. unfold enforce. rewrite Hs. cbn [default from_option id]. rewrite Hv.
  cbn [Js.lt]. by rewrite (proj2 (Z.ltb_ge v m) Hle).
Qed.

(** An empty field counts as zero. *)
Lemma enforce_empty (input : nid) (m : Z) (w : world) :
  Dom.getProp (page w) input "value" = Some EmptyString →
  0 < m →
  Dom.getProp (page (enforce input m w)) input "value" = Some (Js.toString m).
Proof.
  intros Hs Hm. by apply (enforce_below input m 0 EmptyString w Hs eq_refl Hm).
Qed.

(** A field whose content is not empty and does not start with a number is
    left alone, whatever the minimum: [parseInt] yields [NaN], and
    [NaN < minValue] is false. *)
Lemma enforce_unparseable (input : nid) (m : Z) (s : string) (w : world) :
  Dom.getProp (page w) input "value" = Some s →
  s ≠ EmptyString →
  Js.parseInt s = None →
  enforce input m w = w.
Proof.
  intros Hs Hne Hnan. unfold enforce. rewrite Hs. cbn [default from_option id].
  unfold Js.orElse. rewrite bool_decide_eq_false_2 by done. by rewrite Hnan.
Qed.

(** C2. The field holds the text [n/a] and the minimum is 2: after the
    check the field still holds [n/a], which is no number at all, so the
    value of the field is not at least 2. *)
Theorem enforce_misses_minimum_on_text :
  let w := fire 8 (OnEnforce 7%nat 2) (typed "n/a") in
  Dom.getProp (page w) 7%nat "value" = Some "n/a"
  ∧ fieldNumber w 7%nat = None
  ∧ atLeast (fieldNumber w 7%nat) 2 = false.
Proof.
  cbn [fire].
  rewrite (enforce_unparseable 7%nat 2 "n/a" (typed "n/a")); [|done..].
  repeat split; done.
Qed.

(** C3. The field holds the text [abc] and the minimum is 1: the check
    does not treat the content as zero, it leaves the field as it is. *)
Theorem enforce_keeps_unparseable_field :
  Js.parseInt "abc" = None
  ∧ fire 8 (OnEnforce 7%nat 1) (typed "abc") = typed "abc"
  ∧ Dom.getProp (page (fire 8 (OnEnforce 7%nat 1) (typed "abc"))) 7%nat "value"
    ≠ Some (Js.toString 1).
Proof.
  cbn [fire].
  rewrite (enforce_unparseable 7%nat 1 "abc" (typed "abc")); [|done..].
  repeat split; done.
Qed.

(** ** Running applySpacing on a built container *)

Lemma nodeSat_alter (P : node → Prop) (f : node → node) (n c : nid) (d : dom) :
  (∀ nd, P nd → P (f nd)) → nodeSat P d c → nodeSat P (alter f n d) c.
Proof.
  intros Hf (nd & Hnd & HP). unfold nodeSat. rewrite list_lookup_alter.
  case_decide as E; [subst n; rewrite Hnd; cbn|]; eauto.
Qed.

Lemma nodeSat_alter_ne (P : node → Prop) (f : node → node) (n c : nid) (d : dom) :
  n ≠ c → nodeSat P d c → nodeSat P (alter f n d) c.
Proof.
  intros Hne (nd & Hnd & HP). unfold nodeSat.
  rewrite list_lookup_alter_ne by done. eauto.
Qed.

Lemma nodeSat_lt (P : node → Prop) (d : dom) (c : nid) :
  nodeSat P d c → (c < length d)%nat.
Proof. intros (nd & Hnd & _). by eapply lookup_lt_Some. Qed.

Lemma nodeSat_sealed_marked (d : dom) (c : nid) :
  nodeSat isSealed d c → nodeSat isMarked d c.
Proof. intros (nd & Hnd & Hm & _). by exists nd. Qed.

Lemma nodeSat_marked_attr (d : dom) (c : nid) :
  nodeSat isMarked d c ↔ Dom.getAttribute d c "data-starutils-built" = Some "1".
Proof.
  unfold nodeSat, isMarked, Dom.getAttribute. split.
  - intros (nd & -> & H). done.
  - destruct (d !! c) as [nd|]; [|done]. cbn. eauto.
Qed.

(** Steps that leave a marked, or a sealed, container as it is. *)
Section Kept.
Variable P : node → Prop.
Hypothesis P_style : ∀ v nd, P nd → P (set_style v nd).
Hypothesis P_parent : ∀ v nd, P nd → P (set_parentNode v nd).
Hypothesis P_fewer : ∀ x nd, P nd → P (set_childNodes (Dom.without x (childNodes nd)) nd).
Hypothesis P_none : ∀ nd, P nd → P (set_childNodes [] nd).

Lemma setStyle_kept n k v d c : nodeSat P d c → nodeSat P (Dom.setStyle n k v d) c.
Proof. apply nodeSat_alter. intros nd. apply P_style. Qed.

Lemma removeChild_kept p el d c : nodeSat P d c → nodeSat P (Dom.removeChild p el d) c.
Proof.
  intros H. unfold Dom.removeChild.
  apply nodeSat_alter; [intros nd; apply P_parent|].
  apply nodeSat_alter; [intros nd; apply P_fewer|]. done.
Qed.

Lemma clearChildren_kept n d c : nodeSat P d c → nodeSat P (Dom.clearChildren n d) c.
Proof.
  intros H. unfold Dom.clearChildren.
  apply nodeSat_alter; [intros nd; apply P_none|].
  induction (Dom.childrenOf d n) as [|x r IH]; [done|].
  cbn [foldr]. apply nodeSat_alter; [intros nd; apply P_parent|]. done.
Qed.

Lemma removeNativePart_kept depth c' d sel c :
  nodeSat P d c → nodeSat P (removeNativePart depth c' d sel) c.
Proof.
  intros H. unfold removeNativePart.
  destruct (Dom.querySelector _ _ _ _) as [el|]; [|done].
  destruct (Dom.parentOf d el) as [p|]; [|done].
  by apply removeChild_kept.
Qed.

Lemma stripContainer_kept depth d c' c :
  nodeSat P d c → nodeSat P (stripContainer depth d c') c.
Proof.
  intros H. unfold stripContainer. apply setStyle_kept, clearChildren_kept.
  induction nativeParts as [|s r IH] using rev_ind; [done|].
  rewrite foldl_app. cbn [foldl]. by apply removeNativePart_kept.
Qed.

Lemma strip_all_kept depth cs d c :
  nodeSat P d c → nodeSat P (foldl (stripContainer depth) d cs) c.
Proof.
  revert d. induction cs as [|c' r IH]; intros d H; [done|].
  cbn [foldl]. by apply IH, stripContainer_kept.
Qed.
End Kept.

Lemma marked_style v nd : isMarked nd → isMarked (set_style v nd).
Proof. done. Qed.
Lemma marked_parent v nd : isMarked nd → isMarked (set_parentNode v nd).
Proof. done. Qed.
Lemma marked_children v nd : isMarked nd → isMarked (set_childNodes v nd).
Proof. done. Qed.
Lemma sealed_style v nd : isSealed nd → isSealed (set_style v nd).
Proof. done. Qed.
Lemma sealed_parent v nd : isSealed nd → isSealed (set_parentNode v nd).
Proof. done. Qed.
Lemma sealed_fewer x nd :
  isSealed nd → isSealed (set_childNodes (Dom.without x (childNodes nd)) nd).
Proof. intros [Hm He]. split; [done|]. cbn. by rewrite He. Qed.
Lemma sealed_none nd : isSealed nd → isSealed (set_childNodes [] nd).
Proof. intros [Hm He]. by split. Qed.

(** Emptying a marked container seals it. *)
Lemma clearChildren_seals (c : nid) (d : dom) :
  nodeSat isMarked d c → nodeSat isSealed (Dom.clearChildren c d) c.
Proof.
  intros H. unfold Dom.clearChildren.
  assert (nodeSat isMarked
            (foldr (λ x acc, alter (set_parentNode None) x acc) d (Dom.childrenOf d c)) c)
    as (nd & Hnd & Hm).
  { induction (Dom.childrenOf d c) as [|x r IH]; [done|].
    cbn [foldr]. apply nodeSat_alter; [intros nd; apply marked_parent|]. done. }
  exists (set_childNodes [] nd). split; [by apply lookup_alter_Some|]. by split.
Qed.

Lemma stripContainer_seals depth (c : nid) (d : dom) :
  nodeSat isMarked d c → nodeSat isSealed (stripContainer depth d c) c.
Proof.
  intros H. unfold stripContainer.
  apply nodeSat_alter; [intros nd; apply sealed_style|].
  apply clearChildren_seals.
  induction nativeParts as [|s r IH] using rev_ind; [done|].
  rewrite foldl_app. cbn [foldl].
  apply removeNativePart_kept;
    auto using marked_style, marked_parent, marked_children.
Qed.

(** Stripping every container of a list seals the marked ones among them. *)
Lemma strip_all_seals depth (cs : list nid) (d : dom) (c : nid) :
  c ∈ cs → nodeSat isMarked d c →
  nodeSat isSealed (foldl (stripContainer depth) d cs) c.
Proof.
  revert d. induction cs as [|c' r IH]; intros d Hin Hm; [by apply elem_of_nil in Hin|].
  cbn [foldl]. destruct (decide (c = c')) as [<-|Hne].
  - apply strip_all_kept;
      auto using sealed_style, sealed_parent, sealed_fewer, sealed_none.
    by apply stripContainer_seals.
  - apply elem_of_cons in Hin as [?|Hin]; [done|]. apply IH; [done|].
    apply stripContainer_kept;
      auto using marked_style, marked_parent, marked_children.
Qed.

Lemma build_length (c' : nid) (opts : buildOpts) (w : world) :
  (c' < length (page w))%nat →
  (length (page w) ≤ length (page (fst (_buildCustomStarsForContainer (Some c') opts w))))%nat.
Proof.
  intros Hc.
  destruct (decide (Dom.getAttribute (page w) c' "data-starutils-built" = Some "1"))
    as [Hb|Hfresh].
  - unfold _buildCustomStarsForContainer. by rewrite bool_decide_eq_true_2.
  - destruct (build_fresh_nodes c' opts w Hc Hfresh) as (-> & _). lia.
Qed.

(** Constructing on any container leaves a sealed container sealed: on the
    sealed container itself the marker stops the construction. *)
Lemma build_kept_sealed (c c' : nid) (opts : buildOpts) (w : world) :
  (c' < length (page w))%nat →
  nodeSat isSealed (page w) c →
  nodeSat isSealed (page (fst (_buildCustomStarsForContainer (Some c') opts w))) c.
Proof.
  intros Hc Hs.
  destruct (decide (Dom.getAttribute (page w) c' "data-starutils-built" = Some "1"))
    as [Hb|Hfresh].
  - unfold _buildCustomStarsForContainer. by rewrite bool_decide_eq_true_2.
  - assert (c ≠ c') as Hne.
    { intros ->. apply Hfresh, nodeSat_marked_attr. by apply nodeSat_sealed_marked. }
    destruct (build_fresh_nodes c' opts w Hc Hfresh) as (_ & _ & _ & Hold & _).
    destruct Hs as (nd & Hnd & HP). exists nd. split; [|done].
    rewrite Hold; [done | by eapply lookup_lt_Some | done].
Qed.

Lemma spaceContainer_kept depth (c c' : nid) (sp sz num : Z) (w : world) :
  (c' < length (page w))%nat →
  nodeSat isSealed (page w) c →
  nodeSat isSealed (page (spaceContainer depth sp sz num w c')) c
  ∧ (length (page w) ≤ length (page (spaceContainer depth sp sz num w c')))%nat.
Proof.
  intros Hc Hs. unfold spaceContainer.
  set (d1 := Dom.setStyle c' "verticalAlign" "middle" _).
  assert (nodeSat isSealed d1 c) as Hs1.
  { unfold d1. do 2 (apply nodeSat_alter; [intros nd; apply sealed_style|]).
    apply clearChildren_kept;
      auto using sealed_style, sealed_parent, sealed_fewer, sealed_none. }
  assert (length d1 = length (page w)) as Hlen1.
  { unfold d1, Dom.setStyle, Dom.clearChildren. rewrite !length_alter.
    induction (Dom.childrenOf (page w) c') as [|x r IH]; [done|].
    cbn [foldr]. by rewrite length_alter. }
  set (w2 := fst (_buildCustomStarsForContainer (Some c') _ (set_page d1 w))).
  assert (nodeSat isSealed (page w2) c) as Hs2.
  { apply build_kept_sealed; cbn [page set_page]; [lia | done]. }
  assert (length (page w) ≤ length (page w2))%nat as Hlen2.
  { rewrite <- Hlen1. apply (build_length c' _ (set_page d1 w)).
    cbn [page set_page]. lia. }
  destruct (Dom.closest depth (page w2) c' "tr") as [tr|]; [|done].
  destruct (Dom.querySelector depth (page w2) tr (Dom.ByTagClass "td" "value"))
    as [resultTd|];
    destruct (match Dom.querySelector depth _ tr (Dom.ByTagClass "td" "control") with
              | Some td => Some td
              | None => Dom.querySelector depth _ tr (Dom.ByTagClass "td" "BarOuter")
              end) as [td|];
    cbn [page set_page]; unfold Dom.setStyle; rewrite ?length_alter;
    (split; [|done]);
    repeat (apply nodeSat_alter; [intros nd; apply sealed_style|]); done.
Qed.

Lemma space_all_kept depth (c : nid) (sp sz num : Z) (cs : list nid) (w : world) :
  Forall (λ c', (c' < length (page w))%nat) cs →
  nodeSat isSealed (page w) c →
  nodeSat isSealed (page (foldl (spaceContainer depth sp sz num) w cs)) c.
Proof.
  revert w. induction cs as [|c' r IH]; intros w Hcs Hs; [done|].
  apply Forall_cons in Hcs as [Hc' Hr]. cbn [foldl].
  destruct (spaceContainer_kept depth c c' sp sz num w Hc' Hs) as [Hs' Hlen].
  apply IH; [|done]. eapply Forall_impl; [exact Hr|]. intros x Hx. cbn in Hx |- *. lia.
Qed.

Lemma querySelectorAll_valid depth (d : dom) (n : nid) (sel : Dom.selector) :
  Forall (λ x, (x < length d)%nat) (Dom.querySelectorAll depth d n sel).
Proof.
  apply Forall_forall. intros x Hx. unfold Dom.querySelectorAll in Hx.
  apply list_elem_of_filter in Hx as [Hm _]. apply Is_true_true in Hm.
  destruct (matches_is_Some _ _ _ Hm) as [nd Hnd]. by eapply lookup_lt_Some.
Qed.

Lemma descendants_childless depth (d : dom) (c : nid) :
  Dom.childrenOf d c = [] → Dom.descendants depth d c = [].
Proof. intros H. destruct depth; [done|]. cbn [Dom.descendants]. by rewrite H. Qed.

(** With a root that resolves, [applySpacing] returns after scheduling its
    callback, with the defaults filled in. *)
Lemma applySpacing_schedules (depth : nat) (n : nid) (o : spacingOptions) (w : world) :
  applySpacing depth (RefElement n) (ArgObject o) w
  = Normal (setTimeout
              (SpacingTask (QElem n) (default 20 (opt_spacing o))
                 (default 30 (opt_starSize o)) (default 5 (opt_numStars o)))
              300 w).
Proof. reflexivity. Qed.

(** Running the callback of [applySpacing] on a question one of whose
    containers already carries the marker of a finished construction leaves
    that container without any child, hence without icons, and still
    marked: its content is cleared and the marker prevents the
    reconstruction. *)
Lemma spacingCallback_empties_built (depth : nat) (w : world) (n c : nid)
    (sp sz num : Z) :
  c ∈ _qsAll depth (page w) (QElem n) (Dom.ByClass "StarsContainer") →
  Dom.getAttribute (page w) c "data-starutils-built" = Some "1" →
  let w' := runTask depth (SpacingTask (QElem n) sp sz num) w in
  Dom.childrenOf (page w') c = []
  ∧ Dom.querySelectorAll depth (page w') c (Dom.ByTagClass "img" "starutils-star") = []
  ∧ Dom.getAttribute (page w') c "data-starutils-built" = Some "1".
Proof.
  intros Hin Hm w'.
  assert (nodeSat isSealed (page w') c) as (nd & Hnd & Hmk & Hch).
  { unfold w'. cbn [runTask]. unfold spacingCallback.
    set (w1 := removeNativeStars depth (refOf (QElem n)) w).
    assert (nodeSat isSealed (page w1) c) as Hs1.
    { unfold w1, removeNativeStars. cbn [refOf _getQuestionContainer page set_page].
      apply strip_all_seals; [done|]. by apply nodeSat_marked_attr. }
    apply space_all_kept; [|done]. cbn [_qsAll]. apply querySelectorAll_valid. }
  assert (Dom.childrenOf (page w') c = []) as Hc.
  { unfold Dom.childrenOf. by rewrite Hnd. }
  split; [done|]. split.
  - unfold Dom.querySelectorAll. by rewrite descendants_childless.
  - unfold Dom.getAttribute. by rewrite Hnd.
Qed.

(** ** Color decoration *)




Lemma colorImgs_length colors imgs idx d :
  length (colorImgs colors imgs idx d) = length d.
Proof.
  revert idx d. induction imgs as [|img r IH]; intros idx d; [done|].
  cbn [colorImgs]. rewrite IH. unfold Dom.setStyle. by rewrite !length_alter.
Qed.




(** ** Failures reaching the caller *)

(** C8. [applySpacing] and [applyColorGradient] read a property of
    [options] before anything else: called without options (or with
    [null]) they throw a [TypeError] to their caller, whatever the root
    reference. *)
Theorem missing_options_throw (depth : nat) (r : rootRef) (w : world) :
  applySpacing depth r ArgUndefined w = TypeError
  ∧ applySpacing depth r ArgNull w = TypeError
  ∧ applyColorGradient depth r ArgUndefined w = TypeError
  ∧ applyColorGradient depth r ArgNull w = TypeError.
Proof. repeat split. Qed.

(** The sibling [addLabels] defaults its options and always returns, as do
    the operations that take no options. *)
Lemma addLabels_returns (depth : nat) (r : rootRef) (o : arg labelOptions) (w : world) :
  ∃ w', addLabels depth r o w = Normal w'.
Proof.
  unfold addLabels. destruct (_getQuestionContainer depth w r); eauto.
Qed.

Lemma enforceMinStar_returns (depth : nat) (r : rootRef) (m : option Z) (w : world) :
  ∃ w', enforceMinStar depth r m w = Normal w'.
Proof.
  unfold enforceMinStar. destruct (_getQuestionContainer depth w r); eauto.
Qed.

Lemma applySpacing_returns_with_options (depth : nat) (r : rootRef)
    (o : spacingOptions) (w : world) :
  ∃ w', applySpacing depth r (ArgObject o) w = Normal w'.
Proof.
  unfold applySpacing. destruct (_getQuestionContainer depth w r); eauto.
Qed.

(** X27. A root that cannot be resolved makes every operation a no-op:
    the call returns and the state, timers included, is as it was. *)
Lemma unresolved_root_is_noop (depth : nat) (r : rootRef) (w : world) :
  _getQuestionContainer depth w r = None →
  (∀ o, applySpacing depth r (ArgObject o) w = Normal w)
  ∧ (∀ o, applyColorGradient depth r (ArgObject o) w = Normal w)
  ∧ (∀ o, addLabels depth r o w = Normal w)
  ∧ (∀ m, enforceMinStar depth r m w = Normal w)
  ∧ removeNativeStars depth r w = w.
Proof.
  intros H. unfold applySpacing, applyColorGradient, addLabels, enforceMinStar,
    removeNativeStars. rewrite H. done.
Qed.

(** ** Label annotation *)

Lemma app_one_more {A} (l : list A) (x y : A) : (l ++ [x]) ++ [y] = l ++ [x; y].
Proof. by rewrite <- (assoc_L (++)). Qed.

Lemma alter_at_new {A} (f : A → A) (l news : list A) (F i : nat) :
  length l = F → alter f (F + i)%nat (l ++ news) = l ++ alter f i news.
Proof. intros <-. apply alter_app_r. Qed.

Lemma alter_at_new0 {A} (f : A → A) (l news : list A) (F : nat) :
  length l = F → alter f F (l ++ news) = l ++ alter f O news.
Proof. intros H. rewrite <- (Nat.add_0_r F) at 1. by apply alter_at_new. Qed.

Lemma parentOf_old (d news : dom) (x : nid) :
  (x < length d)%nat → Dom.parentOf (d ++ news) x = Dom.parentOf d x.
Proof. intros H. unfold Dom.parentOf. by rewrite lookup_app_l. Qed.

Lemma parentOf_at_new (d news : dom) (F i : nat) :
  length d = F → Dom.parentOf (d ++ news) (F + i)%nat = news !! i ≫= parentNode.
Proof.
  intros <-. unfold Dom.parentOf. rewrite lookup_app_r by lia.
  by replace (length d + i - length d)%nat with i by lia.
Qed.

Lemma parentOf_at_new0 (d news : dom) (F : nat) :
  length d = F → Dom.parentOf (d ++ news) F = news !! O ≫= parentNode.
Proof. intros H. rewrite <- (Nat.add_0_r F) at 1. by apply parentOf_at_new. Qed.

Lemma parentOf_alter_ne (f : node → node) (n x : nid) (d : dom) :
  n ≠ x → Dom.parentOf (alter f n d) x = Dom.parentOf d x.
Proof. intros H. unfold Dom.parentOf. by rewrite list_lookup_alter_ne. Qed.

(** [wrapWithLabels] in closed form. *)
Lemma wrapWithLabels_eq (leftText rightText : string) (p w : nid) (d : dom) :
  Dom.parentOf d w = Some p → p ≠ w → (p < length d)%nat →
  let F := length d in
  wrapWithLabels leftText rightText p w d
  = alter (λ nd, set_childNodes (replaced w F (childNodes nd)) nd) p
      (alter (set_parentNode (Some F)) w d)
    ++ [flexNode p [S F; w; S (S F)];
        labelNode "star-label-left" "right" leftText F;
        labelNode "star-label-right" "left" rightText F].
Proof.
  intros Hpar Hne Hp F.
  assert (w < length d)%nat as Hw.
  { unfold Dom.parentOf in Hpar. destruct (d !! w) eqn:E; [|done].
    by eapply lookup_lt_Some. }
  unfold wrapWithLabels, Dom.createElement.
  unfold Dom.setClassName, Dom.setStyle, Dom.setProp.
  repeat (rewrite alter_new; node_norm).
  rewrite !length_app. cbn [length]. fold F.
  repeat (rewrite (alter_new_at _ (d ++ [_]) _ (F + 1)%nat)
            by (rewrite length_app; cbn; lia); node_norm).
  repeat (rewrite (alter_new_at _ ((d ++ [_]) ++ [_]) _ (F + 1 + 1)%nat)
            by (rewrite !length_app; cbn; lia); node_norm).
  rewrite !app_one_more. rewrite <- (assoc_L (++)). cbn [app].
  (* parent.insertBefore(flexWrap, starsWrapper) *)
  unfold Dom.insertBefore.
  rewrite detach_orphan by (by rewrite (parentOf_at_new0 d _ F eq_refl)).
  rewrite alter_old by done.
  set (d1 := alter _ p d).
  assert (length d1 = F) as Hd1 by (unfold d1; by rewrite length_alter).
  rewrite (alter_at_new0 _ d1 _ F Hd1). cbn [alter list_alter]. node_norm.
  (* flexWrap.appendChild(left) *)
  unfold Dom.appendChild at 3.
  rewrite detach_orphan by (by rewrite (parentOf_at_new d1 _ F 1 Hd1)).
  rewrite (alter_at_new0 _ d1 _ F Hd1). cbn [alter list_alter]. node_norm.
  rewrite (alter_at_new _ d1 _ F 1 Hd1). cbn [alter list_alter]. node_norm.
  (* flexWrap.appendChild(starsWrapper) *)
  unfold Dom.appendChild at 2. unfold Dom.detach.
  rewrite parentOf_old by lia. unfold d1 at 1.
  rewrite parentOf_alter_ne by done. rewrite Hpar.
  rewrite !alter_old by (rewrite ?length_alter; lia).
  set (d2 := alter (set_parentNode None) w _).
  assert (length d2 = F) as Hd2 by (unfold d2, d1; by rewrite !length_alter).
  rewrite (alter_at_new0 _ d2 _ F Hd2). cbn [alter list_alter]. node_norm.
  rewrite alter_old by lia.
  set (d3 := alter _ w d2).
  assert (length d3 = F) as Hd3 by (unfold d3; by rewrite length_alter).
  (* flexWrap.appendChild(right) *)
  unfold Dom.appendChild.
  rewrite detach_orphan
    by (replace (F + 1 + 1)%nat with (F + 2)%nat by lia;
        by rewrite (parentOf_at_new d3 _ F 2 Hd3)).
  rewrite (alter_at_new0 _ d3 _ F Hd3). cbn [alter list_alter]. node_norm.
  replace (F + 1 + 1)%nat with (F + 2)%nat by lia.
  rewrite (alter_at_new _ d3 _ F 2 Hd3). cbn [alter list_alter]. node_norm.
  replace (F + 1)%nat with (S F) by lia. replace (F + 2)%nat with (S (S F)) by lia.
  f_equal.
  apply list_eq. intros i. unfold d3, d2, d1, replaced.
  rewrite !list_lookup_alter.
  repeat case_decide; subst; try done; destruct (d !! _); done.
Qed.

Lemma wellFormed_child (d : dom) (p c : nid) :
  wellFormed d → c ∈ Dom.childrenOf d p →
  Dom.parentOf d c = Some p ∧ (c < length d)%nat ∧ (p < length d)%nat ∧ p ≠ c.
Proof.
  intros Hwf Hc. destruct (Hwf p c) as [Hiff Hself].
  pose proof (proj1 Hiff Hc) as Hpar. split; [done|]. split; [|split; [|auto]].
  - unfold Dom.parentOf in Hpar. destruct (d !! c) eqn:E; [|done].
    by eapply lookup_lt_Some.
  - unfold Dom.childrenOf in Hc. destruct (d !! p) eqn:E.
    + by eapply lookup_lt_Some.
    + by apply elem_of_nil in Hc.
Qed.

Lemma wellFormed_parent (d : dom) (p c : nid) :
  wellFormed d → Dom.parentOf d c = Some p →
  c ∈ Dom.childrenOf d p ∧ (c < length d)%nat ∧ (p < length d)%nat ∧ p ≠ c.
Proof.
  intros Hwf Hpar. destruct (Hwf p c) as [Hiff Hself].
  pose proof (proj2 Hiff Hpar) as Hc. split; [done|].
  by destruct (wellFormed_child d p c Hwf Hc) as (_ & ? & ? & ?).
Qed.

Lemma childrenOf_none (d : dom) (x : nid) :
  (length d ≤ x)%nat → Dom.childrenOf d x = [].
Proof. intros H. unfold Dom.childrenOf. by rewrite lookup_ge_None_2. Qed.

Lemma parentOf_none (d : dom) (x : nid) :
  (length d ≤ x)%nat → Dom.parentOf d x = None.
Proof. intros H. unfold Dom.parentOf. by rewrite lookup_ge_None_2. Qed.

Lemma elem_of_putBefore (ref new x : nid) (l : list nid) :
  x ∈ Dom.putBefore ref new l ↔ x = new ∨ x ∈ l.
Proof.
  induction l as [|y r IH]; cbn [Dom.putBefore].
  - rewrite list_elem_of_singleton. split; [auto|]. intros [?|H]; [done|].
    by apply elem_of_nil in H.
  - case_decide; rewrite !elem_of_cons; [tauto|]. rewrite IH. tauto.
Qed.

Lemma elem_of_replaced (old new x : nid) (l : list nid) :
  new ≠ old →
  x ∈ replaced old new l ↔ x = new ∨ (x ∈ l ∧ x ≠ old).
Proof.
  intros Hne. unfold replaced, Dom.without.
  rewrite list_elem_of_filter, elem_of_putBefore. split.
  - intros [? [?|?]]; auto.
  - intros [->|[? ?]]; auto.
Qed.

(** One turn of the loop of [addLabels] on a wrapper [w] that has a parent
    [p], in a well-formed page. *)
Section WrapStep.
Variables (leftText rightText : string) (p w : nid) (d : dom).
Hypothesis Hwf : wellFormed d.
Hypothesis Hpar : Dom.parentOf d w = Some p.

Let F := length d.
Let d' := wrapWithLabels leftText rightText p w d.

Lemma wrap_facts : w ∈ Dom.childrenOf d p ∧ (w < F)%nat ∧ (p < F)%nat ∧ p ≠ w.
Proof. by apply wellFormed_parent. Qed.

Lemma wrap_eq :
  d' = alter (λ nd, set_childNodes (replaced w F (childNodes nd)) nd) p
         (alter (set_parentNode (Some F)) w d)
       ++ [flexNode p [S F; w; S (S F)];
           labelNode "star-label-left" "right" leftText F;
           labelNode "star-label-right" "left" rightText F].
Proof.
  destruct wrap_facts as (_ & _ & Hp & Hne).
  by apply wrapWithLabels_eq.
Qed.

Lemma wrap_length : length d' = (F + 3)%nat.
Proof. rewrite wrap_eq, length_app, !length_alter. done. Qed.

Lemma wrap_lookup_old (x : nid) :
  (x < F)%nat →
  d' !! x
  = (if decide (x = p)
     then (λ nd, set_childNodes (replaced w F (childNodes nd)) nd) <$> d !! x
     else if decide (x = w) then set_parentNode (Some F) <$> d !! x
     else d !! x).
Proof.
  intros Hx. destruct wrap_facts as (_ & _ & _ & Hne).
  rewrite wrap_eq, lookup_app_l by (by rewrite !length_alter).
  rewrite !list_lookup_alter. repeat case_decide; subst; done.
Qed.

Lemma wrap_lookup_new :
  d' !! F = Some (flexNode p [S F; w; S (S F)])
  ∧ d' !! S F = Some (labelNode "star-label-left" "right" leftText F)
  ∧ d' !! S (S F) = Some (labelNode "star-label-right" "left" rightText F).
Proof.
  rewrite wrap_eq. repeat split.
  - rewrite lookup_app_r by (rewrite !length_alter; fold F; lia).
    rewrite !length_alter. fold F. by rewrite Nat.sub_diag.
  - rewrite lookup_app_r by (rewrite !length_alter; fold F; lia).
    rewrite !length_alter. fold F. by replace (S F - F)%nat with 1%nat by lia.
  - rewrite lookup_app_r by (rewrite !length_alter; fold F; lia).
    rewrite !length_alter. fold F. by replace (S (S F) - F)%nat with 2%nat by lia.
Qed.

Lemma wrap_children (x : nid) :
  Dom.childrenOf d' x
  = (if decide (x = p) then replaced w F (Dom.childrenOf d p)
     else if decide (x = F) then [S F; w; S (S F)]
     else Dom.childrenOf d x).
Proof.
  destruct wrap_facts as (_ & Hw & Hp & Hne).
  destruct wrap_lookup_new as (HF & HF1 & HF2).
  destruct (decide (x < F)%nat) as [Hx|Hx].
  - unfold Dom.childrenOf. rewrite wrap_lookup_old by done.
    repeat case_decide; subst; try lia.
    + destruct (lookup_lt_is_Some_2 d p Hp) as [nd ->]. done.
    + destruct (lookup_lt_is_Some_2 d w Hw) as [nd ->]. done.
    + done.
  - rewrite (childrenOf_none d x) by (fold F; lia).
    repeat case_decide; subst; try lia.
    + unfold Dom.childrenOf. by rewrite HF.
    + destruct (decide (x = S F)) as [->|]; [|destruct (decide (x = S (S F))) as [->|]].
      * unfold Dom.childrenOf. by rewrite HF1.
      * unfold Dom.childrenOf. by rewrite HF2.
      * apply childrenOf_none. rewrite wrap_length. lia.
Qed.

Lemma wrap_parent (x : nid) :
  Dom.parentOf d' x
  = (if decide (x = w) then Some F
     else if decide (x = F) then Some p
     else if decide (x = S F ∨ x = S (S F)) then Some F
     else Dom.parentOf d x).
Proof.
  destruct wrap_facts as (_ & Hw & Hp & Hne).
  destruct wrap_lookup_new as (HF & HF1 & HF2).
  destruct (decide (x < F)%nat) as [Hx|Hx].
  - unfold Dom.parentOf. rewrite wrap_lookup_old by done.
    repeat case_decide; subst; try lia.
    + destruct (lookup_lt_is_Some_2 d p Hp) as [nd ->]. done.
    + destruct (lookup_lt_is_Some_2 d w Hw) as [nd ->]. done.
    + done.
  - rewrite (parentOf_none d x) by (fold F; lia).
    repeat case_decide; subst; try lia.
    + unfold Dom.parentOf. by rewrite HF.
    + unfold Dom.parentOf.
      match goal with H : _ ∨ _ |- _ => destruct H as [->| ->] end;
        [by rewrite HF1 | by rewrite HF2].
    + apply parentOf_none. rewrite wrap_length. lia.
Qed.



End WrapStep.

Lemma wrap_wellFormed (leftText rightText : string) (p w : nid) (d : dom) :
  wellFormed d → Dom.parentOf d w = Some p →
  wellFormed (wrapWithLabels leftText rightText p w d).
Proof.
  intros Hwf Hpar p0 c0.
  destruct (wrap_facts p w d Hwf Hpar) as (Hin & Hw & Hp & Hne).
  rewrite (wrap_children leftText rightText p w d Hwf Hpar),
    (wrap_parent leftText rightText p w d Hwf Hpar).
  set (F := length d) in *.
  assert (∀ q c, c ∈ Dom.childrenOf d q ↔ Dom.parentOf d c = Some q) as Hiff
    by (intros q c; apply Hwf).
  assert (∀ q c, Dom.parentOf d c = Some q → (c < F)%nat ∧ (q < F)%nat ∧ q ≠ c) as Hlt.
  { intros q c H. by destruct (wellFormed_parent d q c Hwf H) as (_ & ? & ? & ?). }
  assert (F ≠ w) as HFw by lia.
  split.
  - repeat case_decide; subst;
      rewrite ?elem_of_replaced by done; rewrite ?elem_of_cons, ?elem_of_nil, ?Hiff;
      (split; intros Hx);
      try (pose proof (Hlt _ _ Hpar));
      try (lia || congruence || tauto).
    all: try (injection Hx as Hx; subst; (lia || tauto)).
    all: try (destruct Hx as [Hx|[Hx|[Hx|Hx]]]; (lia || congruence || tauto)).
    all: try (destruct Hx as [Hx|[Hx Hx']]; (lia || congruence || tauto)).
    all: try (apply Hlt in Hx; lia).
    all: try (destruct Hx as [?|[Hx ?]]; [lia | apply Hlt in Hx; lia]).
  - repeat case_decide; subst; intros Hx; try (injection Hx as Hx); try lia.
    by apply Hlt in Hx as (_ & _ & ?).
Qed.

Lemma elem_of_descendants (k : nat) (d : dom) (n x : nid) :
  x ∈ Dom.descendants (S k) d n
  ↔ ∃ c, c ∈ Dom.childrenOf d n ∧ (x = c ∨ x ∈ Dom.descendants k d c).
Proof.
  cbn [Dom.descendants]. rewrite list_elem_of_bind. split.
  - intros (c & Hx & Hc). exists c. split; [done|].
    by apply elem_of_cons in Hx.
  - intros (c & Hc & Hx). exists c. split; [|done]. by apply elem_of_cons.
Qed.

Lemma descendants_deeper (k : nat) (d : dom) (n x : nid) :
  x ∈ Dom.descendants k d n → x ∈ Dom.descendants (S k) d n.
Proof.
  revert n. induction k as [|k IH]; intros n Hx.
  - by apply elem_of_nil in Hx.
  - apply elem_of_descendants in Hx as (c & Hc & Hx).
    apply elem_of_descendants. exists c. split; [done|].
    destruct Hx as [->|Hx]; [by left | right; by apply IH].
Qed.






(** The loop of [addLabels] keeps the page well formed and only adds
    nodes. *)
Lemma labelWrappers_wellFormed (lt rt : string) (ws : list nid) (d : dom) :
  wellFormed d →
  wellFormed (labelWrappers lt rt ws d)
  ∧ (length d ≤ length (labelWrappers lt rt ws d))%nat.
Proof.
  revert d. induction ws as [|w r IH]; intros d Hwf; [done|].
  cbn [labelWrappers]. destruct (Dom.parentOf d w) as [p|] eqn:Hpar; [|done].
  destruct (Dom.hasClass d p "star-flex-wrapper"); [by apply IH|].
  destruct (IH _ (wrap_wellFormed lt rt p w d Hwf Hpar)) as [Hwf' Hlen].
  split; [done|]. rewrite (wrap_length lt rt p w d Hwf Hpar) in Hlen. lia.
Qed.







(** ** From the operations to their callbacks *)

Lemma set_timers_back (t : task) (delay : Z) (w : world) :
  timers w = [] → set_timers [] (setTimeout t delay w) = w.
Proof. intros H. destruct w; cbn in *. by subst. Qed.

(** One timer set on a page without pending timers: its callback runs. *)
Lemma runTimers_one depth (t : task) (delay : Z) (w : world) :
  timers w = [] → runTimers depth (setTimeout t delay w) = runTask depth t w.
Proof.
  intros H. unfold runTimers. cbn [timers setTimeout]. rewrite H. cbn.
  change (World (page w) (ctrls w) (defaultStarIcon w) (documentElement w) [])
    with (set_timers [] (setTimeout t delay w)).
  by rewrite set_timers_back.
Qed.


(** C6. A second call of [applySpacing]: on a page without pending timers,
    with a root that resolves to an element, the call returns, and when its
    timer has fired every container of the question that already carried
    the marker of a finished construction is left without any child, hence
    without icons, and still marked: the callback clears the container and
    the marker prevents the reconstruction. *)
Theorem applySpacing_again_empties_built_container (depth : nat) (w : world)
    (r : rootRef) (n c : nid) (o : spacingOptions) :
  _getQuestionContainer depth w r = Some (QElem n) →
  timers w = [] →
  c ∈ _qsAll depth (page w) (QElem n) (Dom.ByClass "StarsContainer") →
  Dom.getAttribute (page w) c "data-starutils-built" = Some "1" →
  ∃ w1, applySpacing depth r (ArgObject o) w = Normal w1
        ∧ let w' := runTimers depth w1 in
          Dom.childrenOf (page w') c = []
          ∧ Dom.querySelectorAll depth (page w') c
              (Dom.ByTagClass "img" "starutils-star") = []
          ∧ Dom.getAttribute (page w') c "data-starutils-built" = Some "1".
Proof.
  intros Hr Ht Hc Hm. unfold applySpacing. rewrite Hr.
  eexists. split; [reflexivity|]. cbv zeta. rewrite runTimers_one by done.
  by apply spacingCallback_empties_built.
Qed.



(** Two colours for five icons: the last colour repeats. *)
Example two_colors_for_five_icons :
  ∃ w1, applyColorGradient 8 (RefString "QID1")
          (ArgObject (ColorOptions (Some ["red"; "gold"]))) builtWorld = Normal w1
        ∧ let w' := runTimers 8 w1 in
          (λ img, Dom.getStyle (page w') img "backgroundColor")
            <$> [9; 10; 11; 12; 13]%nat
          = [Some "red"; Some "gold"; Some "gold"; Some "gold"; Some "gold"].
Proof. eexists. split; [vm_compute; reflexivity|]. vm_compute. reflexivity. Qed.


(** In a question of two rows the count of the icons runs on from the first
    row to the second: with three colours for three icons a row, every icon
    of the second row gets the last colour. *)
Example second_row_gets_last_color :
  ∃ w1, applyColorGradient 8 (RefString "QID1")
          (ArgObject (ColorOptions (Some ["red"; "gold"; "green"]))) twoRowWorld
        = Normal w1
        ∧ let w' := runTimers 8 w1 in
          (λ img, Dom.getStyle (page w') img "backgroundColor")
            <$> [13; 14; 15; 17; 18; 19]%nat
          = [Some "red"; Some "gold"; Some "green";
             Some "green"; Some "green"; Some "green"].
Proof. eexists. split; [vm_compute; reflexivity|]. vm_compute. reflexivity. Qed.



(** ** The sample page *)

Lemma wellFormedb_sound (d : dom) : wellFormedb d = true → wellFormed d.
Proof.
  intros WB. unfold wellFormedb in WB. rewrite forallb_forall in WB.
  assert (∀ p, (p < length d)%nat →
            (∀ c, c ∈ Dom.childrenOf d p → (c < length d)%nat)
            ∧ (∀ q, Dom.parentOf d p = Some q → (q < length d)%nat ∧ q ≠ p)
            ∧ (∀ c, (c < length d)%nat →
                    c ∈ Dom.childrenOf d p ↔ Dom.parentOf d c = Some p)) as H.
  { intros p Hp. specialize (WB p).
    rewrite <- list_elem_of_In, elem_of_seq in WB. specialize (WB ltac:(lia)).
    apply andb_prop in WB as [WB WC]. apply andb_prop in WB as [WA WB].
    rewrite forallb_forall in WA, WC. repeat split.
    - intros c Hc. apply list_elem_of_In, WA in Hc. by apply bool_decide_eq_true in Hc.
    - destruct (Dom.parentOf d p) as [q'|]; [|done]. injection H as ->.
      apply andb_prop in WB as [WB _]. by apply bool_decide_eq_true in WB.
    - destruct (Dom.parentOf d p) as [q'|]; [|done]. injection H as ->.
      apply andb_prop in WB as [_ WB]. by apply bool_decide_eq_true in WB.
    - intros Hc. specialize (WC c). rewrite <- list_elem_of_In, elem_of_seq in WC.
      specialize (WC ltac:(lia)). apply bool_decide_eq_true in WC.
      apply (bool_decide_eq_true_1 (Dom.parentOf d c = Some p)).
      rewrite <- WC. by apply bool_decide_eq_true_2.
    - intros Hc. specialize (WC c). rewrite <- list_elem_of_In, elem_of_seq in WC.
      specialize (WC ltac:(lia)). apply bool_decide_eq_true in WC.
      apply (bool_decide_eq_true_1 (c ∈ Dom.childrenOf d p)).
      rewrite WC. by apply bool_decide_eq_true_2. }
  assert (∀ c q, Dom.parentOf d c = Some q → (c < length d)%nat) as Hpl.
  { intros c q Hq. unfold Dom.parentOf in Hq. destruct (d !! c) eqn:E; [|done].
    by eapply lookup_lt_Some. }
  intros p c. split; [split|].
  - intros Hc.
    destruct (decide (p < length d)%nat) as [Hp|Hp].
    + destruct (H p Hp) as (HA & _ & HC). apply HC; [|done]. by apply HA.
    + rewrite childrenOf_none in Hc by lia. by apply elem_of_nil in Hc.
  - intros Hq. pose proof (Hpl c p Hq) as Hc.
    destruct (H c Hc) as (_ & HB & _). destruct (HB p Hq) as [Hp _].
    destruct (H p Hp) as (_ & _ & HC). by apply HC.
  - intros Hq. pose proof (Hpl c p Hq) as Hc.
    destruct (H c Hc) as (_ & HB & _). by destruct (HB p Hq).
Qed.

Lemma samplePage_wellFormed : wellFormed samplePage.
Proof. apply wellFormedb_sound. vm_compute. reflexivity. Qed.

Lemma builtWorld_wellFormed : wellFormed (page builtWorld).
Proof. apply wellFormedb_sound. vm_compute. reflexivity. Qed.

Example builtWorld_icons :
  ctrls builtWorld = [Control [9; 10; 11; 12; 13]%nat 0]
  ∧ Dom.childrenOf (page builtWorld) 4%nat = [8%nat]
  ∧ Dom.childrenOf (page builtWorld) 8%nat = [9; 10; 11; 12; 13]%nat.
Proof. vm_compute. done. Qed.

(** ** The theorems at the sample page *)

Lemma construction_witness :
  let opts := BuildOpts 20 30 5 None in
  (4 < length (page sampleWorld))%nat
  ∧ Dom.getAttribute (page sampleWorld) 4%nat "data-starutils-built" ≠ Some "1"
  ∧ 1 ≤ numStars opts
  ∧ ∃ wrapper k icons w',
      _buildCustomStarsForContainer (Some 4%nat) opts sampleWorld
      = (w', BuiltControl wrapper k)
      ∧ ctrls w' !! k = Some (Control icons 0)
      ∧ Z.of_nat (length icons) = numStars opts
      ∧ NoDup icons
      ∧ Dom.childrenOf (page w') wrapper = icons
      ∧ Dom.childrenOf (page w') 4%nat
        = Dom.childrenOf (page sampleWorld) 4%nat ++ [wrapper]
      ∧ ∀ idx s, icons !! idx = Some s →
          Dom.matches (page w') (Dom.ByTagClass "img" "starutils-star") s = true
          ∧ Dom.parentOf (page w') s = Some wrapper
          ∧ Dom.getAttribute (page w') s "data-value"
            = Some (Js.toString (Z.of_nat idx + 1))
          ∧ Dom.getStyle (page w') s "opacity" = Some "0.35".
Proof.
  intros opts.
  assert (4 < length (page sampleWorld))%nat as H1 by (vm_compute; lia).
  assert (Dom.getAttribute (page sampleWorld) 4%nat "data-starutils-built" ≠ Some "1")
    as H2 by (vm_compute; discriminate).
  assert (1 ≤ numStars opts) as H3 by (cbn; lia).
  repeat (split; [assumption|]).
  exact (construction_yields_count_dimmed_icons 4%nat opts sampleWorld H1 H2 H3).
Defined.

Lemma idempotence_witness :
  let opts := BuildOpts 20 30 5 None in
  let opts' := BuildOpts 8 16 3 None in
  (4 < length (page sampleWorld))%nat
  ∧ let w1 := fst (_buildCustomStarsForContainer (Some 4%nat) opts sampleWorld) in
    _buildCustomStarsForContainer (Some 4%nat) opts' w1 = (w1, BuiltAlready 4%nat).
Proof.
  intros opts opts'.
  assert (4 < length (page sampleWorld))%nat as H1 by (vm_compute; lia).
  split; [assumption|].
  exact (construction_is_idempotent 4%nat opts opts' sampleWorld H1).
Defined.

Lemma rerun_witness :
  let o := SpacingOptions (Some 20) (Some 30) (Some 5) in
  _getQuestionContainer 8 builtWorld (RefString "QID1") = Some (QElem 1%nat)
  ∧ timers builtWorld = []
  ∧ 4%nat ∈ _qsAll 8 (page builtWorld) (QElem 1%nat) (Dom.ByClass "StarsContainer")
  ∧ Dom.getAttribute (page builtWorld) 4%nat "data-starutils-built" = Some "1"
  ∧ ∃ w1, applySpacing 8 (RefString "QID1") (ArgObject o) builtWorld = Normal w1
          ∧ let w' := runTimers 8 w1 in
            Dom.childrenOf (page w') 4%nat = []
            ∧ Dom.querySelectorAll 8 (page w') 4%nat
                (Dom.ByTagClass "img" "starutils-star") = []
            ∧ Dom.getAttribute (page w') 4%nat "data-starutils-built" = Some "1".
Proof.
  intros o.
  assert (_getQuestionContainer 8 builtWorld (RefString "QID1") = Some (QElem 1%nat))
    as H0 by by_eval.
  assert (timers builtWorld = []) as Ht by by_eval.
  assert (4%nat ∈ _qsAll 8 (page builtWorld) (QElem 1%nat) (Dom.ByClass "StarsContainer"))
    as H1 by by_eval.
  assert (Dom.getAttribute (page builtWorld) 4%nat "data-starutils-built" = Some "1")
    as H2 by by_eval.
  repeat (split; [assumption|]).
  exact (applySpacing_again_empties_built_container 8 builtWorld (RefString "QID1")
           1%nat 4%nat o H0 Ht H1 H2).
Defined.




(** The label annotation of the sample page, evaluated: one flex wrapper
    with one pair of labels around the wrapper, after one call and after
    two. *)
Example labels_on_sample :
  let w1 := runTask 8 (LabelsTask (QElem 1%nat) "bad" "good") builtWorld in
  let w2 := runTask 8 (LabelsTask (QElem 1%nat) "bad" "good") w1 in
  Dom.childrenOf (page w1) 4%nat = [14%nat]
  ∧ Dom.childrenOf (page w1) 14%nat = [15; 8; 16]%nat
  ∧ length (page w2) = 17%nat
  ∧ Dom.querySelectorAll 8 (page w2) 1%nat (Dom.ByClass "star-flex-wrapper") = [14%nat]
  ∧ Dom.querySelectorAll 8 (page w2) 1%nat (Dom.ByTagClass "span" "star-label-left")
    = [15%nat]
  ∧ Dom.querySelectorAll 8 (page w2) 1%nat (Dom.ByTagClass "span" "star-label-right")
    = [16%nat].
Proof. vm_compute. done. Qed.

(** * Further properties *)

(** ** The check of enforceMinStar *)

Lemma alter_beyond {A} (f : A → A) (l : list A) (i : nat) :
  (length l ≤ i)%nat → alter f i l = l.
Proof.
  intros H. apply list_eq. intros j. rewrite list_lookup_alter.
  case_decide as E; [|done]. subst j. by rewrite lookup_ge_None_2.
Qed.

Lemma Forall2_same {A} (R : A → A → Prop) (l : list A) :
  (∀ x, R x x) → Forall2 R l l.
Proof. intros H. induction l; constructor; auto. Qed.

Lemma Forall2_alter_r {A} (R : A → A → Prop) (f : A → A) (l : list A) (i : nat) :
  (∀ x, R x x) → (∀ x, R x (f x)) → Forall2 R l (alter f i l).
Proof.
  intros Hrefl Hf. revert i. induction l as [|x l IH]; intros i; [constructor|].
  destruct i as [|i]; cbn; constructor; auto using Forall2_same.
Qed.

Lemma toString_not_empty (z : Z) : Js.toString z ≠ EmptyString.
Proof.
  intros E. pose proof (parseInt_toString z) as H. rewrite E in H. discriminate H.
Qed.

Lemma getProp_setProp (d : dom) (n : nid) (k v : string) :
  (n < length d)%nat → Dom.getProp (Dom.setProp n k v d) n k = Some v.
Proof.
  intros H. unfold Dom.getProp, Dom.setProp.
  destruct (lookup_lt_is_Some_2 d n H) as [nd Hnd].
  rewrite (lookup_alter_Some _ _ _ _ Hnd). cbn. by rewrite lookup_insert_eq.
Qed.

(** X1. When the content of the field reads as a number [v] (the empty
    content reading as 0), [v] and the minimum being safe integers: below
    the minimum the check rewrites the field to the minimum, which then
    reads back as the minimum; otherwise the check changes nothing at
    all. *)
Theorem enforce_clamps_numbers (input : nid) (m v : Z) (w : world) :
  (input < length (page w))%nat →
  Js.safeInteger m →
  Js.safeInteger v →
  Js.parseInt (Js.orElse (default EmptyString (Dom.getProp (page w) input "value")) "0")
  = Some v →
  let w' := enforce input m w in
  (v < m → Dom.getProp (page w') input "value" = Some (Js.toString m)
           ∧ fieldNumber w' input = Some m)
  ∧ (m ≤ v → w' = w).
Proof.
  intros Hin _ _ Hv w'. unfold w', enforce. rewrite Hv. cbn [Js.lt]. split.
  - intros Hlt. rewrite (proj2 (Z.ltb_lt v m) Hlt). cbn [page set_page].
    unfold fieldNumber. cbn [page set_page].
    rewrite getProp_setProp by done. split; [done|]. apply parseInt_toString.
  - intros Hle. by rewrite (proj2 (Z.ltb_ge v m) Hle).
Qed.

(** X2. Running the check twice is the same as running it once, whatever
    the field holds. *)
Theorem enforce_idempotent (input : nid) (m : Z) (w : world) :
  enforce input m (enforce input m w) = enforce input m w.
Proof.
  destruct (Js.lt (Js.parseInt (Js.orElse
              (default EmptyString (Dom.getProp (page w) input "value")) "0")) m)
    eqn:Hlt.
  - assert (enforce input m w
            = set_page (Dom.setProp input "value" (Js.toString m) (page w)) w) as ->
      by (unfold enforce; by rewrite Hlt).
    unfold enforce. cbn [page set_page].
    destruct (decide (input < length (page w))%nat) as [Hin|Hout].
    + rewrite getProp_setProp by done.
      cbn [default from_option id]. unfold Js.orElse.
      rewrite bool_decide_eq_false_2 by apply toString_not_empty.
      rewrite parseInt_toString. cbn [Js.lt]. by rewrite Z.ltb_irrefl.
    + unfold Dom.setProp. rewrite !alter_beyond by lia. by rewrite Hlt.
  - assert (enforce input m w = w) as -> by (unfold enforce; by rewrite Hlt).
    unfold enforce. by rewrite Hlt.
Qed.

(** X3. A field whose content is not empty and in which [parseInt] finds no
    number is left as it is by the check, for every minimum. *)
Theorem enforce_ignores_text (input : nid) (m : Z) (s : string) (w : world) :
  Dom.getProp (page w) input "value" = Some s →
  s ≠ EmptyString →
  Js.parseInt s = None →
  enforce input m w = w ∧ fieldNumber (enforce input m w) input = None.
Proof.
  intros Hs Hne Hnan.
  assert (enforce input m w = w) as E.
  { unfold enforce. rewrite Hs. cbn [default from_option id].
    unfold Js.orElse. rewrite bool_decide_eq_false_2 by done. by rewrite Hnan. }
  rewrite E. split; [done|]. unfold fieldNumber. by rewrite Hs.
Qed.

(** X4. The check is silent: it dispatches no event, moves the selection of
    no control, and changes no node but in the properties of the field. *)
Theorem enforce_is_silent (input : nid) (m : Z) (w : world) :
  let w' := enforce input m w in
  ctrls w' = ctrls w
  ∧ Forall2 sameButProps (page w) (page w')
  ∧ (∀ x, x ≠ input → page w' !! x = page w !! x)
  ∧ ∀ x, dispatched <$> page w' !! x = dispatched <$> page w !! x.
Proof.
  intros w'. unfold w', enforce.
  destruct (Js.lt _ m).
  - cbn [ctrls page set_page]. unfold Dom.setProp. split; [done|]. split; [|split].
    + apply Forall2_alter_r; intros nd; unfold sameButProps; by destruct nd.
    + intros x Hx. by rewrite list_lookup_alter_ne.
    + intros x. rewrite list_lookup_alter. case_decide as E; [|done].
      subst x. by destruct (page w !! input).
  - split; [done|]. split; [|done].
    apply Forall2_same. intros nd. unfold sameButProps. by destruct nd.
Qed.

(** ** What listeners leave alone *)

Lemma Forall2_alter_both {A} (R : A → A → Prop) (f : A → A) (l l' : list A) (i : nat) :
  (∀ x y, R x y → R x (f y)) → Forall2 R l l' → Forall2 R l (alter f i l').
Proof.
  intros Hf H. revert i. induction H as [|x y l l' Hxy H IH]; intros i; [constructor|].
  destruct i as [|i]; cbn; constructor; auto.
Qed.

Lemma sameShape_refl (nd : node) : sameShape nd nd.
Proof. by repeat split. Qed.

Lemma sameShape_trans (a b c : node) : sameShape a b → sameShape b c → sameShape a c.
Proof.
  intros (H1 & H2 & H3 & H4 & H5) (G1 & G2 & G3 & G4 & G5).
  repeat split; congruence.
Qed.

Lemma sameButStyle_refl (nd : node) : sameButStyle nd nd.
Proof. unfold sameButStyle. by destruct nd. Qed.

Lemma sameButStyle_shape (a b : node) : sameButStyle a b → sameShape a b.
Proof. unfold sameButStyle. intros ->. by repeat split. Qed.

Lemma sameShapes_trans (d1 d2 d3 : dom) :
  Forall2 sameShape d1 d2 → Forall2 sameShape d2 d3 → Forall2 sameShape d1 d3.
Proof.
  intros H. revert d3. induction H as [|x y l l' Hxy H IH]; intros d3 G.
  - by inversion G.
  - inversion G as [|y' z l2 l3 Hyz G2]; subst. constructor.
    + by eapply sameShape_trans.
    + by apply IH.
Qed.

Lemma paint_sameButStyle (ss : list nid) (idx : nat) (v : Z) (d0 d : dom) :
  Forall2 sameButStyle d0 d → Forall2 sameButStyle d0 (paint ss idx v d).
Proof.
  revert idx d. induction ss as [|s r IH]; intros idx d H; [done|].
  cbn [paint]. apply IH. unfold Dom.setStyle. apply Forall2_alter_both; [|done].
  intros x y. unfold sameButStyle. intros ->. by destruct x.
Qed.

Lemma updateVisual_sameButStyle (k : cid) (v : Z) (w : world) :
  Forall2 sameButStyle (page w) (page (updateVisual k v w)).
Proof.
  unfold updateVisual. destruct (ctrls w !! k).
  - cbn [page set_page]. apply paint_sameButStyle.
    apply Forall2_same, sameButStyle_refl.
  - apply Forall2_same, sameButStyle_refl.
Qed.

Lemma sameButStyle_shapes (d d' : dom) :
  Forall2 sameButStyle d d' → Forall2 sameShape d d'.
Proof.
  intros H. eapply Forall2_impl; [exact H|]. intros a b. apply sameButStyle_shape.
Qed.

Lemma writeBack_shapes (depth : nat) (k : cid) (container : nid) (w : world) :
  Forall2 sameShape (page w) (page (writeBack depth k container w)).
Proof.
  unfold writeBack.
  destruct (Dom.closest _ _ _ _); [|apply Forall2_same, sameShape_refl].
  destruct (Dom.querySelector _ _ _ _); [|apply Forall2_same, sameShape_refl].
  cbn [page set_page]. unfold Dom.dispatchEvent, Dom.setProp.
  repeat (apply Forall2_alter_both;
          [intros x y (H1 & H2 & H3 & H4 & H5); by repeat split|]).
  apply Forall2_same, sameShape_refl.
Qed.

(** X5. No listener restructures the page: after a listener has run, every
    node has the tag, classes, attributes, parent and children it had, and
    no node was added or removed. *)
Theorem listeners_keep_the_tree (depth : nat) (l : listener) (w : world) :
  Forall2 sameShape (page w) (page (fire depth l w)).
Proof.
  destruct l as [k i|k|k c i|input m]; cbn [fire].
  - apply sameButStyle_shapes, updateVisual_sameButStyle.
  - apply sameButStyle_shapes, updateVisual_sameButStyle.
  - rewrite onClick_unfold. cbv zeta.
    eapply sameShapes_trans; [|apply sameButStyle_shapes, updateVisual_sameButStyle].
    apply (writeBack_shapes depth k c (setSelectedValue k i w)).
  - unfold enforce. destruct (Js.lt _ _); [|apply Forall2_same, sameShape_refl].
    cbn [page set_page]. unfold Dom.setProp.
    apply Forall2_alter_r; [apply sameShape_refl|]. intros nd. by repeat split.
Qed.

(** X6. [setSelected(v)] records [v] and paints the icons for [v], and does
    nothing else: it changes the style of nodes only, so it neither writes
    the native field nor dispatches an event. *)
Theorem setSelected_paints_only (k : cid) (v : Z) (w : world) (icons : list nid) :
  controlOk w k icons →
  let w' := setSelected k v w in
  selectedOf w' k = v
  ∧ (∀ idx s, icons !! idx = Some s →
       Dom.getStyle (page w') s "opacity" = Some (opacityAt v idx))
  ∧ Forall2 sameButStyle (page w) (page w').
Proof.
  intros Hok w'. unfold w', setSelected.
  pose proof (setSelectedValue_controlOk k k v w icons Hok) as Hok'.
  destruct (controlOk_inv w k icons Hok) as ([v0 Hk] & _).
  split; [|split].
  - rewrite hover_selectedOf. by eapply setSelectedValue_selectedOf.
  - intros idx s Hs. by eapply updateVisual_opacity.
  - apply (updateVisual_sameButStyle k v (setSelectedValue k v w)).
Qed.



(** ** A click followed by the check *)

Lemma enforce_field {A} (f : node → A) (input : nid) (m : Z) (w : world) (x : nid) :
  (∀ p nd, f (set_props p nd) = f nd) →
  f <$> page (enforce input m w) !! x = f <$> page w !! x.
Proof.
  intros Hf. unfold enforce. destruct (Js.lt _ _); [|done].
  cbn [page set_page]. unfold Dom.setProp. rewrite list_lookup_alter.
  case_decide as E; [|done]. subst x.
  destruct (page w !! input) as [nd|]; [|done]. cbn. by rewrite Hf.
Qed.

Lemma onClick_field (depth : nat) (w : world) (k : cid) (icons : list nid)
    (container tr input : nid) (i : Z) :
  controlOk w k icons →
  Dom.closest depth (page w) container "tr" = Some tr →
  Dom.querySelector depth (page w) tr (Dom.ByClass "ResultsInput") = Some input →
  Dom.getProp (page (onClick depth k container i w)) input "value"
  = Some (Js.toString i)
  ∧ (input < length (page (onClick depth k container i w)))%nat.
Proof.
  intros Hok Htr Hin.
  destruct (controlOk_inv w k icons Hok) as ([v0 Hk] & _).
  destruct (matches_is_Some _ _ _ (querySelector_matches _ _ _ _ _ Hin)) as [nd Hnd].
  rewrite onClick_unfold. cbv zeta.
  set (w0 := setSelectedValue k i w).
  assert (selectedOf w0 k = i) as Hsel0 by (by eapply setSelectedValue_selectedOf).
  assert (page (writeBack depth k container w0)
          = Dom.dispatchEvent input (Event "change" true)
              (Dom.dispatchEvent input (Event "input" true)
                 (Dom.setProp input "value" (Js.toString i) (page w)))) as Hwb.
  { unfold writeBack. cbn [page w0 setSelectedValue set_ctrls].
    rewrite Htr, Hin. cbn [page set_page]. by rewrite Hsel0. }
  split.
  - unfold Dom.getProp.
    pose proof (updateVisual_field props k
                  (selectedOf (writeBack depth k container w0) k)
                  (writeBack depth k container w0) input (λ _ _, eq_refl)) as Hf.
    rewrite Hwb in Hf. unfold Dom.dispatchEvent, Dom.setProp in Hf.
    rewrite !list_lookup_alter_eq, Hnd in Hf. cbn in Hf.
    destruct (page (updateVisual k _ (writeBack depth k container w0)) !! input)
      as [nd'|]; [|done].
    cbn in Hf |- *. injection Hf as ->. by rewrite lookup_insert_eq.
  - rewrite updateVisual_length, writeBack_length. cbn [page w0 setSelectedValue set_ctrls].
    by eapply lookup_lt_Some.
Qed.

(** X9. A click on icon [i] followed by the check with minimum [m], in a
    row with a native value field: with [m] at most [i] the check changes
    nothing; with [m] above [i] the field is rewritten to [m], while the
    selected value and the painted icons still show [i]. *)
Theorem activation_then_check (depth : nat) (w : world) (k : cid)
    (icons : list nid) (container tr input : nid) (i m : Z) :
  controlOk w k icons →
  Dom.closest depth (page w) container "tr" = Some tr →
  Dom.querySelector depth (page w) tr (Dom.ByClass "ResultsInput") = Some input →
  let w1 := fire depth (OnClick k container i) w in
  let w2 := fire depth (OnEnforce input m) w1 in
  selectedOf w2 k = i
  ∧ (∀ idx s, icons !! idx = Some s →
       Dom.getStyle (page w2) s "opacity" = Some (opacityAt i idx))
  ∧ (m ≤ i → w2 = w1)
  ∧ (i < m → Dom.getProp (page w2) input "value" = Some (Js.toString m)).
Proof.
  intros Hok Htr Hin w1 w2. unfold w2, w1. cbn [fire].
  destruct (onClick_field depth w k icons container tr input i Hok Htr Hin)
    as [Hval Hlt].
  pose proof (onClick_selectedOf depth k container i w icons Hok) as Hsel.
  set (w' := onClick depth k container i w) in *.
  assert (Js.parseInt (Js.orElse (default EmptyString
            (Dom.getProp (page w') input "value")) "0") = Some i) as Hparse.
  { rewrite Hval. cbn [default from_option id]. unfold Js.orElse.
    rewrite bool_decide_eq_false_2 by apply toString_not_empty.
    apply parseInt_toString. }
  split; [|split; [|split]].
  - unfold selectedOf. rewrite enforce_ctrls. exact Hsel.
  - intros idx s Hs. unfold Dom.getStyle.
    pose proof (enforce_field style input m w' s (λ _ _, eq_refl)) as Hf.
    assert (Dom.getStyle (page w') s "opacity" = Some (opacityAt i idx)) as Hop.
    { unfold w'. rewrite onClick_unfold. cbv zeta.
      set (w0 := writeBack depth k container (setSelectedValue k i w)).
      assert (selectedOf w0 k = i) as ->.
      { unfold selectedOf, w0. rewrite writeBack_ctrls.
        destruct (controlOk_inv w k icons Hok) as ([v0 Hk] & _).
        by apply (setSelectedValue_selectedOf k i w _ Hk). }
      eapply updateVisual_opacity; [|done].
      apply writeBack_controlOk. by apply setSelectedValue_controlOk. }
    unfold Dom.getStyle in Hop.
    destruct (page (enforce input m w') !! s) as [a|];
      destruct (page w' !! s) as [b|]; cbn in *; try done. by injection Hf as ->.
  - intros Hle. unfold enforce. rewrite Hparse. cbn [Js.lt].
    by rewrite (proj2 (Z.ltb_ge i m) Hle).
  - intros Hlt'. unfold enforce. rewrite Hparse. cbn [Js.lt].
    rewrite (proj2 (Z.ltb_lt i m) Hlt'). cbn [page set_page].
    by apply getProp_setProp.
Qed.

(** ** A user's click *)

Lemma alter_keeps {A} (f : node → A) (g : node → node) (n x : nid) (d : dom) :
  (∀ nd, f (g nd) = f nd) → f <$> alter g n d !! x = f <$> d !! x.
Proof.
  intros Hf. rewrite list_lookup_alter. case_decide as E; [subst x|done].
  destruct (d !! n); cbn; [by rewrite Hf|done].
Qed.

Lemma writeBack_field {A} (f : node → A) depth k container w (x : nid) :
  (∀ p nd, f (set_props p nd) = f nd) →
  (∀ e nd, f (set_dispatched e nd) = f nd) →
  f <$> page (writeBack depth k container w) !! x = f <$> page w !! x.
Proof.
  intros Hp He. unfold writeBack. destruct (Dom.closest _ _ _ _); [|done].
  destruct (Dom.querySelector _ _ _ _); [|done]. cbn [page set_page].
  unfold Dom.dispatchEvent, Dom.setProp. by rewrite !alter_keeps.
Qed.

(** Listeners run; they register nothing. *)
Lemma fire_listenersOf depth (l : listener) (w : world) (x : nid) (type : string) :
  Dom.listenersOf (page (fire depth l w)) x type = Dom.listenersOf (page w) x type.
Proof.
  unfold Dom.listenersOf. f_equal. f_equal. f_equal.
  destruct l as [k i|k|k c i|input m]; cbn [fire].
  - by apply updateVisual_field.
  - by apply updateVisual_field.
  - rewrite onClick_unfold. cbv zeta. rewrite updateVisual_field by done.
    by rewrite writeBack_field.
  - by apply enforce_field.
Qed.

Lemma fires_listenersOf depth (ls : list listener) (w : world) (x : nid) (type : string) :
  Dom.listenersOf (page (foldl (λ w l, fire depth l w) w ls)) x type
  = Dom.listenersOf (page w) x type.
Proof.
  revert w. induction ls as [|l ls IH]; intros w; [done|].
  cbn [foldl]. by rewrite IH, fire_listenersOf.
Qed.

(** The listeners that a dispatch runs are those the nodes of the path have
    when it starts, in the order of the path. *)
Lemma dispatch_flat_from depth (type : string) (registered : nid → list listener)
    (path : list nid) (w : world) :
  (∀ n, Dom.listenersOf (page w) n type = registered n) →
  foldl (runListeners depth type) w path
  = foldl (λ w l, fire depth l w) w (path ≫= registered).
Proof.
  revert w. induction path as [|a path IH]; intros w Hr; [done|].
  cbn [foldl]. rewrite bind_cons, foldl_app. unfold runListeners at 2.
  rewrite Hr. apply IH. intros n. by rewrite fires_listenersOf.
Qed.

Lemma dispatch_flat depth (type : string) (path : list nid) (w : world) :
  foldl (runListeners depth type) w path
  = foldl (λ w l, fire depth l w) w
      (path ≫= λ n, Dom.listenersOf (page w) n type).
Proof. by apply dispatch_flat_from. Qed.

(** The checks of one field, run one after the other on a field that holds
    a number, leave in it the greatest of that number and their minima, and
    change nothing else. *)
Lemma checks_field depth (input : nid) (ms : list Z) (w : world) (v : Z) :
  Dom.getProp (page w) input "value" = Some (Js.toString v) →
  let w' := foldl (λ w l, fire depth l w) w (OnEnforce input <$> ms) in
  Dom.getProp (page w') input "value" = Some (Js.toString (foldl Z.max v ms))
  ∧ ctrls w' = ctrls w
  ∧ (∀ x, style <$> page w' !! x = style <$> page w !! x)
  ∧ ∀ x, dispatched <$> page w' !! x = dispatched <$> page w !! x.
Proof.
  revert w v. induction ms as [|m ms IH]; intros w v Hv; [done|].
  cbn [fmap list_fmap foldl fire].
  assert (Js.parseInt (Js.orElse (Js.toString v) "0") = Some v) as Hp.
  { unfold Js.orElse. rewrite bool_decide_eq_false_2 by apply toString_not_empty.
    apply parseInt_toString. }
  assert (Dom.getProp (page (enforce input m w)) input "value"
          = Some (Js.toString (Z.max v m))) as Hv'.
  { destruct (Z.lt_ge_cases v m) as [Hlt|Hge].
    - rewrite Z.max_r by lia. by apply (enforce_below input m v (Js.toString v) w).
    - rewrite Z.max_l by lia.
      by rewrite (enforce_at_least input m v (Js.toString v) w). }
  destruct (IH (enforce input m w) (Z.max v m) Hv') as (H1 & H2 & H3 & H4).
  split; [exact H1|]. split; [by rewrite H2, enforce_ctrls|]. split.
  - intros x. rewrite H3. by apply enforce_field.
  - intros x. rewrite H4. by apply enforce_field.
Qed.

(** C1 (amended). A click on the icon of 1-based index [i] of a constructed
    control, in a row that has a native value field.  The click runs the
    listener that the construction registered on the icon, then bubbles to
    the ancestors of the icon, where [enforceMinStar] may have registered
    checks of the field, of minima [ms] (safe integers).  Exactly the icons
    of index at most [i] become active and the others dimmed; an [input]
    then a [change] event, both bubbling, are dispatched on the field; and
    the field holds the greatest of [i] and the minima, hence [i] when no
    check is registered or no minimum exceeds [i]. *)
Theorem click_selects_and_stores (depth : nat) (w : world) (k : cid)
    (icons : list nid) (idx : nat) (s container tr input : nid) (ms : list Z) :
  let i := Z.of_nat idx + 1 in
  controlOk w k icons →
  icons !! idx = Some s →
  Dom.listenersOf (page w) s "click" = [OnClick k container i] →
  Dom.closest depth (page w) container "tr" = Some tr →
  Dom.querySelector depth (page w) tr (Dom.ByClass "ResultsInput") = Some input →
  Dom.ancestors (page w) s ≫= (λ a, Dom.listenersOf (page w) a "click")
  = OnEnforce input <$> ms →
  Forall Js.safeInteger ms →
  let w' := click depth s w in
  let held := foldl Z.max i ms in
  selectedOf w' k = i
  ∧ (∀ j t, icons !! j = Some t →
       Dom.getStyle (page w') t "opacity"
       = Some (if Z.of_nat j + 1 <=? i then "1" else "0.35"))
  ∧ Dom.getProp (page w') input "value" = Some (Js.toString held)
  ∧ fieldNumber w' input = Some held
  ∧ (Forall (λ m, m ≤ i) ms → held = i)
  ∧ dispatched <$> page w' !! input
    = (λ nd, dispatched nd ++ [Event "input" true; Event "change" true])
      <$> page w !! input.
Proof.
  intros i Hok Hs Hown Htr Hin Hup _ w' held.
  assert (1 ≤ i ≤ Z.of_nat (length icons)) as Hi.
  { apply lookup_lt_Some in Hs. unfold i. lia. }
  destruct (onClick_shows_and_stores depth w k icons container tr input i
              Hok Hi Htr Hin) as (Hsel & Hop & Hval & _ & Hev).
  cbv zeta in Hsel, Hop, Hval, Hev. cbn [fire] in Hsel, Hop, Hval, Hev.
  assert (w' = foldl (λ w l, fire depth l w) (onClick depth k container i w)
                 (OnEnforce input <$> ms)) as ->.
  { unfold w', click, dispatchBubbling. rewrite dispatch_flat.
    by rewrite bind_cons, Hown, Hup. }
  destruct (checks_field depth input ms (onClick depth k container i w) i Hval)
    as (Hv & Hc & Hst & Hd).
  cbv zeta in Hv, Hc, Hst, Hd. fold held in Hv.
  split; [|split; [|split; [|split; [|split]]]].
  - unfold selectedOf in *. by rewrite Hc.
  - intros j t Ht. specialize (Hop j t Ht). specialize (Hst t).
    unfold Dom.getStyle in *.
    destruct (page (foldl _ _ _) !! t) as [a|], (page (onClick _ _ _ _ _) !! t) as [b|];
      cbn in *; try done. by injection Hst as ->.
  - exact Hv.
  - unfold fieldNumber. rewrite Hv. cbn. apply parseInt_toString.
  - intros Hall. unfold held. clear -Hall. revert Hall. generalize i as v.
    induction ms as [|m ms IH]; intros v Hall; [done|].
    apply Forall_cons in Hall as [Hm Hall]. cbn [foldl]. rewrite Z.max_l by lia.
    by apply IH.
  - by rewrite Hd.
Qed.

(** C1, as stated, fails.  On the sample page, after
    [applySpacing('QID1', {spacing: 20, starSize: 30, numStars: 5})] and
    [enforceMinStar('QID1', 2)] and once their timers have fired, a click
    on the first icon (node 9, whose click listener is that of index 1)
    shows one active icon, but the click bubbles to the container, where
    the check of the field is registered: the field holds 2, not 1. *)
Lemma click_below_minimum_stores_minimum :
  ∃ w1 w2,
    applySpacing 8 (RefString "QID1")
      (ArgObject (SpacingOptions (Some 20) (Some 30) (Some 5))) sampleWorld = Normal w1
    ∧ enforceMinStar 8 (RefString "QID1") (Some 2) w1 = Normal w2
    ∧ let w := runTimers 8 w2 in
      let w' := click 8 9%nat w in
      Dom.listenersOf (page w) 9%nat "click" = [OnClick 0%nat 4%nat 1]
      ∧ Dom.closest 8 (page w) 4%nat "tr" = Some 2%nat
      ∧ Dom.querySelector 8 (page w) 2%nat (Dom.ByClass "ResultsInput") = Some 7%nat
      ∧ selectedOf w' 0%nat = 1
      ∧ (λ s, Dom.getStyle (page w') s "opacity") <$> [9; 10; 11; 12; 13]%nat
        = [Some "1"; Some "0.35"; Some "0.35"; Some "0.35"; Some "0.35"]
      ∧ Dom.getProp (page w') 7%nat "value" = Some "2"
      ∧ fieldNumber w' 7%nat = Some 2
      ∧ fieldNumber w' 7%nat ≠ Some 1.
Proof.
  eexists _, _. split; [vm_compute; reflexivity|]. split; [vm_compute; reflexivity|].
  vm_compute. repeat split; congruence.
Qed.

(** ** Queries and well-formedness depend on the shape only *)

Lemma shapes_lookup (d d' : dom) (x : nid) :
  Forall2 sameShape d d' →
  match d !! x, d' !! x with
  | Some nd, Some nd' => sameShape nd nd'
  | None, None => True
  | _, _ => False
  end.
Proof.
  intros H. revert x. induction H as [|a b l l' Hab H IH]; intros x; [done|].
  destruct x as [|x]; [exact Hab|apply IH].
Qed.

Lemma shapes_length (d d' : dom) : Forall2 sameShape d d' → length d = length d'.
Proof. apply Forall2_length. Qed.

Lemma childrenOf_shapes (d d' : dom) (x : nid) :
  Forall2 sameShape d d' → Dom.childrenOf d' x = Dom.childrenOf d x.
Proof.
  intros H. pose proof (shapes_lookup d d' x H) as G. unfold Dom.childrenOf.
  destruct (d !! x), (d' !! x); try done. cbn. apply G.
Qed.

Lemma parentOf_shapes (d d' : dom) (x : nid) :
  Forall2 sameShape d d' → Dom.parentOf d' x = Dom.parentOf d x.
Proof.
  intros H. pose proof (shapes_lookup d d' x H) as G. unfold Dom.parentOf.
  destruct (d !! x), (d' !! x); try done. cbn. apply G.
Qed.

Lemma matches_shapes (d d' : dom) (sel : Dom.selector) (x : nid) :
  Forall2 sameShape d d' → Dom.matches d' sel x = Dom.matches d sel x.
Proof.
  intros H. pose proof (shapes_lookup d d' x H) as G. unfold Dom.matches.
  destruct (d !! x), (d' !! x); try done.
  destruct G as (G1 & G2 & _). unfold Dom.matchesNode. by rewrite G1, G2.
Qed.

Lemma getAttribute_shapes (d d' : dom) (x : nid) (k : string) :
  Forall2 sameShape d d' → Dom.getAttribute d' x k = Dom.getAttribute d x k.
Proof.
  intros H. pose proof (shapes_lookup d d' x H) as G. unfold Dom.getAttribute.
  destruct (d !! x), (d' !! x); try done. cbn.
  destruct G as (_ & _ & G3 & _). by rewrite G3.
Qed.

Lemma descendants_shapes (depth : nat) (d d' : dom) (n : nid) :
  Forall2 sameShape d d' → Dom.descendants depth d' n = Dom.descendants depth d n.
Proof.
  intros H. revert n. induction depth as [|k IH]; intros n; [done|].
  cbn [Dom.descendants]. rewrite (childrenOf_shapes d d' n H).
  induction (Dom.childrenOf d n) as [|c r IHr]; [done|].
  cbn. by rewrite IH, IHr.
Qed.

Lemma querySelectorAll_shapes (depth : nat) (d d' : dom) (n : nid) (sel : Dom.selector) :
  Forall2 sameShape d d' →
  Dom.querySelectorAll depth d' n sel = Dom.querySelectorAll depth d n sel.
Proof.
  intros H. unfold Dom.querySelectorAll. rewrite (descendants_shapes depth d d' n H).
  apply list_filter_iff. intros x. by rewrite (matches_shapes d d' sel x H).
Qed.

Lemma querySelector_shapes (depth : nat) (d d' : dom) (n : nid) (sel : Dom.selector) :
  Forall2 sameShape d d' →
  Dom.querySelector depth d' n sel = Dom.querySelector depth d n sel.
Proof.
  intros H. unfold Dom.querySelector.
  by rewrite (querySelectorAll_shapes depth d d' n sel H).
Qed.

Lemma closest_shapes (depth : nat) (d d' : dom) (n : nid) (tag : string) :
  Forall2 sameShape d d' → Dom.closest depth d' n tag = Dom.closest depth d n tag.
Proof.
  intros H. revert n. induction depth as [|k IH]; intros n; [done|].
  cbn [Dom.closest]. rewrite (matches_shapes d d' _ n H), (parentOf_shapes d d' n H).
  destruct (Dom.matches d (Dom.ByTag tag) n); [done|].
  destruct (Dom.parentOf d n); [apply IH|done].
Qed.

Lemma wellFormed_shapes (d d' : dom) :
  Forall2 sameShape d d' → wellFormed d → wellFormed d'.
Proof.
  intros H Hwf p c.
  rewrite (childrenOf_shapes d d' p H), (parentOf_shapes d d' c H). apply Hwf.
Qed.

(** X10. Listeners keep a well-formed page well formed, and after any
    listener has run, [closest] and [querySelectorAll] find what they found
    before: a click always reaches the same row and the same field. *)
Theorem listeners_keep_lookups (depth fuel : nat) (l : listener) (w : world) :
  let w' := fire depth l w in
  (wellFormed (page w) → wellFormed (page w'))
  ∧ (∀ n tag, Dom.closest fuel (page w') n tag = Dom.closest fuel (page w) n tag)
  ∧ (∀ n sel, Dom.querySelectorAll fuel (page w') n sel
              = Dom.querySelectorAll fuel (page w) n sel).
Proof.
  intros w'.
  assert (Forall2 sameShape (page w) (page w')) as H.
  { unfold w'. destruct l as [k i|k|k c i|input m]; cbn [fire].
    - apply sameButStyle_shapes, updateVisual_sameButStyle.
    - apply sameButStyle_shapes, updateVisual_sameButStyle.
    - rewrite onClick_unfold. cbv zeta.
      eapply sameShapes_trans; [|apply sameButStyle_shapes, updateVisual_sameButStyle].
      apply (writeBack_shapes depth k c (setSelectedValue k i w)).
    - unfold enforce. destruct (Js.lt _ _); [|apply Forall2_same, sameShape_refl].
      cbn [page set_page]. unfold Dom.setProp.
      apply Forall2_alter_r; [apply sameShape_refl|]. intros nd. by repeat split. }
  split; [by apply wellFormed_shapes|]. split.
  - intros n tag. by apply closest_shapes.
  - intros n sel. by apply querySelectorAll_shapes.
Qed.

(** ** Registering the minimum check *)

Lemma Forall2_compose {A} (R : A → A → Prop) (l1 l2 l3 : list A) :
  (∀ x y z, R x y → R y z → R x z) →
  Forall2 R l1 l2 → Forall2 R l2 l3 → Forall2 R l1 l3.
Proof.
  intros HR H. revert l3. induction H as [|x y l l' Hxy H IH]; intros l3 G.
  - by inversion G.
  - inversion G as [|y' z l2' l3' Hyz G2]; subst. constructor; eauto.
Qed.

Lemma listenersGrow_refl (nd : node) : listenersGrow nd nd.
Proof. split; [by destruct nd|done]. Qed.

Lemma listenersGrow_trans (a b c : node) :
  listenersGrow a b → listenersGrow b c → listenersGrow a c.
Proof.
  intros [H1 P1] [H2 P2]. split; [|by etrans].
  unfold sameButListeners, set_listeners in *. destruct a, b, c; cbn in *. congruence.
Qed.

Lemma listenersGrow_shape (a b : node) : listenersGrow a b → sameShape a b.
Proof. intros [H _]. unfold sameButListeners in H. rewrite H. by repeat split. Qed.

Lemma listenersGrow_shapes (d d' : dom) :
  Forall2 listenersGrow d d' → Forall2 sameShape d d'.
Proof. intros H. eapply Forall2_impl; [exact H|]. apply listenersGrow_shape. Qed.

Lemma addEventListener_grows (n : nid) (type : string) (l : listener) (d : dom) :
  Forall2 listenersGrow d (Dom.addEventListener n type l d).
Proof.
  unfold Dom.addEventListener. apply Forall2_alter_r; [apply listenersGrow_refl|].
  intros nd. split; [by destruct nd|]. cbn. by apply prefix_app_r.
Qed.



Lemma watchRow_grows depth (m : Z) (d : dom) (tr : nid) :
  Forall2 listenersGrow d (watchRow depth m d tr).
Proof.
  unfold watchRow.
  destruct (Dom.querySelector depth d tr _) as [input|];
    [|apply Forall2_same, listenersGrow_refl].
  cbv zeta. destruct (Dom.querySelector depth _ tr _) as [c|];
    [|apply addEventListener_grows].
  eapply Forall2_compose; [apply listenersGrow_trans| |];
    apply addEventListener_grows.
Qed.

Lemma watchRows_grow depth (m : Z) (rows : list nid) (d : dom) :
  Forall2 listenersGrow d (foldl (watchRow depth m) d rows).
Proof.
  revert d. induction rows as [|tr rows IH]; intros d;
    [apply Forall2_same, listenersGrow_refl|].
  cbn [foldl]. eapply Forall2_compose;
    [apply listenersGrow_trans|apply watchRow_grows|apply IH].
Qed.




(** ** Removing the native stars *)

Lemma length_unlink (l : list nid) (d : dom) :
  length (foldr (λ c acc, alter (set_parentNode None) c acc) d l) = length d.
Proof. induction l as [|x l IH]; [done|]. cbn [foldr]. by rewrite length_alter. Qed.

Lemma removeNativeParts_length depth (c : nid) (ps : list Dom.selector) (d : dom) :
  length (foldl (removeNativePart depth c) d ps) = length d.
Proof.
  revert d. induction ps as [|s ps IHp]; intros d; [done|]. cbn [foldl]. rewrite IHp.
  unfold removeNativePart. destruct (Dom.querySelector _ _ _ _); [|done].
  destruct (Dom.parentOf _ _); [|done]. unfold Dom.removeChild.
  by rewrite !length_alter.
Qed.

Lemma stripContainer_length depth (d : dom) (c : nid) :
  length (stripContainer depth d c) = length d.
Proof.
  unfold stripContainer, Dom.setStyle, Dom.clearChildren.
  by rewrite !length_alter, length_unlink, removeNativeParts_length.
Qed.

Lemma strip_all_length depth (cs : list nid) (d : dom) :
  length (foldl (stripContainer depth) d cs) = length d.
Proof.
  revert d. induction cs as [|c r IH]; intros d; [done|].
  cbn [foldl]. by rewrite IH, stripContainer_length.
Qed.

Lemma stripContainer_empties depth (d : dom) (c : nid) :
  (c < length d)%nat →
  nodeSat isEmptied (stripContainer depth d c) c.
Proof.
  intros Hc. unfold stripContainer, Dom.setStyle, Dom.clearChildren.
  set (d1 := foldr _ _ _).
  assert (length d1 = length d) as H2.
  { unfold d1. by rewrite length_unlink, removeNativeParts_length. }
  destruct (lookup_lt_is_Some_2 d1 c) as [nd Hnd]; [lia|].
  unfold nodeSat. rewrite !list_lookup_alter_eq, Hnd. cbn.
  eexists; split; [done|]. unfold isEmptied. cbn. split; [done|].
  apply lookup_insert_eq.
Qed.

Lemma stripContainer_keeps_empty depth (d : dom) (c' c : nid) :
  nodeSat isEmptied d c → nodeSat isEmptied (stripContainer depth d c') c.
Proof.
  intros H. unfold stripContainer, Dom.setStyle.
  apply nodeSat_alter.
  { intros nd [Hc Hs]. split; [done|]. cbn.
    rewrite lookup_insert. case_decide; done. }
  apply (clearChildren_kept isEmptied); [by intros v nd [? ?]|by intros nd [? ?]|].
  induction nativeParts as [|s r IH] using rev_ind; [done|].
  rewrite foldl_app. cbn [foldl]. apply (removeNativePart_kept isEmptied); [by intros v nd [? ?]| |done].
  intros x nd [Hc Hs]. split; [|done]. cbn. by rewrite Hc.
Qed.

Lemma strip_all_keeps_empty depth (cs : list nid) (d : dom) (c : nid) :
  nodeSat isEmptied d c → nodeSat isEmptied (foldl (stripContainer depth) d cs) c.
Proof.
  revert d. induction cs as [|x r IH]; intros d H0; [done|].
  cbn [foldl]. by apply IH, stripContainer_keeps_empty.
Qed.

Lemma strip_all_empties depth (cs : list nid) (d : dom) (c : nid) :
  c ∈ cs → Forall (λ x, (x < length d)%nat) cs →
  nodeSat isEmptied (foldl (stripContainer depth) d cs) c.
Proof.
  revert d. induction cs as [|c' r IH]; intros d Hc Hv; [by apply elem_of_nil in Hc|].
  cbn [foldl]. apply Forall_cons in Hv as [Hv1 Hv2].
  apply elem_of_cons in Hc as [->|Hc].
  - by apply strip_all_keeps_empty, stripContainer_empties.
  - apply IH; [done|]. eapply Forall_impl; [exact Hv2|].
    intros x Hx. cbn. by rewrite stripContainer_length.
Qed.

(** X12. [removeNativeStars] leaves every stars container it finds under
    the root without any child (so nothing can be found below it any more)
    and with the background [none]. *)
Theorem removal_empties_containers (depth : nat) (n c : nid) (w : world) :
  c ∈ _qsAll depth (page w) (QElem n) (Dom.ByClass "StarsContainer") →
  let w' := removeNativeStars depth (RefElement n) w in
  Dom.childrenOf (page w') c = []
  ∧ Dom.getStyle (page w') c "background" = Some "none"
  ∧ ∀ sel, Dom.querySelectorAll depth (page w') c sel = [].
Proof.
  intros Hc w'.
  assert (page w' = foldl (stripContainer depth) (page w)
                      (Dom.querySelectorAll depth (page w) n (Dom.ByClass "StarsContainer")))
    as -> by reflexivity.
  cbn [_qsAll] in Hc.
  destruct (strip_all_empties depth _ (page w) c Hc) as (nd & Hnd & Hkids & Hbg).
  { apply querySelectorAll_valid. }
  assert (Dom.childrenOf
            (foldl (stripContainer depth) (page w)
               (Dom.querySelectorAll depth (page w) n (Dom.ByClass "StarsContainer"))) c
          = []) as Hch.
  { unfold Dom.childrenOf. by rewrite Hnd. }
  split; [done|]. split.
  - unfold Dom.getStyle. by rewrite Hnd.
  - intros sel. revert Hch. generalize (foldl (stripContainer depth) (page w)
      (Dom.querySelectorAll depth (page w) n (Dom.ByClass "StarsContainer"))) as d'.
    intros d' Hch. unfold Dom.querySelectorAll.
    by rewrite (descendants_childless depth _ c Hch).
Qed.

Lemma sameContent_refl (nd : node) : sameContent nd nd.
Proof. by repeat split. Qed.

Lemma removeNativeStars_content (depth : nat) (r : rootRef) (w : world) :
  let w' := removeNativeStars depth r w in
  length (page w') = length (page w)
  ∧ ctrls w' = ctrls w
  ∧ ∀ x nd, page w !! x = Some nd → nodeSat (sameContent nd) (page w') x.
Proof.
  intros w'. unfold w', removeNativeStars.
  destruct (_getQuestionContainer depth w r) as [q|].
  - cbn [page ctrls set_page]. split; [apply strip_all_length|]. split; [done|].
    intros x nd Hnd. apply strip_all_kept; try done.
    exists nd. split; [done|apply sameContent_refl].
  - split; [done|]. split; [done|]. intros x nd Hnd. exists nd.
    split; [done|apply sameContent_refl].
Qed.

(** X13. [removeNativeStars] unlinks nodes and restyles containers, and
    nothing else: the page keeps its nodes, each with its tag, classes,
    attributes (so a construction marker survives), properties (so the
    value of a results field survives) and listeners; no control changes. *)
Theorem removal_keeps_content (depth : nat) (r : rootRef) (w : world) :
  let w' := removeNativeStars depth r w in
  length (page w') = length (page w)
  ∧ ctrls w' = ctrls w
  ∧ ∀ x nd, page w !! x = Some nd → nodeSat (sameContent nd) (page w') x.
Proof. apply removeNativeStars_content. Qed.

(** ** The callbacks keep the page a tree *)

Lemma childrenOf_alter_same (f : node → node) (n x : nid) (d : dom) :
  (∀ nd, childNodes (f nd) = childNodes nd) →
  Dom.childrenOf (alter f n d) x = Dom.childrenOf d x.
Proof.
  intros Hf. unfold Dom.childrenOf. rewrite list_lookup_alter.
  case_decide as E; [subst n|done]. destruct (d !! x); cbn; [by rewrite Hf|done].
Qed.

Lemma parentOf_alter_same (f : node → node) (n x : nid) (d : dom) :
  (∀ nd, parentNode (f nd) = parentNode nd) →
  Dom.parentOf (alter f n d) x = Dom.parentOf d x.
Proof.
  intros Hf. unfold Dom.parentOf. rewrite list_lookup_alter.
  case_decide as E; [subst n|done]. destruct (d !! x); cbn; [by rewrite Hf|done].
Qed.

Lemma childrenOf_set (g : list nid → list nid) (n x : nid) (d : dom) :
  (n < length d)%nat →
  Dom.childrenOf (alter (λ nd, set_childNodes (g (childNodes nd)) nd) n d) x
  = if decide (x = n) then g (Dom.childrenOf d n) else Dom.childrenOf d x.
Proof.
  intros Hn. unfold Dom.childrenOf. rewrite list_lookup_alter.
  destruct (decide (n = x)) as [->|E].
  - rewrite decide_True by done. destruct (lookup_lt_is_Some_2 d x Hn) as [nd ->]. done.
  - by rewrite decide_False by done.
Qed.

Lemma parentOf_unlinked (n x : nid) (d : dom) :
  Dom.parentOf (alter (set_parentNode None) n d) x
  = if decide (x = n) then None else Dom.parentOf d x.
Proof.
  unfold Dom.parentOf. rewrite list_lookup_alter.
  destruct (decide (n = x)) as [->|E].
  - rewrite decide_True by done. by destruct (d !! x).
  - by rewrite decide_False by done.
Qed.

Lemma wellFormed_removeChild (p c : nid) (d : dom) :
  wellFormed d → Dom.parentOf d c = Some p → wellFormed (Dom.removeChild p c d).
Proof.
  intros Hwf Hpar.
  destruct (wellFormed_parent d p c Hwf Hpar) as (Hin & Hc & Hp & Hne).
  intros p0 c0. unfold Dom.removeChild.
  rewrite childrenOf_alter_same by done.
  rewrite (childrenOf_set (Dom.without c)) by done.
  rewrite parentOf_unlinked, parentOf_alter_same by done.
  destruct (Hwf p0 c0) as [Hiff Hself]. unfold Dom.without.
  destruct (decide (c0 = c)) as [->|Hc0].
  - split; [|done]. split; [|done]. case_decide as E.
    + rewrite list_elem_of_filter. by intros [? _].
    + intros H. apply Hiff in H. congruence.
  - split; [|done]. case_decide as E; [subst p0|done].
    rewrite list_elem_of_filter. rewrite <- Hiff. tauto.
Qed.

Lemma parentOf_unlink (l : list nid) (x : nid) (d : dom) :
  Dom.parentOf (foldr (λ c acc, alter (set_parentNode None) c acc) d l) x
  = if decide (x ∈ l) then None else Dom.parentOf d x.
Proof.
  induction l as [|a l IH]; cbn [foldr].
  - rewrite decide_False; [done|]. apply not_elem_of_nil.
  - rewrite parentOf_unlinked, IH. destruct (decide (x = a)) as [->|E].
    + rewrite decide_True; [done|]. apply elem_of_cons. by left.
    + destruct (decide (x ∈ l)) as [Hin|Hnin].
      * rewrite decide_True; [done|]. apply elem_of_cons. by right.
      * rewrite decide_False; [done|]. rewrite elem_of_cons. tauto.
Qed.

Lemma childrenOf_unlink (l : list nid) (x : nid) (d : dom) :
  Dom.childrenOf (foldr (λ c acc, alter (set_parentNode None) c acc) d l) x
  = Dom.childrenOf d x.
Proof.
  induction l as [|a l IH]; cbn [foldr]; [done|].
  by rewrite childrenOf_alter_same.
Qed.

Lemma childrenOf_cleared (n x : nid) (d : dom) :
  Dom.childrenOf (Dom.clearChildren n d) x
  = if decide (x = n) then [] else Dom.childrenOf d x.
Proof.
  unfold Dom.clearChildren. unfold Dom.childrenOf at 1. rewrite list_lookup_alter.
  destruct (decide (n = x)) as [->|E].
  - rewrite decide_True by done. by destruct (_ !! x).
  - rewrite decide_False by done. apply childrenOf_unlink.
Qed.

Lemma parentOf_cleared (n x : nid) (d : dom) :
  Dom.parentOf (Dom.clearChildren n d) x
  = if decide (x ∈ Dom.childrenOf d n) then None else Dom.parentOf d x.
Proof.
  unfold Dom.clearChildren. rewrite parentOf_alter_same by done. apply parentOf_unlink.
Qed.

Lemma wellFormed_clearChildren (n : nid) (d : dom) :
  wellFormed d → wellFormed (Dom.clearChildren n d).
Proof.
  intros Hwf p0 c0. rewrite childrenOf_cleared, parentOf_cleared.
  destruct (Hwf p0 c0) as [Hiff Hself]. destruct (Hwf n c0) as [Hiffn _].
  destruct (decide (c0 ∈ Dom.childrenOf d n)) as [Hin|Hnin].
  - split; [|done]. split; [|done]. case_decide as E; [by intros ?%elem_of_nil|].
    intros H. apply Hiff in H. apply Hiffn in Hin. congruence.
  - split; [|done]. case_decide as E; [subst p0|done].
    split; [by intros ?%elem_of_nil|]. intros H. by apply Hiffn in H.
Qed.

Lemma wellFormed_restyled (n : nid) (k v : string) (d : dom) :
  wellFormed d → wellFormed (Dom.setStyle n k v d).
Proof.
  apply wellFormed_shapes. unfold Dom.setStyle.
  apply Forall2_alter_r; [apply sameShape_refl|]. intros nd. by repeat split.
Qed.

Lemma wellFormed_removeNativePart depth (c : nid) (d : dom) (sel : Dom.selector) :
  wellFormed d → wellFormed (removeNativePart depth c d sel).
Proof.
  intros Hwf. unfold removeNativePart.
  destruct (Dom.querySelector _ _ _ _) as [x|]; [|done].
  destruct (Dom.parentOf d x) as [p|] eqn:Hp; [|done].
  by apply wellFormed_removeChild.
Qed.

Lemma wellFormed_stripContainer depth (d : dom) (c : nid) :
  wellFormed d → wellFormed (stripContainer depth d c).
Proof.
  intros Hwf. unfold stripContainer.
  apply wellFormed_restyled, wellFormed_clearChildren.
  induction nativeParts as [|s r IH] using rev_ind; [done|].
  rewrite foldl_app. cbn [foldl]. by apply wellFormed_removeNativePart.
Qed.

Lemma wellFormed_removeNativeStars depth (r : rootRef) (w : world) :
  wellFormed (page w) → wellFormed (page (removeNativeStars depth r w)).
Proof.
  intros Hwf. unfold removeNativeStars.
  destruct (_getQuestionContainer depth w r) as [q|]; [|done].
  cbv zeta. cbn [page set_page].
  generalize (_qsAll depth (page w) q (Dom.ByClass "StarsContainer")) as cs.
  intros cs. revert Hwf. generalize (page w) as d.
  induction cs as [|c cs IH]; intros d Hwf; [done|].
  cbn [foldl]. by apply IH, wellFormed_stripContainer.
Qed.

(** X14. [removeNativeStars] keeps a well-formed page well formed: child
    lists and parent links still agree once the native parts are unlinked
    and the containers emptied. *)
Theorem removal_keeps_wellFormed (depth : nat) (r : rootRef) (w : world) :
  wellFormed (page w) → wellFormed (page (removeNativeStars depth r w)).
Proof. apply wellFormed_removeNativeStars. Qed.

(** ** Construction and spacing keep the page a tree *)

Lemma wellFormed_range (d : dom) (p c : nid) :
  wellFormed d → Dom.parentOf d c = Some p → (c < length d)%nat ∧ (p < length d)%nat.
Proof. intros Hwf H. destruct (wellFormed_parent d p c Hwf H) as (_ & ? & ? & _). done. Qed.

Lemma wellFormed_adopt (d : dom) (c : nid) (wnode : node) (kids : list node) :
  wellFormed d → (c < length d)%nat →
  parentNode wnode = Some c →
  childNodes wnode = seq (S (length d)) (length kids) →
  Forall (λ nd, parentNode nd = Some (length d) ∧ childNodes nd = []) kids →
  wellFormed (alter (addChildren [length d]) c d ++ wnode :: kids).
Proof.
  intros Hwf Hc Hwp Hwc Hkids. set (L := length d) in *.
  set (d' := alter _ _ _ ++ _).
  assert (length (alter (addChildren [L]) c d) = L) as Hlen by by rewrite length_alter.
  assert (∀ x, Dom.childrenOf d' x
               = if decide (x = c) then Dom.childrenOf d c ++ [L]
                 else if decide (x < L)%nat then Dom.childrenOf d x
                 else if decide (x = L) then seq (S L) (length kids) else []) as Hch.
  { intros x. unfold d', Dom.childrenOf at 1.
    destruct (decide (x < L)%nat) as [Hx|Hx].
    - rewrite lookup_app_l by lia. fold (Dom.childrenOf (alter (addChildren [L]) c d) x).
      unfold addChildren. rewrite (childrenOf_set (λ l, l ++ [L])) by done.
      by case_decide.
    - rewrite decide_False by lia. rewrite lookup_app_r by lia. rewrite Hlen.
      destruct (decide (x = L)) as [->|Hne].
      + replace (L - L)%nat with O by lia. cbn. done.
      + destruct (x - L)%nat as [|j] eqn:Hj; [lia|]. cbn.
        destruct (kids !! j) as [nd|] eqn:Hnd; [|done]. cbn.
        by apply (Forall_lookup_1 _ _ _ _ Hkids) in Hnd as [_ ->]. }
  assert (∀ x, Dom.parentOf d' x
               = if decide (x < L)%nat then Dom.parentOf d x
                 else if decide (x = L) then Some c
                 else if decide (x < S L + length kids)%nat then Some L else None) as Hpa.
  { intros x. unfold d', Dom.parentOf at 1.
    destruct (decide (x < L)%nat) as [Hx|Hx].
    - rewrite lookup_app_l by lia. fold (Dom.parentOf (alter (addChildren [L]) c d) x).
      by rewrite parentOf_alter_same.
    - rewrite lookup_app_r by lia. rewrite Hlen.
      destruct (decide (x = L)) as [->|Hne].
      + replace (L - L)%nat with O by lia. cbn. done.
      + destruct (x - L)%nat as [|j] eqn:Hj; [lia|].
        change ((wnode :: kids) !! S j) with (kids !! j).
        destruct (decide (x < S L + length kids)%nat) as [Hlt|Hge].
        * destruct (lookup_lt_is_Some_2 kids j) as [nd Hnd]; [lia|]. rewrite Hnd. cbn.
          by apply (Forall_lookup_1 _ _ _ _ Hkids) in Hnd as [-> _].
        * rewrite lookup_ge_None_2 by lia. done. }
  assert (∀ p x, x ∈ Dom.childrenOf d p → (x < L)%nat ∧ (p < L)%nat) as Hold.
  { intros p x Hx. destruct (wellFormed_child d p x Hwf Hx) as (_ & ? & ? & _). done. }
  intros p0 c0. rewrite Hch, Hpa. destruct (Hwf p0 c0) as [Hiff Hself].
  destruct (decide (c0 < L)%nat) as [Hc0|Hc0].
  - split; [|done]. rewrite <- Hiff. repeat case_decide; subst.
    + rewrite elem_of_app, list_elem_of_singleton. split; [|tauto]. intros [?|?]; [done|lia].
    + done.
    + rewrite elem_of_seq. split; [lia|]. intros H'. apply Hold in H'. lia.
    + split; [by intros ?%elem_of_nil|]. intros H'. apply Hold in H'. lia.
  - destruct (decide (c0 = L)) as [->|Hne].
    + split; [|intros [= <-]; lia]. repeat case_decide; subst; try lia.
      * rewrite elem_of_app, list_elem_of_singleton. split; [done|]. intros _. by right.
      * split; [|congruence]. intros H'. apply Hold in H'. lia.
      * rewrite elem_of_seq. split; [lia|congruence].
      * split; [by intros ?%elem_of_nil|congruence].
    + destruct (decide (c0 < S L + length kids)%nat) as [Hlt|Hge].
      * split; [|intros [= <-]; lia]. repeat case_decide; subst; try lia.
        -- rewrite elem_of_app, list_elem_of_singleton. split; [|intros [=]; lia].
           intros [H'|?]; [apply Hold in H'|]; lia.
        -- split; [|intros [=]; lia]. intros H'. apply Hold in H'. lia.
        -- rewrite elem_of_seq. split; [done|]. intros _. lia.
        -- split; [by intros ?%elem_of_nil|]. intros [=]. lia.
      * split; [|done]. split; [|done]. repeat case_decide; subst.
        -- rewrite elem_of_app, list_elem_of_singleton.
           intros [H'|?]; [apply Hold in H'|]; lia.
        -- intros H'. apply Hold in H'. lia.
        -- rewrite elem_of_seq. lia.
        -- by intros ?%elem_of_nil.
Qed.

Lemma wellFormed_alter (f : node → node) (n : nid) (d : dom) :
  (∀ nd, parentNode (f nd) = parentNode nd) →
  (∀ nd, childNodes (f nd) = childNodes nd) →
  wellFormed d → wellFormed (alter f n d).
Proof.
  intros Hp Hc Hwf p0 c0.
  rewrite childrenOf_alter_same, parentOf_alter_same by done. apply Hwf.
Qed.

Lemma starNodes_kids turns k wrapper container icon size i :
  Forall (λ nd, parentNode nd = Some wrapper ∧ childNodes nd = [])
    (starNodes turns k wrapper container icon size i).
Proof.
  revert i. induction turns as [|t IH]; intros i; cbn [starNodes]; constructor; auto.
Qed.

Lemma wellFormed_build (c : nid) (opts : buildOpts) (w : world) :
  wellFormed (page w) → (c < length (page w))%nat →
  wellFormed (page (fst (_buildCustomStarsForContainer (Some c) opts w))).
Proof.
  intros Hwf Hc.
  destruct (decide (Dom.getAttribute (page w) c "data-starutils-built" = Some "1"))
    as [Hm|Hm].
  - unfold _buildCustomStarsForContainer. by rewrite bool_decide_eq_true_2.
  - rewrite build_fresh by done. cbn [fst page].
    set (d0 := Dom.setAttribute c "data-starutils-built" "1" (page w)).
    assert (length d0 = length (page w)) as Hl
      by (unfold d0, Dom.setAttribute; by rewrite length_alter).
    assert (wellFormed d0) as Hwf0.
    { unfold d0, Dom.setAttribute. by apply wellFormed_alter. }
    rewrite <- Hl. apply wellFormed_adopt; try done.
    + lia.
    + cbn. by rewrite starNodes_length, Hl.
    + rewrite Hl. apply starNodes_kids.
Qed.

Lemma setStyle_sameButStyle (n : nid) (k v : string) (d : dom) :
  Forall2 sameButStyle d (Dom.setStyle n k v d).
Proof.
  unfold Dom.setStyle. apply Forall2_alter_r; [apply sameButStyle_refl|].
  intros nd. by destruct nd.
Qed.

Lemma sameButStyle_trans (a b c : node) :
  sameButStyle a b → sameButStyle b c → sameButStyle a c.
Proof.
  unfold sameButStyle, set_style. intros H1 H2. destruct a, b, c; cbn in *. congruence.
Qed.

(** [spaceContainer] is [rebuilt] followed by changes of style. *)
Lemma spaceContainer_restyles depth (sp sz num : Z) (w : world) (c : nid) :
  let wb := rebuilt sp sz num w c in
  let w' := spaceContainer depth sp sz num w c in
  Forall2 sameButStyle (page wb) (page w') ∧ ctrls w' = ctrls wb.
Proof.
  intros wb w'. unfold w', spaceContainer. cbv zeta. fold (rebuilt sp sz num w c).
  fold wb. destruct (Dom.closest depth (page wb) c "tr") as [tr|];
    [|split; [apply Forall2_same, sameButStyle_refl|done]].
  set (d1 := match Dom.querySelector depth (page wb) tr (Dom.ByTagClass "td" "value") with
             | Some resultTd => _ | None => _ end).
  assert (Forall2 sameButStyle (page wb) d1) as H1.
  { unfold d1. destruct (Dom.querySelector _ _ _ _);
      [apply setStyle_sameButStyle|apply Forall2_same, sameButStyle_refl]. }
  destruct (match Dom.querySelector depth d1 tr (Dom.ByTagClass "td" "control") with
            | Some td => Some td
            | None => Dom.querySelector depth d1 tr (Dom.ByTagClass "td" "BarOuter")
            end) as [td|]; cbn [page ctrls set_page].
  - split; [|done].
    eapply Forall2_compose; [apply sameButStyle_trans|exact H1|].
    eapply Forall2_compose; [apply sameButStyle_trans| |]; apply setStyle_sameButStyle.
  - by split.
Qed.

Lemma rebuilt_length (sp sz num : Z) (w : world) (c : nid) :
  (c < length (page w))%nat →
  (length (page w) ≤ length (page (rebuilt sp sz num w c)))%nat.
Proof.
  intros Hc. unfold rebuilt.
  etrans; [|apply build_length]; cbn [page set_page]; unfold Dom.setStyle, Dom.clearChildren;
    rewrite !length_alter, length_unlink; lia.
Qed.

Lemma wellFormed_spaceContainer depth (sp sz num : Z) (w : world) (c : nid) :
  wellFormed (page w) → (c < length (page w))%nat →
  wellFormed (page (spaceContainer depth sp sz num w c))
  ∧ (length (page w) ≤ length (page (spaceContainer depth sp sz num w c)))%nat.
Proof.
  intros Hwf Hc.
  destruct (spaceContainer_restyles depth sp sz num w c) as [Hs _]. cbv zeta in Hs.
  split.
  - eapply wellFormed_shapes; [apply sameButStyle_shapes, Hs|].
    unfold rebuilt. apply wellFormed_build; cbn [page set_page].
    + by apply wellFormed_restyled, wellFormed_restyled, wellFormed_clearChildren.
    + unfold Dom.setStyle, Dom.clearChildren. by rewrite !length_alter, length_unlink.
  - rewrite <- (Forall2_length _ _ _ Hs). by apply rebuilt_length.
Qed.

Lemma wellFormed_spacingCallback depth (q : qref) (sp sz num : Z) (w : world) :
  wellFormed (page w) → wellFormed (page (spacingCallback depth q sp sz num w)).
Proof.
  intros Hwf. unfold spacingCallback. cbv zeta.
  pose proof (wellFormed_removeNativeStars depth (refOf q) w Hwf) as Hwf1.
  set (w1 := removeNativeStars depth (refOf q) w) in *.
  assert (Forall (λ x, (x < length (page w1))%nat)
            (_qsAll depth (page w1) q (Dom.ByClass "StarsContainer"))) as Hv.
  { destruct q; [apply querySelectorAll_valid|constructor]. }
  revert Hwf1 Hv. generalize (_qsAll depth (page w1) q (Dom.ByClass "StarsContainer")) as cs.
  generalize w1 as w0. intros w0 cs. revert w0.
  induction cs as [|c cs IH]; intros w0 Hwf0 Hv; [done|].
  cbn [foldl]. apply Forall_cons in Hv as [Hc Hv].
  destruct (wellFormed_spaceContainer depth sp sz num w0 c Hwf0 Hc) as [Hwf' Hlen].
  apply IH; [done|]. eapply Forall_impl; [exact Hv|]. intros x Hx. cbn in *. lia.
Qed.

Lemma colorImgs_sameButStyle (colors : list string) (imgs : list nid) (idx : nat)
    (d : dom) :
  Forall2 sameButStyle d (colorImgs colors imgs idx d).
Proof.
  revert idx d. induction imgs as [|img r IH]; intros idx d;
    [apply Forall2_same, sameButStyle_refl|].
  cbn [colorImgs]. cbv zeta.
  eapply Forall2_compose; [apply sameButStyle_trans| |apply IH].
  eapply Forall2_compose; [apply sameButStyle_trans| |]; apply setStyle_sameButStyle.
Qed.

(** X15. Every timer callback of the script (spacing, colors, labels,
    minimum) keeps a well-formed page well formed: whatever was scheduled,
    child lists and parent links agree when it has run. *)
Theorem callbacks_keep_wellFormed (depth : nat) (t : task) (w : world) :
  wellFormed (page w) → wellFormed (page (runTask depth t w)).
Proof.
  intros Hwf. destruct t as [q sp sz num|q colors|q lt rt|q m]; cbn [runTask].
  - by apply wellFormed_spacingCallback.
  - unfold colorCallback. destruct q as [n|]; [|done]. cbn [page set_page].
    eapply wellFormed_shapes; [|exact Hwf].
    apply sameButStyle_shapes, colorImgs_sameButStyle.
  - unfold labelsCallback. cbn [page set_page]. by apply labelWrappers_wellFormed.
  - eapply wellFormed_shapes; [|exact Hwf].
    unfold enforceCallback. cbn [page set_page].
    apply listenersGrow_shapes, watchRows_grow.
Qed.

(** ** The width reserved for the control *)

Lemma getStyle_setStyle_eq (n : nid) (k v : string) (d : dom) :
  is_Some (d !! n) → Dom.getStyle (Dom.setStyle n k v d) n k = Some v.
Proof.
  intros [nd Hnd]. unfold Dom.getStyle, Dom.setStyle.
  rewrite list_lookup_alter_eq, Hnd. cbn. apply lookup_insert_eq.
Qed.

Lemma getStyle_setStyle_ne (n x : nid) (k k' v : string) (d : dom) :
  k ≠ k' → Dom.getStyle (Dom.setStyle n k v d) x k' = Dom.getStyle d x k'.
Proof.
  intros Hk. unfold Dom.getStyle, Dom.setStyle. rewrite list_lookup_alter.
  case_decide as E; [subst n|done]. destruct (d !! x); [|done]. cbn.
  by apply lookup_insert_ne.
Qed.

Lemma querySelector_is_Some depth (d : dom) (n x : nid) (sel : Dom.selector) :
  Dom.querySelector depth d n sel = Some x → is_Some (d !! x).
Proof. intros H. eapply matches_is_Some, querySelector_matches, H. Qed.

(** X16. One turn of the loop of [applySpacing], for a spacing and a size
    that are not negative and at least one star, the width
    [numStars * starSize + (numStars - 1) * spacing] and that width less 60
    being lengths in pixels that a style keeps as written (so at least 60
    pixels): in the resulting page, the control cell of the row of the
    container ([td.control], else [td.BarOuter]) has that width as minimal
    width and does not wrap, and the value cell of that row is padded by
    that width less 60 pixels. *)
Theorem spacing_reserves_width (depth : nat) (sp sz num : Z) (w : world)
    (c tr td : nid) :
  0 ≤ sp → 0 ≤ sz → 1 ≤ num →
  Css.pixels (totalWidth sp sz num) →
  Css.pixels (totalWidth sp sz num - 60) →
  let w' := spaceContainer depth sp sz num w c in
  Dom.closest depth (page w') c "tr" = Some tr →
  Dom.querySelector depth (page w') tr (Dom.ByTagClass "td" "control") = Some td
  ∨ (Dom.querySelector depth (page w') tr (Dom.ByTagClass "td" "control") = None
     ∧ Dom.querySelector depth (page w') tr (Dom.ByTagClass "td" "BarOuter") = Some td) →
  Dom.getStyle (page w') td "minWidth" = Some (px (totalWidth sp sz num))
  ∧ Dom.getStyle (page w') td "whiteSpace" = Some "nowrap"
  ∧ ∀ cell, Dom.querySelector depth (page w') tr (Dom.ByTagClass "td" "value") = Some cell →
            Dom.getStyle (page w') cell "paddingLeft"
            = Some (px (totalWidth sp sz num - 60)).
Proof.
  intros _ _ _ _ _ w' Htr Htd.
  destruct (spaceContainer_restyles depth sp sz num w c) as [Hs _]. cbv zeta in Hs.
  fold w' in Hs. apply sameButStyle_shapes in Hs.
  set (wb := rebuilt sp sz num w c) in *.
  rewrite (closest_shapes depth _ _ c "tr" Hs) in Htr.
  rewrite !(querySelector_shapes depth _ _ tr _ Hs) in Htd.
  assert (∀ cell, Dom.querySelector depth (page w') tr (Dom.ByTagClass "td" "value") = Some cell
                  ↔ Dom.querySelector depth (page wb) tr (Dom.ByTagClass "td" "value") = Some cell)
    as Hcell by (intros cell; by rewrite (querySelector_shapes depth _ _ tr _ Hs)).
  setoid_rewrite Hcell. clear Hcell Hs.
  unfold w', spaceContainer. cbv zeta. fold (rebuilt sp sz num w c). fold wb.
  fold (totalWidth sp sz num). rewrite Htr.
  set (d1 := match Dom.querySelector depth (page wb) tr (Dom.ByTagClass "td" "value") with
             | Some resultTd => _ | None => _ end).
  assert (Forall2 sameShape (page wb) d1) as H1.
  { unfold d1.
    destruct (Dom.querySelector depth (page wb) tr (Dom.ByTagClass "td" "value"));
      [apply sameButStyle_shapes, setStyle_sameButStyle|apply Forall2_same, sameShape_refl]. }
  rewrite !(querySelector_shapes depth _ _ tr _ H1).
  assert (match Dom.querySelector depth (page wb) tr (Dom.ByTagClass "td" "control") with
          | Some td => Some td
          | None => Dom.querySelector depth (page wb) tr (Dom.ByTagClass "td" "BarOuter")
          end = Some td) as -> by (destruct Htd as [->|[-> ->]]; done).
  assert (is_Some (page wb !! td)) as Hin
    by (destruct Htd as [H|[_ H]]; by apply querySelector_is_Some in H).
  assert (is_Some (d1 !! td)) as Hin1.
  { destruct Hin as [nd Hnd]. pose proof (shapes_lookup _ _ td H1) as G.
    rewrite Hnd in G. destruct (d1 !! td); [eauto|done]. }
  cbn [page set_page]. split; [|split].
  - rewrite getStyle_setStyle_ne by done. by apply getStyle_setStyle_eq.
  - apply getStyle_setStyle_eq. destruct Hin1 as [nd Hnd].
    unfold Dom.setStyle. rewrite list_lookup_alter_eq, Hnd. eauto.
  - intros cell Hc. rewrite !getStyle_setStyle_ne by done. unfold d1. rewrite Hc.
    apply getStyle_setStyle_eq. by apply querySelector_is_Some in Hc.
Qed.

(** ** The first run of the callback of applySpacing *)

Lemma keptByOthers_refl (nd : node) : keptByOthers nd nd.
Proof. by repeat split. Qed.

Lemma keptByOthers_trans (a b c : node) :
  keptByOthers a b → keptByOthers b c → keptByOthers a c.
Proof.
  unfold keptByOthers, sameContent. intros H1 H2.
  destruct H1 as ((?&?&?&?&?&?)&?&?), H2 as ((?&?&?&?&?&?)&?&?).
  repeat split; congruence.
Qed.

Lemma lookup_unlink (l : list nid) (x : nid) (d : dom) :
  foldr (λ c acc, alter (set_parentNode None) c acc) d l !! x
  = (if decide (x ∈ l) then set_parentNode None else id) <$> d !! x.
Proof.
  induction l as [|a l IH]; cbn [foldr].
  - rewrite decide_False; [by destruct (d !! x)|]. apply not_elem_of_nil.
  - destruct (decide (a = x)) as [->|E].
    + rewrite list_lookup_alter_eq, IH.
      rewrite (decide_True (P := x ∈ x :: l)); [|apply elem_of_cons; by left].
      destruct (decide (x ∈ l)); by destruct (d !! x).
    + rewrite list_lookup_alter_ne, IH by done.
      destruct (decide (x ∈ l)) as [Hin|Hnin].
      * rewrite decide_True; [done|]. apply elem_of_cons. by right.
      * rewrite decide_False; [done|]. rewrite elem_of_cons. intros [?|?]; congruence.
Qed.

Lemma cleared_others (c x : nid) (d : dom) (nd : node) :
  x ≠ c → d !! x = Some nd →
  ∃ nd', Dom.setStyle c "verticalAlign" "middle"
           (Dom.setStyle c "display" "inline-block" (Dom.clearChildren c d)) !! x
         = Some nd'
         ∧ keptByOthers nd nd'.
Proof.
  intros Hne Hnd. unfold Dom.setStyle, Dom.clearChildren.
  rewrite !list_lookup_alter_ne by done. rewrite lookup_unlink, Hnd. cbn.
  eexists; split; [done|]. case_decide; by repeat split.
Qed.

Lemma cleared_own (c : nid) (d : dom) (nd : node) :
  d !! c = Some nd →
  ∃ nd', Dom.setStyle c "verticalAlign" "middle"
           (Dom.setStyle c "display" "inline-block" (Dom.clearChildren c d)) !! c
         = Some nd'
         ∧ attrs nd' = attrs nd ∧ childNodes nd' = [].
Proof.
  intros Hnd. unfold Dom.setStyle, Dom.clearChildren.
  rewrite !list_lookup_alter_eq. rewrite lookup_unlink, Hnd. cbn.
  eexists; split; [done|]. by case_decide.
Qed.

Lemma cleared_length (c : nid) (d : dom) :
  length (Dom.setStyle c "verticalAlign" "middle"
            (Dom.setStyle c "display" "inline-block" (Dom.clearChildren c d)))
  = length d.
Proof.
  unfold Dom.setStyle, Dom.clearChildren. by rewrite !length_alter, length_unlink.
Qed.

Lemma spaceContainer_opacity depth (sp sz num : Z) (w : world) (c x : nid) :
  Dom.getStyle (page (spaceContainer depth sp sz num w c)) x "opacity"
  = Dom.getStyle (page (rebuilt sp sz num w c)) x "opacity".
Proof.
  unfold spaceContainer. cbv zeta. fold (rebuilt sp sz num w c).
  set (wb := rebuilt sp sz num w c).
  destruct (Dom.closest depth (page wb) c "tr") as [tr|]; [|done].
  set (d1 := match Dom.querySelector depth (page wb) tr (Dom.ByTagClass "td" "value") with
             | Some resultTd => _ | None => _ end).
  assert (Dom.getStyle d1 x "opacity" = Dom.getStyle (page wb) x "opacity") as H1.
  { unfold d1.
    destruct (Dom.querySelector depth (page wb) tr (Dom.ByTagClass "td" "value"));
      [by apply getStyle_setStyle_ne|done]. }
  destruct (match Dom.querySelector depth d1 tr (Dom.ByTagClass "td" "control") with
            | Some td => Some td
            | None => Dom.querySelector depth d1 tr (Dom.ByTagClass "td" "BarOuter")
            end) as [td|]; cbn [page set_page]; [|done].
  by rewrite !getStyle_setStyle_ne.
Qed.

(** From the construction to the end of the turn, nodes keep all but their
    layout style. *)
Lemma spaceContainer_kept_since_rebuilt depth (sp sz num : Z) (w : world)
    (c x : nid) (nd : node) :
  page (rebuilt sp sz num w c) !! x = Some nd →
  ∃ nd', page (spaceContainer depth sp sz num w c) !! x = Some nd'
         ∧ keptByOthers nd nd'.
Proof.
  intros Hnd.
  destruct (spaceContainer_restyles depth sp sz num w c) as [Hs _]. cbv zeta in Hs.
  destruct (Forall2_lookup_l _ _ _ _ _ Hs Hnd) as (nd' & Hnd' & Hsame).
  exists nd'. split; [done|].
  pose proof (spaceContainer_opacity depth sp sz num w c x) as Hop.
  unfold Dom.getStyle in Hop. rewrite Hnd, Hnd' in Hop. cbn in Hop.
  unfold sameButStyle in Hsame. rewrite Hsame. by repeat split.
Qed.

Lemma rebuilt_others (sp sz num : Z) (w : world) (c x : nid) (nd : node) :
  (c < length (page w))%nat → x ≠ c → page w !! x = Some nd →
  ∃ nd', page (rebuilt sp sz num w c) !! x = Some nd' ∧ keptByOthers nd nd'.
Proof.
  intros Hc Hne Hnd. unfold rebuilt.
  destruct (cleared_others c x (page w) nd Hne Hnd) as (nd1 & Hnd1 & Hk).
  set (w0 := set_page _ w).
  assert (page w0 !! x = Some nd1) as H0 by done.
  assert (length (page w0) = length (page w)) as Hl by apply cleared_length.
  destruct (decide (Dom.getAttribute (page w0) c "data-starutils-built" = Some "1"))
    as [Hm|Hm].
  - unfold _buildCustomStarsForContainer. rewrite bool_decide_eq_true_2 by done.
    cbn [fst]. eauto.
  - destruct (build_fresh_nodes c (BuildOpts sp sz num None) w0) as (_ & _ & _ & Ho & _);
      [lia|done|].
    rewrite Ho; [eauto| |done]. apply lookup_lt_Some in H0. lia.
Qed.

Lemma spaceContainer_others depth (sp sz num : Z) (w : world) (c x : nid) (nd : node) :
  (c < length (page w))%nat → x ≠ c → page w !! x = Some nd →
  ∃ nd', page (spaceContainer depth sp sz num w c) !! x = Some nd'
         ∧ keptByOthers nd nd'.
Proof.
  intros Hc Hne Hnd.
  destruct (rebuilt_others sp sz num w c x nd Hc Hne Hnd) as (nd1 & Hnd1 & Hk1).
  destruct (spaceContainer_kept_since_rebuilt depth sp sz num w c x nd1 Hnd1)
    as (nd2 & Hnd2 & Hk2).
  exists nd2. split; [done|]. by eapply keptByOthers_trans.
Qed.

Lemma rebuilt_ctrls (sp sz num : Z) (w : world) (c : nid) :
  (c < length (page w))%nat → ctrls w `prefix_of` ctrls (rebuilt sp sz num w c).
Proof.
  intros Hc. unfold rebuilt. set (w0 := set_page _ w).
  assert (length (page w0) = length (page w)) as Hl by apply cleared_length.
  destruct (decide (Dom.getAttribute (page w0) c "data-starutils-built" = Some "1"))
    as [Hm|Hm].
  - unfold _buildCustomStarsForContainer. by rewrite bool_decide_eq_true_2 by done.
  - rewrite build_fresh by (done || lia). cbn [fst ctrls]. by apply prefix_app_r.
Qed.

(** Facts about a constructed control carry over to a page that keeps its
    nodes. *)
Lemma builtAt_kept (w w' : world) (c wrapper : nid) (k : cid) (icons : list nid) :
  (∀ x nd, x ∈ c :: wrapper :: icons → page w !! x = Some nd →
           ∃ nd', page w' !! x = Some nd' ∧ keptByOthers nd nd') →
  (length (page w) ≤ length (page w'))%nat →
  ctrls w `prefix_of` ctrls w' →
  builtAt w c wrapper k icons → builtAt w' c wrapper k icons.
Proof.
  intros Hkept Hlen [rest Hk] (Hm & Hc & Hw & Hi & Hok & Hsel & Hicons).
  assert (∀ x, x ∈ c :: wrapper :: icons →
            Dom.getAttribute (page w) x "data-starutils-built" = Some "1" →
            Dom.getAttribute (page w') x "data-starutils-built" = Some "1") as Ha.
  { intros x Hx. unfold Dom.getAttribute. destruct (page w !! x) as [nd|] eqn:Hnd; [|done].
    destruct (Hkept x nd Hx Hnd) as (nd' & -> & ((_&_&Hat&_)&_)). cbn. by rewrite Hat. }
  assert (∀ x sel, x ∈ c :: wrapper :: icons →
            Dom.matches (page w) sel x = true → Dom.matches (page w') sel x = true) as Hma.
  { intros x sel Hx. unfold Dom.matches. destruct (page w !! x) as [nd|] eqn:Hnd; [|done].
    destruct (Hkept x nd Hx Hnd) as (nd' & -> & ((Ht&Hcl&_)&_)).
    unfold Dom.matchesNode. by rewrite Ht, Hcl. }
  assert (∀ x, x ∈ c :: wrapper :: icons → is_Some (page w !! x) →
            Dom.childrenOf (page w') x = Dom.childrenOf (page w) x) as Hch.
  { intros x Hx [nd Hnd]. unfold Dom.childrenOf. rewrite Hnd.
    destruct (Hkept x nd Hx Hnd) as (nd' & -> & (_&Hcn&_)). cbn. by rewrite Hcn. }
  assert (is_Some (page w !! c)) as Hsc.
  { unfold Dom.getAttribute in Hm. destruct (page w !! c); [eauto|done]. }
  assert (is_Some (page w !! wrapper)) as Hsw by by eapply matches_is_Some.
  assert (k < length (ctrls w))%nat as Hlt.
  { destruct Hok as (Hst & _). apply lookup_lt_is_Some.
    destruct (ctrls w !! k); [eauto|done]. }
  repeat split.
  - apply Ha; [|done]. apply elem_of_cons. by left.
  - rewrite Hch; [done| |done]. apply elem_of_cons. by left.
  - apply Hma; [|done]. apply elem_of_cons. right. apply elem_of_cons. by left.
  - rewrite Hch; [done| |done]. apply elem_of_cons. right. apply elem_of_cons. by left.
  - destruct Hok as (Hst & _). by rewrite Hk, lookup_app_l.
  - by destruct Hok as (_ & Hnd & _).
  - destruct Hok as (_ & _ & Hall). eapply Forall_impl; [exact Hall|].
    intros s Hs. cbn in *. lia.
  - unfold selectedOf in *. by rewrite Hk, lookup_app_l.
  - apply Hma; [|by apply Hicons]. by do 2 (apply elem_of_cons; right).
  - destruct (Hicons s H) as [Hmt Hop].
    destruct (matches_is_Some _ _ _ Hmt) as [nd Hnd].
    unfold Dom.getStyle in *. rewrite Hnd in Hop.
    destruct (Hkept s nd) as (nd' & -> & (_&_&Ho)); [|done|].
    { by do 2 (apply elem_of_cons; right). }
    cbn in *. by rewrite Ho.
Qed.

Lemma rebuilt_builds (sp sz num : Z) (w : world) (c : nid) :
  (c < length (page w))%nat →
  Dom.getAttribute (page w) c "data-starutils-built" ≠ Some "1" →
  let L := length (page w) in
  let wb := rebuilt sp sz num w c in
  builtAt wb c L (length (ctrls w)) (seq (S L) (Z.to_nat num))
  ∧ length (page wb) = (S L + Z.to_nat num)%nat.
Proof.
  intros Hc Hm L wb0. unfold wb0, rebuilt. clear wb0. set (w0 := set_page _ w).
  assert (length (page w0) = L) as Hl by apply cleared_length.
  destruct (lookup_lt_is_Some_2 (page w) c Hc) as [nd Hnd].
  destruct (cleared_own c (page w) nd Hnd) as (nd0 & Hnd0 & Hat & Hch).
  assert (page w0 !! c = Some nd0) as H0 by done.
  assert (Dom.getAttribute (page w0) c "data-starutils-built" ≠ Some "1") as Hm0.
  { unfold Dom.getAttribute in *. rewrite H0. rewrite Hnd in Hm. cbn in *. by rewrite Hat. }
  assert (c < length (page w0))%nat as Hc0 by lia.
  destruct (build_fresh_nodes c (BuildOpts sp sz num None) w0 Hc0 Hm0)
    as (Hlen & Hwr & Hst & _ & Hown).
  destruct (build_controlOk c (BuildOpts sp sz num None) w0 Hc0 Hm0) as [Hk Hok].
  cbn [numStars] in *. rewrite Hl in *.
  change (ctrls w0) with (ctrls w) in *.
  set (wb := fst _) in *.
  split; [|done]. repeat split.
  - unfold Dom.getAttribute. rewrite Hown, H0. cbn. apply lookup_insert_eq.
  - unfold Dom.childrenOf. rewrite Hown, H0. cbn. by rewrite Hch.
  - unfold Dom.matches. by rewrite Hwr.
  - unfold Dom.childrenOf. by rewrite Hwr.
  - apply Hok.
  - apply Hok.
  - apply Hok.
  - unfold selectedOf. by rewrite Hk.
  - apply elem_of_seq in H as [H1 H2].
    unfold Dom.matches. replace s with (S L + (s - S L))%nat by lia.
    rewrite Hst by lia. done.
  - apply elem_of_seq in H as [H1 H2].
    unfold Dom.getStyle. replace s with (S L + (s - S L))%nat by lia.
    rewrite Hst by lia. done.
Qed.

Lemma spaceContainer_builds depth (sp sz num : Z) (w : world) (c : nid) :
  (c < length (page w))%nat →
  Dom.getAttribute (page w) c "data-starutils-built" ≠ Some "1" →
  let L := length (page w) in
  builtAt (spaceContainer depth sp sz num w c) c L (length (ctrls w))
    (seq (S L) (Z.to_nat num)).
Proof.
  intros Hc Hm L. destruct (rebuilt_builds sp sz num w c Hc Hm) as [Hb Hlen].
  destruct (spaceContainer_restyles depth sp sz num w c) as [Hs Hk]. cbv zeta in Hs, Hk.
  eapply builtAt_kept; [| | |exact Hb].
  - intros x nd _ Hnd. by apply spaceContainer_kept_since_rebuilt.
  - by rewrite (Forall2_length _ _ _ Hs).
  - by rewrite Hk.
Qed.

Lemma spaceContainer_length depth (sp sz num : Z) (w : world) (c : nid) :
  (c < length (page w))%nat →
  (length (page w) ≤ length (page (spaceContainer depth sp sz num w c)))%nat.
Proof.
  intros Hc. destruct (spaceContainer_restyles depth sp sz num w c) as [Hs _].
  cbv zeta in Hs. rewrite <- (Forall2_length _ _ _ Hs). by apply rebuilt_length.
Qed.

Lemma spaceContainer_ctrls depth (sp sz num : Z) (w : world) (c : nid) :
  (c < length (page w))%nat →
  ctrls w `prefix_of` ctrls (spaceContainer depth sp sz num w c).
Proof.
  intros Hc. destruct (spaceContainer_restyles depth sp sz num w c) as [_ Hk].
  cbv zeta in Hk. rewrite Hk. by apply rebuilt_ctrls.
Qed.

Lemma space_others_builtAt depth (sp sz num : Z) (cs : list nid) (w : world)
    (c wrapper : nid) (k : cid) (t : nat) :
  Forall (λ c', c' ≠ c ∧ (c' < wrapper)%nat) cs →
  (wrapper < length (page w))%nat →
  builtAt w c wrapper k (seq (S wrapper) t) →
  builtAt (foldl (spaceContainer depth sp sz num) w cs) c wrapper k (seq (S wrapper) t).
Proof.
  revert w. induction cs as [|c' cs IH]; intros w Hcs Hw Hb; [done|].
  cbn [foldl]. apply Forall_cons in Hcs as [[Hne Hlt] Hcs].
  assert (c' < length (page w))%nat as Hc' by lia.
  pose proof (spaceContainer_length depth sp sz num w c' Hc') as Hlen.
  apply IH; [done|lia|].
  eapply builtAt_kept; [|exact Hlen|by apply spaceContainer_ctrls|exact Hb].
  intros x nd Hx Hnd. apply spaceContainer_others; [done| |done].
  apply elem_of_cons in Hx as [->|Hx]; [done|].
  apply elem_of_cons in Hx as [->|Hx]; [lia|].
  apply elem_of_seq in Hx. lia.
Qed.

Lemma space_others_unmarked depth (sp sz num : Z) (cs : list nid) (w : world) (c : nid) :
  c ∉ cs → Forall (λ c', (c' < length (page w))%nat) cs →
  (c < length (page w))%nat →
  Dom.getAttribute (page w) c "data-starutils-built" ≠ Some "1" →
  let w' := foldl (spaceContainer depth sp sz num) w cs in
  Dom.getAttribute (page w') c "data-starutils-built" ≠ Some "1"
  ∧ (length (page w) ≤ length (page w'))%nat.
Proof.
  revert w. induction cs as [|c' cs IH]; intros w Hnin Hcs Hc Hm; [done|].
  cbn [foldl]. apply Forall_cons in Hcs as [Hc' Hcs].
  apply not_elem_of_cons in Hnin as [Hne Hnin].
  pose proof (spaceContainer_length depth sp sz num w c' Hc') as Hlen.
  destruct (IH (spaceContainer depth sp sz num w c')) as [IH1 IH2]; try done.
  - eapply Forall_impl; [exact Hcs|]. intros x Hx. cbn in *. lia.
  - lia.
  - destruct (lookup_lt_is_Some_2 (page w) c Hc) as [nd Hnd].
    destruct (spaceContainer_others depth sp sz num w c' c nd Hc' Hne Hnd)
      as (nd' & Hnd' & ((_&_&Hat&_)&_)).
    unfold Dom.getAttribute in *. rewrite Hnd'. rewrite Hnd in Hm. cbn in *.
    by rewrite Hat.
  - split; [done|lia].
Qed.

(** X17. The first run of the callback of [applySpacing]: when the stars
    containers found under the root once the native stars are removed are
    distinct, each of them that did not carry the construction marker ends
    up marked, with one child, the wrapper of a new control, whose children
    are [numStars] icons, all dimmed, none selected. *)
Theorem first_run_builds_each_container (depth : nat) (n c : nid) (sp sz num : Z)
    (w : world) :
  let w1 := removeNativeStars depth (RefElement n) w in
  let cs := _qsAll depth (page w1) (QElem n) (Dom.ByClass "StarsContainer") in
  NoDup cs → c ∈ cs →
  Dom.getAttribute (page w) c "data-starutils-built" ≠ Some "1" →
  let w' := runTask depth (SpacingTask (QElem n) sp sz num) w in
  ∃ wrapper k,
    builtAt w' c wrapper k (seq (S wrapper) (Z.to_nat num)).
Proof.
  intros w1 cs Hnd Hin Hm w'.
  assert (w' = foldl (spaceContainer depth sp sz num) w1 cs) as -> by reflexivity.
  assert (Forall (λ x, (x < length (page w1))%nat) cs) as Hv
    by apply querySelectorAll_valid.
  assert (Dom.getAttribute (page w1) c "data-starutils-built" ≠ Some "1") as Hm1.
  { assert (c < length (page w))%nat as Hc.
    { rewrite Forall_forall in Hv. specialize (Hv c Hin).
      destruct (removeNativeStars_content depth (RefElement n) w) as (Hl & _).
      fold w1 in Hl. lia. }
    destruct (lookup_lt_is_Some_2 (page w) c Hc) as [nd Hnd0].
    destruct (removeNativeStars_content depth (RefElement n) w) as (_ & _ & Hk).
    destruct (Hk c nd Hnd0) as (nd' & Hnd' & (_&_&Hat&_)). fold w1 in Hnd'.
    unfold Dom.getAttribute in *. rewrite Hnd'. rewrite Hnd0 in Hm. cbn in *.
    by rewrite Hat. }
  revert Hv Hm1. generalize w1 as w0. intros w0 Hv Hm1.
  apply list_elem_of_split in Hin as (l1 & l2 & Hcs). rewrite Hcs in *.
  apply NoDup_app in Hnd as (_ & Hn1 & Hn2). apply NoDup_cons in Hn2 as [Hn2 _].
  apply Forall_app in Hv as [Hv1 Hv2]. apply Forall_cons in Hv2 as [Hc Hv2].
  rewrite foldl_app. cbn [foldl].
  destruct (space_others_unmarked depth sp sz num l1 w0 c) as [Hma Hla]; try done.
  { intros H. apply (Hn1 c H). apply elem_of_cons. by left. }
  set (wa := foldl (spaceContainer depth sp sz num) w0 l1) in *.
  assert (c < length (page wa))%nat as Hca by lia.
  pose proof (spaceContainer_builds depth sp sz num wa c Hca Hma) as Hb. cbv zeta in Hb.
  exists (length (page wa)), (length (ctrls wa)).
  apply space_others_builtAt; [| |done].
  - rewrite Forall_forall in Hv2. apply Forall_forall. intros x Hx. split.
    + intros ->. done.
    + specialize (Hv2 x Hx). cbn in Hv2. lia.
  - destruct Hb as (_ & _ & Hw & _). apply matches_is_Some in Hw as [nd Hnd'].
    by eapply lookup_lt_Some.
Qed.

(** ** The default icon, the root and the edges of a construction *)

(** X18. [setStarIcon] with a non-empty url changes neither the page nor
    the controls (icons already constructed keep their source), and every
    icon of a control constructed afterwards has that url as its source,
    unless the construction is given a non-empty icon of its own; an empty
    or missing url changes nothing at all. *)
Theorem icon_setting_reaches_later_controls (u : string) (c : nid) (opts : buildOpts)
    (w : world) :
  u ≠ EmptyString → (c < length (page w))%nat →
  Dom.getAttribute (page w) c "data-starutils-built" ≠ Some "1" →
  let w0 := setStarIcon (Some u) w in
  let w' := fst (_buildCustomStarsForContainer (Some c) opts w0) in
  page w0 = page w ∧ ctrls w0 = ctrls w
  ∧ setStarIcon None w = w ∧ setStarIcon (Some EmptyString) w = w
  ∧ ∀ j, (j < Z.to_nat (numStars opts))%nat →
         Dom.getProp (page w') (S (length (page w)) + j) "src"
         = Some (match starIcon opts with
                 | Some own => if bool_decide (own = EmptyString) then u else own
                 | None => u
                 end).
Proof.
  intros Hu Hc Hm w0 w'.
  assert (setStarIcon (Some u) w = set_defaultStarIcon u w) as Hw0.
  { unfold setStarIcon. by rewrite bool_decide_eq_false_2. }
  unfold w', w0. rewrite Hw0. clear w0 w'.
  split; [done|]. split; [done|]. split; [done|]. split; [done|].
  intros j Hj.
  destruct (build_fresh_nodes c opts (set_defaultStarIcon u w) Hc Hm) as (_ & _ & Hst & _).
  unfold Dom.getProp. cbn [page set_defaultStarIcon] in Hst.
  rewrite (Hst j Hj). cbn. unfold iconOf, Js.orElse.
  cbn [defaultStarIcon set_defaultStarIcon]. by destruct (starIcon opts).
Qed.

Lemma head_filter_Some {A} (P : A → Prop) `{!∀ x, Decision (P x)} (l : list A) (x : A) :
  head (filter P l) = Some x →
  P x ∧ ∃ l1 l2, l = l1 ++ x :: l2 ∧ Forall (λ y, ¬ P y) l1.
Proof.
  induction l as [|a l IH]; [done|]. rewrite filter_cons.
  destruct (decide (P a)) as [Ha|Ha].
  - intros [= ->]. split; [done|]. exists [], l. by split.
  - intros Hh. destruct (IH Hh) as (Hx & l1 & l2 & -> & Hall). split; [done|].
    exists (a :: l1), l2. split; [done|]. by constructor.
Qed.

Lemma head_filter_None {A} (P : A → Prop) `{!∀ x, Decision (P x)} (l : list A) :
  Forall (λ y, ¬ P y) l → head (filter P l) = None.
Proof.
  induction 1 as [|a l Ha Hl IH]; [done|]. rewrite filter_cons.
  by rewrite decide_False.
Qed.

Lemma head_filter_first {A} (P : A → Prop) `{!∀ x, Decision (P x)}
    (l1 l2 : list A) (x : A) :
  P x → Forall (λ y, ¬ P y) l1 → head (filter P (l1 ++ x :: l2)) = Some x.
Proof.
  intros Hx Hall. induction Hall as [|a l Ha Hl IH]; cbn [app].
  - rewrite filter_cons. by rewrite decide_True.
  - rewrite filter_cons. by rewrite decide_False.
Qed.

Lemma head_filter_nothing {A} (P : A → Prop) `{!∀ x, Decision (P x)} (l : list A) :
  head (filter P l) = None → Forall (λ y, ¬ P y) l.
Proof.
  induction l as [|a l IH]; [constructor|]. rewrite filter_cons.
  destruct (decide (P a)) as [Ha|Ha]; [done|]. intros Hh. constructor; auto.
Qed.

(** X19. Resolving a root given as a string [s].  The elements of the
    document are the root element followed by its descendants, in tree
    order.  The string resolves to the element [n] exactly when it is not
    empty and [n] is the first element of the document whose [id] is [s];
    it resolves to nothing exactly when it is empty or no element of the
    document has that id; it never resolves to a value that is not an
    element. *)
Theorem root_resolution (depth : nat) (w : world) (s : string) :
  let elements :=
    documentElement w :: Dom.descendants depth (page w) (documentElement w) in
  (∀ n, _getQuestionContainer depth w (RefString s) = Some (QElem n)
        ↔ s ≠ EmptyString
          ∧ Dom.getAttribute (page w) n "id" = Some s
          ∧ ∃ before after,
              elements = before ++ n :: after
              ∧ Forall (λ y, Dom.getAttribute (page w) y "id" ≠ Some s) before)
  ∧ (_getQuestionContainer depth w (RefString s) = None
     ↔ s = EmptyString
       ∨ Forall (λ y, Dom.getAttribute (page w) y "id" ≠ Some s) elements)
  ∧ _getQuestionContainer depth w (RefString s) ≠ Some QNodeLike.
Proof.
  intros elements. unfold _getQuestionContainer, Dom.getElementById. fold elements.
  split; [|split].
  - intros n. split.
    + intros H. case_bool_decide as Hs; [done|].
      destruct (head _) as [x|] eqn:Hh; [|done]. injection H as ->.
      apply head_filter_Some in Hh as [Hid (l1 & l2 & Hd & Hall)].
      split; [done|]. split; [done|]. by exists l1, l2.
    + intros (Hs & Hid & l1 & l2 & -> & Hall).
      rewrite bool_decide_eq_false_2 by done.
      by rewrite (head_filter_first
                    (λ x, Dom.getAttribute (page w) x "id" = Some s) l1 l2 n Hid Hall).
  - split.
    + intros H. case_bool_decide as Hs; [by left|]. right.
      apply (head_filter_nothing (λ x, Dom.getAttribute (page w) x "id" = Some s)).
      by destruct (head _).
    + intros [->|Hall]; [done|]. case_bool_decide; [done|].
      by rewrite (head_filter_None (λ x, Dom.getAttribute (page w) x "id" = Some s)).
  - case_bool_decide; [done|]. by destruct (head _).
Qed.

(** X20. The callback of [applyColorGradient] is cosmetic: it changes no
    control and nothing of a node but its style, and of the style only the
    background colour and the box shadow, so the opacity that shows the
    selection stays as it was. *)
Theorem coloring_is_cosmetic (depth : nat) (q : qref) (colors : list string)
    (w : world) :
  let w' := runTask depth (ColorTask q colors) w in
  ctrls w' = ctrls w
  ∧ Forall2 sameButStyle (page w) (page w')
  ∧ ∀ x k, k ≠ "backgroundColor" → k ≠ "boxShadow" →
           Dom.getStyle (page w') x k = Dom.getStyle (page w) x k.
Proof.
  intros w'. unfold w'. cbn [runTask]. unfold colorCallback.
  destruct q as [n|];
    [|split; [done|split; [apply Forall2_same, sameButStyle_refl|done]]].
  cbn [page ctrls set_page]. split; [done|]. split; [apply colorImgs_sameButStyle|].
  intros x k Hk1 Hk2.
  generalize (Dom.querySelectorAll depth (page w) n (Dom.ByTagClass "img" "starutils-star"))
    as imgs.
  intros imgs. generalize O as idx. generalize (page w) as d. 
  induction imgs as [|img r IH]; intros d idx; [done|].
  cbn [colorImgs]. cbv zeta. rewrite IH. by rewrite !getStyle_setStyle_ne.
Qed.

(** X21. With no icon below the root, the callback of [applyColorGradient]
    does nothing.  Its timer is set to 200 ms and that of [applySpacing] to
    300 ms: when the colors run before the first construction, the result
    is that of the construction alone, without any color. *)
Theorem colors_before_construction_are_lost (depth : nat) (n : nid)
    (colors : list string) (sp sz num : Z) (w : world) :
  Dom.querySelectorAll depth (page w) n (Dom.ByTagClass "img" "starutils-star") = [] →
  runTask depth (ColorTask (QElem n) colors) w = w
  ∧ runTask depth (SpacingTask (QElem n) sp sz num)
      (runTask depth (ColorTask (QElem n) colors) w)
    = runTask depth (SpacingTask (QElem n) sp sz num) w.
Proof.
  intros H.
  assert (runTask depth (ColorTask (QElem n) colors) w = w) as Hc.
  { cbn [runTask]. unfold colorCallback. rewrite H. cbn [colorImgs]. by destruct w. }
  split; [done|]. by rewrite Hc.
Qed.

(** X22. The operations that return do their work later: a call leaves
    the page, the controls and the default icon as they are; it sets at
    most one timer, after those already set, of 300 ms for [applySpacing],
    [addLabels] and [enforceMinStar] and of 200 ms for
    [applyColorGradient]. *)
Theorem operations_only_schedule (depth : nat) (r : rootRef) (w : world) :
  (∀ o w', applySpacing depth r o w = Normal w' → schedules 300 w w')
  ∧ (∀ o w', applyColorGradient depth r o w = Normal w' → schedules 200 w w')
  ∧ (∀ o w', addLabels depth r o w = Normal w' → schedules 300 w w')
  ∧ (∀ m w', enforceMinStar depth r m w = Normal w' → schedules 300 w w')
  ∧ ∀ delay w', schedules delay w w' →
      page w' = page w ∧ ctrls w' = ctrls w ∧ defaultStarIcon w' = defaultStarIcon w
      ∧ (timers w' = timers w ∨ ∃ t, timers w' = timers w ++ [(delay, t)]).
Proof.
  repeat split.
  - intros o w' H. unfold applySpacing in H. destruct o as [| |o]; try done.
    destruct (_getQuestionContainer depth w r); injection H as <-;
      [right; eauto|by left].
  - intros o w' H. unfold applyColorGradient in H. destruct o as [| |o]; try done.
    destruct (_getQuestionContainer depth w r); injection H as <-;
      [right; eauto|by left].
  - intros o w' H. unfold addLabels in H.
    destruct (_getQuestionContainer depth w r); injection H as <-;
      [right; eauto|by left].
  - intros m w' H. unfold enforceMinStar in H.
    destruct (_getQuestionContainer depth w r); injection H as <-;
      [right; eauto|by left].
  - by destruct H as [->|[t ->]].
  - by destruct H as [->|[t ->]].
  - by destruct H as [->|[t ->]].
  - destruct H as [->|[t ->]]; [by left|right; by exists t].
Qed.

(** ** The place of the labelled control, and a count of zero *)

Lemma putBefore_at (ref new : nid) (l1 l2 : list nid) :
  ref ∉ l1 → Dom.putBefore ref new (l1 ++ ref :: l2) = l1 ++ new :: ref :: l2.
Proof.
  induction l1 as [|a l1 IH]; intros Hn; cbn [Dom.putBefore app].
  - by rewrite decide_True.
  - apply not_elem_of_cons in Hn as [Hne Hn]. rewrite decide_False by done.
    by rewrite IH.
Qed.

Lemma without_absent (x : nid) (l : list nid) : x ∉ l → Dom.without x l = l.
Proof.
  intros Hn. unfold Dom.without. induction l as [|a l IH]; [done|].
  apply not_elem_of_cons in Hn as [Hne Hn]. rewrite filter_cons.
  rewrite decide_True by done. by rewrite IH.
Qed.

Lemma without_app (x : nid) (l1 l2 : list nid) :
  Dom.without x (l1 ++ l2) = Dom.without x l1 ++ Dom.without x l2.
Proof. unfold Dom.without. apply filter_app. Qed.

(** X23. Labelling keeps the place of the control: in a well-formed page,
    when a wrapper is wrapped with its labels, the new flex wrapper stands
    among the children of the former parent exactly where the wrapper
    stood, the siblings before and after it being unchanged, and its own
    children are the left label, the wrapper and the right label. *)
Theorem labelling_keeps_the_place (leftText rightText : string) (p x : nid) (d : dom)
    (before after : list nid) :
  wellFormed d → Dom.parentOf d x = Some p →
  Dom.childrenOf d p = before ++ x :: after → x ∉ before → x ∉ after →
  let d' := wrapWithLabels leftText rightText p x d in
  let flexWrap := length d in
  Dom.childrenOf d' p = before ++ flexWrap :: after
  ∧ Dom.childrenOf d' flexWrap = [S flexWrap; x; S (S flexWrap)]
  ∧ Dom.parentOf d' x = Some flexWrap
  ∧ Dom.parentOf d' flexWrap = Some p.
Proof.
  intros Hwf Hpar Hch Hb Ha d' F.
  destruct (wrap_facts p x d Hwf Hpar) as (_ & Hx & Hp & Hne).
  unfold d'. rewrite !(wrap_children leftText rightText p x d Hwf Hpar).
  rewrite !(wrap_parent leftText rightText p x d Hwf Hpar). fold F.
  rewrite (decide_True (P := p = p)) by done.
  rewrite (decide_False (P := F = p)) by (unfold F; lia).
  rewrite (decide_True (P := F = F)) by done.
  rewrite (decide_True (P := x = x)) by done.
  rewrite (decide_False (P := F = x)) by (unfold F; lia).
  split; [|by rewrite decide_True]. rewrite Hch. unfold replaced.
  rewrite putBefore_at by done.
  rewrite without_app, (without_absent x before) by done.
  f_equal. unfold Dom.without. rewrite !filter_cons.
  rewrite decide_True by (unfold F; lia). rewrite decide_False by tauto.
  f_equal. by apply without_absent.
Qed.

(** X24. A construction with a count of zero or less still marks the
    container and appends a wrapper without any icon, its control having no
    icon either; the marker then keeps every later construction, whatever
    its count, from adding icons. *)
Theorem empty_count_still_marks (c : nid) (opts : buildOpts) (w : world) :
  numStars opts ≤ 0 → (c < length (page w))%nat →
  Dom.getAttribute (page w) c "data-starutils-built" ≠ Some "1" →
  let w' := fst (_buildCustomStarsForContainer (Some c) opts w) in
  let wrapper := length (page w) in
  Dom.getAttribute (page w') c "data-starutils-built" = Some "1"
  ∧ Dom.childrenOf (page w') c = Dom.childrenOf (page w) c ++ [wrapper]
  ∧ Dom.matches (page w') (Dom.ByClass "starutils-wrapper") wrapper = true
  ∧ Dom.childrenOf (page w') wrapper = []
  ∧ length (page w') = S (length (page w))
  ∧ stars <$> ctrls w' !! length (ctrls w) = Some []
  ∧ ∀ opts', _buildCustomStarsForContainer (Some c) opts' w' = (w', BuiltAlready c).
Proof.
  intros Hz Hc Hm w' wrapper.
  destruct (build_fresh_nodes c opts w Hc Hm) as (Hlen & Hwr & _ & _ & Hown).
  destruct (build_controlOk c opts w Hc Hm) as [Hk _].
  fold w' wrapper in Hlen, Hwr, Hown, Hk.
  replace (Z.to_nat (numStars opts)) with O in * by lia. cbn [seq] in *.
  destruct (lookup_lt_is_Some_2 (page w) c Hc) as [nd Hnd].
  assert (Dom.getAttribute (page w') c "data-starutils-built" = Some "1") as Hmark.
  { unfold Dom.getAttribute. rewrite Hown, Hnd. cbn. apply lookup_insert_eq. }
  repeat split.
  - done.
  - unfold Dom.childrenOf. by rewrite Hown, Hnd.
  - unfold Dom.matches. by rewrite Hwr.
  - unfold Dom.childrenOf. by rewrite Hwr.
  - lia.
  - by rewrite Hk.
  - intros opts'. unfold _buildCustomStarsForContainer.
    by rewrite bool_decide_eq_true_2.
Qed.

(** ** Removing the native stars again *)

Lemma alter_fixed {A} (f : A → A) (l : list A) (i : nat) (x : A) :
  l !! i = Some x → f x = x → alter f i l = l.
Proof.
  intros Hx Hf. apply list_eq. intros j. rewrite list_lookup_alter.
  case_decide as E; [subst j|done]. by rewrite Hx; cbn; rewrite Hf.
Qed.

Lemma stripContainer_emptied depth (d : dom) (c : nid) :
  nodeSat isEmptied d c → stripContainer depth d c = d.
Proof.
  intros (nd & Hnd & Hch & Hbg).
  assert (Dom.childrenOf d c = []) as Hno by (unfold Dom.childrenOf; by rewrite Hnd).
  unfold stripContainer.
  assert (foldl (removeNativePart depth c) d nativeParts = d) as ->.
  { induction nativeParts as [|s r IH] using rev_ind; [done|].
    rewrite foldl_app, IH. cbn [foldl]. unfold removeNativePart, Dom.querySelector,
      Dom.querySelectorAll. by rewrite descendants_childless. }
  unfold Dom.clearChildren. rewrite Hno. cbn [foldr].
  assert (alter (set_childNodes []) c d = d) as ->.
  { apply (alter_fixed _ _ _ nd Hnd). destruct nd; cbn in *. by rewrite Hch. }
  unfold Dom.setStyle. apply (alter_fixed _ _ _ nd Hnd).
  rewrite insert_id by done. by destruct nd.
Qed.

Lemma strip_all_children depth (cs : list nid) (d : dom) (x y : nid) :
  y ∈ Dom.childrenOf (foldl (stripContainer depth) d cs) x → y ∈ Dom.childrenOf d x.
Proof.
  unfold Dom.childrenOf at 2. destruct (d !! x) as [nd|] eqn:Hnd.
  - assert (nodeSat (λ nd', ∀ z : nid, z ∈ childNodes nd' → z ∈ childNodes nd)
              (foldl (stripContainer depth) d cs) x) as (nd' & Hnd' & Hsub).
    { apply strip_all_kept.
      - intros v nd' H. exact H.
      - intros v nd' H. exact H.
      - intros z nd' H u Hu. apply H. cbn in Hu. unfold Dom.without in Hu.
        by apply list_elem_of_filter in Hu as [_ ?].
      - intros nd' H u Hu. by apply elem_of_nil in Hu.
      - by exists nd. }
    unfold Dom.childrenOf. rewrite Hnd'. cbn. apply Hsub.
  - rewrite childrenOf_none; [done|]. rewrite strip_all_length.
    by apply lookup_ge_None.
Qed.

Lemma descendants_fewer (k : nat) (d d' : dom) (n x : nid) :
  (∀ p y, y ∈ Dom.childrenOf d' p → y ∈ Dom.childrenOf d p) →
  x ∈ Dom.descendants k d' n → x ∈ Dom.descendants k d n.
Proof.
  intros Hsub. revert n. induction k as [|k IH]; intros n Hx; [done|].
  apply elem_of_descendants in Hx as (c & Hc & Hx). apply elem_of_descendants.
  exists c. split; [by apply Hsub|]. destruct Hx as [->|Hx]; [by left|right; by apply IH].
Qed.

Lemma strip_all_matches depth (cs : list nid) (d : dom) (sel : Dom.selector) (x : nid) :
  Dom.matches (foldl (stripContainer depth) d cs) sel x = Dom.matches d sel x.
Proof.
  unfold Dom.matches. destruct (d !! x) as [nd|] eqn:Hnd.
  - assert (nodeSat (sameContent nd) (foldl (stripContainer depth) d cs) x)
      as (nd' & -> & Ht & Hc & _).
    { apply strip_all_kept; try done. exists nd. split; [done|apply sameContent_refl]. }
    unfold Dom.matchesNode. by rewrite Ht, Hc.
  - rewrite lookup_ge_None_2; [done|]. rewrite strip_all_length. by apply lookup_ge_None.
Qed.

(** X25. [removeNativeStars] is idempotent: called again on the same root
    element, it leaves the page exactly as the first call left it. *)
Theorem removal_is_idempotent (depth : nat) (n : nid) (w : world) :
  removeNativeStars depth (RefElement n) (removeNativeStars depth (RefElement n) w)
  = removeNativeStars depth (RefElement n) w.
Proof.
  unfold removeNativeStars. cbn [_getQuestionContainer _qsAll page set_page]. cbv zeta.
  set (cs := Dom.querySelectorAll depth (page w) n (Dom.ByClass "StarsContainer")).
  set (d1 := foldl (stripContainer depth) (page w) cs).
  transitivity (set_page d1 (set_page d1 w)); [|done]. f_equal.
  assert (∀ c, c ∈ Dom.querySelectorAll depth d1 n (Dom.ByClass "StarsContainer") →
               nodeSat isEmptied d1 c) as Hall.
  { intros c Hc. unfold Dom.querySelectorAll in Hc.
    apply list_elem_of_filter in Hc as [Hm Hd].
    apply strip_all_empties; [|apply querySelectorAll_valid].
    unfold cs, Dom.querySelectorAll. apply list_elem_of_filter. split.
    - unfold d1 in Hm. by rewrite strip_all_matches in Hm.
    - eapply descendants_fewer; [|exact Hd]. intros p y. apply strip_all_children. }
  revert Hall. generalize (Dom.querySelectorAll depth d1 n (Dom.ByClass "StarsContainer")) as cs1.
  intros cs1 Hall. induction cs1 as [|c cs1 IH]; [done|].
  cbn [foldl]. rewrite stripContainer_emptied.
  - apply IH. intros c' Hc'. apply Hall. apply elem_of_cons. by right.
  - apply Hall. apply elem_of_cons. by left.
Qed.

(** ** Removal stays below the root *)

Lemma descendants_mono (k k' : nat) (d : dom) (n x : nid) :
  (k ≤ k')%nat → x ∈ Dom.descendants k d n → x ∈ Dom.descendants k' d n.
Proof.
  induction 1 as [|k' Hle IH]; [done|]. intros Hx. by apply descendants_deeper, IH.
Qed.

Lemma below_child (d : dom) (n x : nid) : x ∈ Dom.childrenOf d n → below d n x.
Proof.
  intros H. exists 1%nat. apply elem_of_descendants. exists x. split; [done|by left].
Qed.

Lemma below_trans (d : dom) (n x y : nid) : below d n x → below d x y → below d n y.
Proof.
  intros [k1 H1] [k2 H2]. exists (k1 + k2)%nat. revert n H1.
  induction k1 as [|k1 IH]; intros n H1; [by apply elem_of_nil in H1|].
  apply elem_of_descendants in H1 as (c & Hc & [->|H1]).
  - cbn [Nat.add]. apply elem_of_descendants. exists c. split; [done|]. right.
    eapply descendants_mono; [|exact H2]. lia.
  - cbn [Nat.add]. apply elem_of_descendants. exists c. split; [done|]. right.
    by apply IH.
Qed.

Lemma below_fewer (d0 d : dom) (n x : nid) : fewerLinks d0 d → below d n x → below d0 n x.
Proof. intros Hf [k Hx]. exists k. by eapply descendants_fewer. Qed.

Lemma descendants_parent_in (k : nat) (d : dom) (c x : nid) :
  wellFormed d → x ∈ Dom.descendants k d c →
  ∃ p, Dom.parentOf d x = Some p ∧ (p = c ∨ below d c p).
Proof.
  intros Hwf. revert c. induction k as [|k IH]; intros c Hx;
    [by apply elem_of_nil in Hx|].
  apply elem_of_descendants in Hx as (ch & Hch & [->|Hx]).
  - exists c. split; [|by left]. by apply (wellFormed_child d c ch Hwf Hch).
  - destruct (IH ch Hx) as (p & Hp & Hin). exists p. split; [done|]. right.
    destruct Hin as [->|Hb]; [by apply below_child|].
    eapply below_trans; [by apply below_child|done].
Qed.

Lemma fewerLinks_refl (d : dom) : fewerLinks d d.
Proof. by intros p y. Qed.

Lemma removeChild_fewer (d0 d : dom) (p c : nid) :
  fewerLinks d0 d → fewerLinks d0 (Dom.removeChild p c d).
Proof.
  intros Hf q y. unfold Dom.removeChild. rewrite childrenOf_alter_same by done.
  unfold Dom.childrenOf at 1. rewrite list_lookup_alter.
  case_decide as E; [subst q|apply Hf].
  intros Hy. apply Hf. unfold Dom.childrenOf. destruct (d !! p) as [nd|]; [|done].
  cbn in *. unfold Dom.without in Hy. by apply list_elem_of_filter in Hy as [_ ?].
Qed.

Lemma removeNativePart_outside depth (d0 d : dom) (n c x : nid) (sel : Dom.selector) :
  wellFormed d → fewerLinks d0 d → below d0 n c → ¬ below d0 n x →
  removeNativePart depth c d sel !! x = d !! x
  ∧ wellFormed (removeNativePart depth c d sel)
  ∧ fewerLinks d0 (removeNativePart depth c d sel).
Proof.
  intros Hwf Hf Hc Hx. split; [|split; [by apply wellFormed_removeNativePart|]].
  - unfold removeNativePart.
    destruct (Dom.querySelector depth d c sel) as [e|] eqn:He; [|done].
    destruct (Dom.parentOf d e) as [p|] eqn:Hp; [|done].
    unfold Dom.querySelector, Dom.querySelectorAll in He.
    apply head_Some_elem_of, list_elem_of_filter in He as [_ He].
    assert (below d0 n e) as Hbe.
    { eapply below_trans; [exact Hc|]. eapply below_fewer; [exact Hf|by exists depth]. }
    destruct (descendants_parent_in depth d c e Hwf He) as (p' & Hp' & Hin).
    assert (p' = p) as -> by congruence.
    assert (below d0 n p) as Hbp.
    { destruct Hin as [->|Hb]; [done|].
      eapply below_trans; [exact Hc|]. by eapply below_fewer. }
    unfold Dom.removeChild. rewrite !list_lookup_alter_ne; [done| |]; by intros ->.
  - unfold removeNativePart. destruct (Dom.querySelector depth d c sel); [|done].
    destruct (Dom.parentOf d _); [|done]. by apply removeChild_fewer.
Qed.

Lemma clearChildren_fewer (d0 d : dom) (c : nid) :
  fewerLinks d0 d → fewerLinks d0 (Dom.clearChildren c d).
Proof.
  intros Hf q y. rewrite childrenOf_cleared. case_decide; [by intros ?%elem_of_nil|].
  apply Hf.
Qed.

Lemma stripContainer_outside depth (d0 d : dom) (n c x : nid) :
  wellFormed d → fewerLinks d0 d → below d0 n c → ¬ below d0 n x →
  stripContainer depth d c !! x = d !! x
  ∧ wellFormed (stripContainer depth d c)
  ∧ fewerLinks d0 (stripContainer depth d c).
Proof.
  intros Hwf Hf Hc Hx. unfold stripContainer.
  assert (foldl (removeNativePart depth c) d nativeParts !! x = d !! x
          ∧ wellFormed (foldl (removeNativePart depth c) d nativeParts)
          ∧ fewerLinks d0 (foldl (removeNativePart depth c) d nativeParts))
    as (H1 & Hwf1 & Hf1).
  { induction nativeParts as [|s r IH] using rev_ind; [done|].
    rewrite foldl_app. cbn [foldl]. destruct IH as (I1 & I2 & I3).
    destruct (removeNativePart_outside depth d0 _ n c x s I2 I3 Hc Hx) as (J1 & J2 & J3).
    split; [by rewrite J1|done]. }
  set (d1 := foldl (removeNativePart depth c) d nativeParts) in *.
  assert (x ≠ c) as Hne by (by intros ->).
  split; [|split].
  - unfold Dom.setStyle, Dom.clearChildren. rewrite !list_lookup_alter_ne by done.
    rewrite lookup_unlink. rewrite decide_False; [by destruct (d1 !! x)|].
    intros Hin. apply Hx. eapply below_trans; [exact Hc|].
    apply below_child. by apply Hf1.
  - by apply wellFormed_restyled, wellFormed_clearChildren.
  - intros q y. unfold Dom.setStyle. rewrite childrenOf_alter_same by done.
    by apply clearChildren_fewer.
Qed.

Lemma strip_all_outside depth (d0 : dom) (n x : nid) (cs : list nid) (d : dom) :
  wellFormed d → fewerLinks d0 d → Forall (below d0 n) cs → ¬ below d0 n x →
  foldl (stripContainer depth) d cs !! x = d !! x.
Proof.
  revert d. induction cs as [|c cs IH]; intros d Hwf Hf Hcs Hx; [done|].
  cbn [foldl]. apply Forall_cons in Hcs as [Hc Hcs].
  destruct (stripContainer_outside depth d0 d n c x Hwf Hf Hc Hx) as (H1 & H2 & H3).
  by rewrite IH.
Qed.

(** X26. [removeNativeStars] stays below its root: in a well-formed page,
    every node that is not a descendant of the root element, such as the
    nodes of the other questions, is exactly as it was. *)
Theorem removal_stays_below_the_root (depth : nat) (n x : nid) (w : world) :
  wellFormed (page w) → ¬ below (page w) n x →
  page (removeNativeStars depth (RefElement n) w) !! x = page w !! x.
Proof.
  intros Hwf Hx. unfold removeNativeStars.
  cbn [_getQuestionContainer _qsAll page set_page]. cbv zeta. cbn [page set_page].
  apply (strip_all_outside depth (page w) n); [done|apply fewerLinks_refl| |done].
  apply Forall_forall. intros c Hc. unfold Dom.querySelectorAll in Hc.
  apply list_elem_of_filter in Hc as [_ Hc]. by exists depth.
Qed.

(** ** Operations that always return *)

(** X28. [addLabels] and [enforceMinStar] return whatever their arguments
    are, and so do [applySpacing] and [applyColorGradient] once they are
    given an options object: beyond the missing options, no failure
    reaches the caller. *)
Theorem operations_return (depth : nat) (r : rootRef) (w : world) :
  (∀ o, ∃ w', addLabels depth r o w = Normal w')
  ∧ (∀ m, ∃ w', enforceMinStar depth r m w = Normal w')
  ∧ (∀ o, ∃ w', applySpacing depth r (ArgObject o) w = Normal w')
  ∧ (∀ o, ∃ w', applyColorGradient depth r (ArgObject o) w = Normal w').
Proof.
  unfold addLabels, enforceMinStar, applySpacing, applyColorGradient.
  destruct (_getQuestionContainer depth w r); repeat split; eauto.
Qed.

(** ** The further properties at the sample page *)

(** A click on the third icon, with the check of minimum 1 registered. *)
Lemma activation_witness :
  let w := runTask 8 (EnforceTask (QElem 1%nat) 1) builtWorld in
  let icons := [9; 10; 11; 12; 13]%nat in
  let ms := [1] in
  controlOk w 0%nat icons
  ∧ icons !! 2%nat = Some 11%nat
  ∧ Dom.listenersOf (page w) 11%nat "click" = [OnClick 0%nat 4%nat (Z.of_nat 2 + 1)]
  ∧ Dom.closest 8 (page w) 4%nat "tr" = Some 2%nat
  ∧ Dom.querySelector 8 (page w) 2%nat (Dom.ByClass "ResultsInput") = Some 7%nat
  ∧ Dom.ancestors (page w) 11%nat ≫= (λ a, Dom.listenersOf (page w) a "click")
    = OnEnforce 7%nat <$> ms
  ∧ Forall Js.safeInteger ms
  ∧ let w' := click 8 11%nat w in
    let held := foldl Z.max (Z.of_nat 2 + 1) ms in
    selectedOf w' 0%nat = Z.of_nat 2 + 1
    ∧ (∀ j t, icons !! j = Some t →
         Dom.getStyle (page w') t "opacity"
         = Some (if Z.of_nat j + 1 <=? Z.of_nat 2 + 1 then "1" else "0.35"))
    ∧ Dom.getProp (page w') 7%nat "value" = Some (Js.toString held)
    ∧ fieldNumber w' 7%nat = Some held
    ∧ (Forall (λ m, m ≤ Z.of_nat 2 + 1) ms → held = Z.of_nat 2 + 1)
    ∧ dispatched <$> page w' !! 7%nat
      = (λ nd, dispatched nd ++ [Event "input" true; Event "change" true])
        <$> page w !! 7%nat.
Proof.
  intros w icons ms.
  assert (controlOk w 0%nat icons) as H1 by (repeat split; by_eval).
  assert (icons !! 2%nat = Some 11%nat) as H2 by by_eval.
  assert (Dom.listenersOf (page w) 11%nat "click" = [OnClick 0%nat 4%nat (Z.of_nat 2 + 1)])
    as H3 by by_eval.
  assert (Dom.closest 8 (page w) 4%nat "tr" = Some 2%nat) as H4 by by_eval.
  assert (Dom.querySelector 8 (page w) 2%nat (Dom.ByClass "ResultsInput") = Some 7%nat)
    as H5 by by_eval.
  assert (Dom.ancestors (page w) 11%nat ≫= (λ a, Dom.listenersOf (page w) a "click")
          = OnEnforce 7%nat <$> ms) as H6 by by_eval.
  assert (Forall Js.safeInteger ms) as H7
    by (repeat constructor; unfold Js.safeInteger; lia).
  repeat (split; [assumption|]).
  exact (click_selects_and_stores 8 w 0%nat icons 2%nat 11%nat 4%nat 2%nat 7%nat ms
           H1 H2 H3 H4 H5 H6 H7).
Defined.


Lemma enforce_clamps_witness :
  (7 < length (page (typed "0")))%nat
  ∧ Js.safeInteger 1
  ∧ Js.safeInteger 0
  ∧ Js.parseInt (Js.orElse (default EmptyString
                              (Dom.getProp (page (typed "0")) 7%nat "value")) "0")
    = Some 0
  ∧ let w' := enforce 7%nat 1 (typed "0") in
    (0 < 1 → Dom.getProp (page w') 7%nat "value" = Some (Js.toString 1)
             ∧ fieldNumber w' 7%nat = Some 1)
    ∧ (1 ≤ 0 → w' = typed "0").
Proof.
  assert (7 < length (page (typed "0")))%nat as H1 by (vm_compute; lia).
  assert (Js.safeInteger 1) as Hm by (unfold Js.safeInteger; lia).
  assert (Js.safeInteger 0) as Hv by (unfold Js.safeInteger; lia).
  assert (Js.parseInt (Js.orElse (default EmptyString
                                    (Dom.getProp (page (typed "0")) 7%nat "value")) "0")
          = Some 0) as H2 by by_eval.
  repeat (split; [assumption|]).
  exact (enforce_clamps_numbers 7%nat 1 0 (typed "0") H1 Hm Hv H2).
Defined.

Lemma enforce_text_witness :
  Dom.getProp (page (typed "abc")) 7%nat "value" = Some "abc"
  ∧ "abc" ≠ EmptyString
  ∧ Js.parseInt "abc" = None
  ∧ enforce 7%nat 1 (typed "abc") = typed "abc"
  ∧ fieldNumber (enforce 7%nat 1 (typed "abc")) 7%nat = None.
Proof.
  assert (Dom.getProp (page (typed "abc")) 7%nat "value" = Some "abc") as H1 by by_eval.
  assert ("abc" ≠ EmptyString) as H2 by discriminate.
  assert (Js.parseInt "abc" = None) as H3 by by_eval.
  repeat (split; [assumption|]).
  exact (enforce_ignores_text 7%nat 1 "abc" (typed "abc") H1 H2 H3).
Defined.

Lemma setSelected_witness :
  let icons := [9; 10; 11; 12; 13]%nat in
  controlOk builtWorld 0%nat icons
  ∧ let w' := setSelected 0%nat 2 builtWorld in
    selectedOf w' 0%nat = 2
    ∧ (∀ idx s, icons !! idx = Some s →
         Dom.getStyle (page w') s "opacity" = Some (opacityAt 2 idx))
    ∧ Forall2 sameButStyle (page builtWorld) (page w').
Proof.
  intros icons.
  assert (controlOk builtWorld 0%nat icons) as H1 by (repeat split; by_eval).
  split; [assumption|].
  exact (setSelected_paints_only 0%nat 2 builtWorld icons H1).
Defined.



Lemma activation_then_check_witness :
  let icons := [9; 10; 11; 12; 13]%nat in
  controlOk builtWorld 0%nat icons
  ∧ Dom.closest 8 (page builtWorld) 4%nat "tr" = Some 2%nat
  ∧ Dom.querySelector 8 (page builtWorld) 2%nat (Dom.ByClass "ResultsInput") = Some 7%nat
  ∧ let w1 := fire 8 (OnClick 0%nat 4%nat 1) builtWorld in
    let w2 := fire 8 (OnEnforce 7%nat 2) w1 in
    selectedOf w2 0%nat = 1
    ∧ (∀ idx s, icons !! idx = Some s →
         Dom.getStyle (page w2) s "opacity" = Some (opacityAt 1 idx))
    ∧ (2 ≤ 1 → w2 = w1)
    ∧ (1 < 2 → Dom.getProp (page w2) 7%nat "value" = Some (Js.toString 2)).
Proof.
  intros icons.
  assert (controlOk builtWorld 0%nat icons) as H1 by (repeat split; by_eval).
  assert (Dom.closest 8 (page builtWorld) 4%nat "tr" = Some 2%nat) as H2 by by_eval.
  assert (Dom.querySelector 8 (page builtWorld) 2%nat (Dom.ByClass "ResultsInput")
          = Some 7%nat) as H3 by by_eval.
  repeat (split; [assumption|]).
  exact (activation_then_check 8 builtWorld 0%nat icons 4%nat 2%nat 7%nat 1 2 H1 H2 H3).
Defined.

Lemma removal_empties_witness :
  4%nat ∈ _qsAll 8 (page sampleWorld) (QElem 1%nat) (Dom.ByClass "StarsContainer")
  ∧ let w' := removeNativeStars 8 (RefElement 1%nat) sampleWorld in
    Dom.childrenOf (page w') 4%nat = []
    ∧ Dom.getStyle (page w') 4%nat "background" = Some "none"
    ∧ ∀ sel, Dom.querySelectorAll 8 (page w') 4%nat sel = [].
Proof.
  assert (4%nat ∈ _qsAll 8 (page sampleWorld) (QElem 1%nat) (Dom.ByClass "StarsContainer"))
    as H1 by by_eval.
  split; [assumption|].
  exact (removal_empties_containers 8 1%nat 4%nat sampleWorld H1).
Defined.

Lemma removal_wellFormed_witness :
  wellFormed (page sampleWorld)
  ∧ wellFormed (page (removeNativeStars 8 (RefString "QID1") sampleWorld)).
Proof.
  split; [exact samplePage_wellFormed|].
  exact (removal_keeps_wellFormed 8 (RefString "QID1") sampleWorld samplePage_wellFormed).
Defined.

Lemma callbacks_wellFormed_witness :
  wellFormed (page sampleWorld)
  ∧ wellFormed (page (runTask 8 (SpacingTask (QElem 1%nat) 20 30 5) sampleWorld)).
Proof.
  split; [exact samplePage_wellFormed|].
  exact (callbacks_keep_wellFormed 8 (SpacingTask (QElem 1%nat) 20 30 5) sampleWorld
           samplePage_wellFormed).
Defined.

(** One row, five stars of 30 pixels, 20 pixels apart: 230 pixels. *)
Lemma spacing_width_witness :
  let w' := spaceContainer 8 20 30 5 sampleWorld 4%nat in
  0 ≤ 20 ∧ 0 ≤ 30 ∧ 1 ≤ 5
  ∧ Css.pixels (totalWidth 20 30 5)
  ∧ Css.pixels (totalWidth 20 30 5 - 60)
  ∧ Dom.closest 8 (page w') 4%nat "tr" = Some 2%nat
  ∧ Dom.querySelector 8 (page w') 2%nat (Dom.ByTagClass "td" "control") = Some 3%nat
  ∧ px (totalWidth 20 30 5) = "230px"
  ∧ Dom.getStyle (page w') 3%nat "minWidth" = Some (px (totalWidth 20 30 5))
  ∧ Dom.getStyle (page w') 3%nat "whiteSpace" = Some "nowrap"
  ∧ ∀ cell, Dom.querySelector 8 (page w') 2%nat (Dom.ByTagClass "td" "value") = Some cell →
            Dom.getStyle (page w') cell "paddingLeft" = Some (px (totalWidth 20 30 5 - 60)).
Proof.
  intros w'.
  assert (0 ≤ 20) as Ha by lia. assert (0 ≤ 30) as Hb by lia. assert (1 ≤ 5) as Hc by lia.
  assert (Css.pixels (totalWidth 20 30 5)) as Hd by (vm_compute; split; congruence).
  assert (Css.pixels (totalWidth 20 30 5 - 60)) as He by (vm_compute; split; congruence).
  assert (Dom.closest 8 (page w') 4%nat "tr" = Some 2%nat) as H1 by by_eval.
  assert (Dom.querySelector 8 (page w') 2%nat (Dom.ByTagClass "td" "control") = Some 3%nat)
    as H2 by by_eval.
  assert (px (totalWidth 20 30 5) = "230px") as H3 by by_eval.
  repeat (split; [assumption|]).
  exact (spacing_reserves_width 8 20 30 5 sampleWorld 4%nat 2%nat 3%nat
           Ha Hb Hc Hd He H1 (or_introl H2)).
Defined.

Lemma first_run_witness :
  let w1 := removeNativeStars 8 (RefElement 1%nat) sampleWorld in
  let cs := _qsAll 8 (page w1) (QElem 1%nat) (Dom.ByClass "StarsContainer") in
  NoDup cs
  ∧ 4%nat ∈ cs
  ∧ Dom.getAttribute (page sampleWorld) 4%nat "data-starutils-built" ≠ Some "1"
  ∧ let w' := runTask 8 (SpacingTask (QElem 1%nat) 20 30 5) sampleWorld in
    ∃ wrapper k, builtAt w' 4%nat wrapper k (seq (S wrapper) (Z.to_nat 5)).
Proof.
  intros w1 cs.
  assert (NoDup cs) as H1 by by_eval.
  assert (4%nat ∈ cs) as H2 by by_eval.
  assert (Dom.getAttribute (page sampleWorld) 4%nat "data-starutils-built" ≠ Some "1")
    as H3 by (vm_compute; discriminate).
  repeat (split; [assumption|]).
  exact (first_run_builds_each_container 8 1%nat 4%nat 20 30 5 sampleWorld H1 H2 H3).
Defined.

Lemma icon_setting_witness :
  let opts := BuildOpts 20 30 5 None in
  "star.svg" ≠ EmptyString
  ∧ (4 < length (page sampleWorld))%nat
  ∧ Dom.getAttribute (page sampleWorld) 4%nat "data-starutils-built" ≠ Some "1"
  ∧ let w0 := setStarIcon (Some "star.svg") sampleWorld in
    let w' := fst (_buildCustomStarsForContainer (Some 4%nat) opts w0) in
    page w0 = page sampleWorld ∧ ctrls w0 = ctrls sampleWorld
    ∧ setStarIcon None sampleWorld = sampleWorld
    ∧ setStarIcon (Some EmptyString) sampleWorld = sampleWorld
    ∧ ∀ j, (j < Z.to_nat (numStars opts))%nat →
           Dom.getProp (page w') (S (length (page sampleWorld)) + j) "src"
           = Some (match starIcon opts with
                   | Some own => if bool_decide (own = EmptyString) then "star.svg" else own
                   | None => "star.svg"
                   end).
Proof.
  intros opts.
  assert ("star.svg" ≠ EmptyString) as H1 by discriminate.
  assert (4 < length (page sampleWorld))%nat as H2 by (vm_compute; lia).
  assert (Dom.getAttribute (page sampleWorld) 4%nat "data-starutils-built" ≠ Some "1")
    as H3 by (vm_compute; discriminate).
  repeat (split; [assumption|]).
  exact (icon_setting_reaches_later_controls "star.svg" 4%nat opts sampleWorld H1 H2 H3).
Defined.

Lemma colors_lost_witness :
  Dom.querySelectorAll 8 (page sampleWorld) 1%nat (Dom.ByTagClass "img" "starutils-star")
  = []
  ∧ runTask 8 (ColorTask (QElem 1%nat) ["#a"; "#b"]) sampleWorld = sampleWorld
  ∧ runTask 8 (SpacingTask (QElem 1%nat) 20 30 5)
      (runTask 8 (ColorTask (QElem 1%nat) ["#a"; "#b"]) sampleWorld)
    = runTask 8 (SpacingTask (QElem 1%nat) 20 30 5) sampleWorld.
Proof.
  assert (Dom.querySelectorAll 8 (page sampleWorld) 1%nat
            (Dom.ByTagClass "img" "starutils-star") = []) as H1 by by_eval.
  split; [assumption|].
  exact (colors_before_construction_are_lost 8 1%nat ["#a"; "#b"] 20 30 5 sampleWorld H1).
Defined.

Lemma labelling_place_witness :
  let d := page builtWorld in
  wellFormed d
  ∧ Dom.parentOf d 8%nat = Some 4%nat
  ∧ Dom.childrenOf d 4%nat = [] ++ 8%nat :: []
  ∧ (8%nat ∉ @nil nid)
  ∧ let d' := wrapWithLabels "bad" "good" 4%nat 8%nat d in
    let flexWrap := length d in
    Dom.childrenOf d' 4%nat = [] ++ flexWrap :: []
    ∧ Dom.childrenOf d' flexWrap = [S flexWrap; 8%nat; S (S flexWrap)]
    ∧ Dom.parentOf d' 8%nat = Some flexWrap
    ∧ Dom.parentOf d' flexWrap = Some 4%nat.
Proof.
  intros d.
  assert (Dom.parentOf d 8%nat = Some 4%nat) as H1 by by_eval.
  assert (Dom.childrenOf d 4%nat = [] ++ 8%nat :: []) as H2 by by_eval.
  assert (8%nat ∉ @nil nid) as H3 by apply not_elem_of_nil.
  split; [exact builtWorld_wellFormed|].
  repeat (split; [assumption|]).
  exact (labelling_keeps_the_place "bad" "good" 4%nat 8%nat d [] []
           builtWorld_wellFormed H1 H2 H3 H3).
Defined.

Lemma empty_count_witness :
  let opts := BuildOpts 20 30 0 None in
  numStars opts ≤ 0
  ∧ (4 < length (page sampleWorld))%nat
  ∧ Dom.getAttribute (page sampleWorld) 4%nat "data-starutils-built" ≠ Some "1"
  ∧ let w' := fst (_buildCustomStarsForContainer (Some 4%nat) opts sampleWorld) in
    let wrapper := length (page sampleWorld) in
    Dom.getAttribute (page w') 4%nat "data-starutils-built" = Some "1"
    ∧ Dom.childrenOf (page w') 4%nat = Dom.childrenOf (page sampleWorld) 4%nat ++ [wrapper]
    ∧ Dom.matches (page w') (Dom.ByClass "starutils-wrapper") wrapper = true
    ∧ Dom.childrenOf (page w') wrapper = []
    ∧ length (page w') = S (length (page sampleWorld))
    ∧ stars <$> ctrls w' !! length (ctrls sampleWorld) = Some []
    ∧ ∀ opts', _buildCustomStarsForContainer (Some 4%nat) opts' w' = (w', BuiltAlready 4%nat).
Proof.
  intros opts.
  assert (numStars opts ≤ 0) as H1 by (cbn; lia).
  assert (4 < length (page sampleWorld))%nat as H2 by (vm_compute; lia).
  assert (Dom.getAttribute (page sampleWorld) 4%nat "data-starutils-built" ≠ Some "1")
    as H3 by (vm_compute; discriminate).
  repeat (split; [assumption|]).
  exact (empty_count_still_marks 4%nat opts sampleWorld H1 H2 H3).
Defined.

(** In a page whose nodes come after their parents, a descendant comes
    after its ancestor. *)
Lemma below_after (d : dom) (n x : nid) :
  (∀ p y, y ∈ Dom.childrenOf d p → (p < y)%nat) → below d n x → (n < x)%nat.
Proof.
  intros Hord [k Hx]. revert n Hx. induction k as [|k IH]; intros n Hx;
    [by apply elem_of_nil in Hx|].
  apply elem_of_descendants in Hx as (c & Hc & [->|Hx]); [by apply Hord|].
  apply Hord in Hc. apply IH in Hx. lia.
Qed.

Lemma samplePage_ordered (p y : nid) : y ∈ Dom.childrenOf samplePage p → (p < y)%nat.
Proof.
  intros Hy. destruct (decide (p < length samplePage)%nat) as [Hp|Hp].
  - assert (forallb (λ p, forallb (λ y, bool_decide (p < y)%nat)
                            (Dom.childrenOf samplePage p))
              (seq 0 (length samplePage)) = true) as Hb by (vm_compute; reflexivity).
    rewrite forallb_forall in Hb. specialize (Hb p).
    rewrite <- list_elem_of_In, elem_of_seq in Hb. specialize (Hb ltac:(lia)).
    rewrite forallb_forall in Hb. apply list_elem_of_In, Hb in Hy.
    by apply bool_decide_eq_true in Hy.
  - rewrite childrenOf_none in Hy by lia. by apply elem_of_nil in Hy.
Qed.

(** The node of the document is not below the question. *)
Lemma removal_outside_witness :
  wellFormed (page sampleWorld)
  ∧ ¬ below (page sampleWorld) 1%nat 0%nat
  ∧ page (removeNativeStars 8 (RefElement 1%nat) sampleWorld) !! 0%nat
    = page sampleWorld !! 0%nat.
Proof.
  assert (¬ below (page sampleWorld) 1%nat 0%nat) as H1.
  { intros H. apply (below_after samplePage) in H; [lia|]. apply samplePage_ordered. }
  split; [exact samplePage_wellFormed|]. split; [assumption|].
  exact (removal_stays_below_the_root 8 1%nat 0%nat sampleWorld samplePage_wellFormed H1).
Defined.

(** No element of the sample page has the id [QID9]. *)
Lemma unresolved_root_witness :
  _getQuestionContainer 8 sampleWorld (RefString "QID9") = None
  ∧ (∀ o, applySpacing 8 (RefString "QID9") (ArgObject o) sampleWorld = Normal sampleWorld)
  ∧ (∀ o, applyColorGradient 8 (RefString "QID9") (ArgObject o) sampleWorld
          = Normal sampleWorld)
  ∧ (∀ o, addLabels 8 (RefString "QID9") o sampleWorld = Normal sampleWorld)
  ∧ (∀ m, enforceMinStar 8 (RefString "QID9") m sampleWorld = Normal sampleWorld)
  ∧ removeNativeStars 8 (RefString "QID9") sampleWorld = sampleWorld.
Proof.
  assert (_getQuestionContainer 8 sampleWorld (RefString "QID9") = None) as H1 by by_eval.
  split; [assumption|].
  exact (unresolved_root_is_noop 8 (RefString "QID9") sampleWorld H1).
Defined.
